(** * nsys-ai: trace correlation and temporal-analysis engine

    A shallow embedding of the engine of [nsys_tui]: kernel
    classification and compute/communication overlap ([overlap.py]),
    the annotation projector ([projection.py]), the NVTX tree builder
    ([tree.py]) and the convergence analyzer ([ai/analyzer.py]), over a
    list model of the SQLite event store ([profile.py]).

    Python integers are unbounded: timestamps are [Z], counts are [nat].
    Strings are [string] (one [ascii] per character; kernel and range
    names are C++ identifiers).  A [dict] used as a map is a [gmap]; a
    [dict] whose iteration order matters is an association list. *)

From Stdlib Require Import ZArith List Bool Lia QArith Qround Lqa.
From Stdlib Require Import Sorting.Permutation.
From Stdlib Require Import Strings.Ascii DecimalString.
From stdpp Require Import base strings gmap list.

Local Open Scope Z_scope.
Set Warnings "-register-all".

(* ================================================================== *)
(** * Part I: definitions *)
(* ================================================================== *)

(** ** Python built-ins used by the engine *)

Module Py.

(** [str.lower()] where the engine tests a kernel name for one of its
    fixed ASCII patterns (["nccl"] and the keys of [NCCL_TYPES]): the
    folding of [A-Z].  On these tests it decides as [str.lower()] does:
    the letters that lowering a non-ASCII character can yield, [i] and
    [k], occur in none of the patterns.  It is also the case folding of
    SQLite's [LIKE].  Where free text is lowered the searches take
    [str.lower()] as the parameter [str_lower]. *)
Definition lower_char (c : ascii) : ascii :=
  let n := N_of_ascii c in
  if ((65 <=? n) && (n <=? 90))%N then ascii_of_N (n + 32) else c.

Fixpoint lower (s : string) : string :=
  match s with
  | EmptyString => EmptyString
  | String c r => String (lower_char c) (lower r)
  end.

(** [s.startswith(p)]. *)
Fixpoint startswith (p s : string) : bool :=
  match p, s with
  | EmptyString, _ => true
  | String a p', String b s' => if Ascii.eqb a b then startswith p' s' else false
  | String _ _, EmptyString => false
  end.

(** [p in s] on strings: [p] occurs at some offset of [s]. *)
Fixpoint str_in (p s : string) : bool :=
  if startswith p s then true
  else match s with
       | EmptyString => false
       | String _ r => str_in p r
       end.

(** [sorted(l, key=...)] and [list.sort]: the stable sort, written as
    an insertion sort on a "less or equal" test ([x] is placed before
    the first element it does not exceed, so equal elements keep their
    input order). *)
Section Sort.
Context {A : Type} (leb : A -> A -> bool).

Fixpoint insert_sorted (x : A) (l : list A) : list A :=
  match l with
  | [] => [x]
  | y :: r => if leb x y then x :: y :: r else y :: insert_sorted x r
  end.

Fixpoint sorted (l : list A) : list A :=
  match l with
  | [] => []
  | x :: r => insert_sorted x (sorted r)
  end.
End Sort.

Definition sorted_by_key {A : Type} (key : A -> Z) : list A -> list A :=
  sorted (fun x y => key x <=? key y).

(** [s.replace(old, "")] for a non-empty [old]: occurrences are
    removed left to right; [skip] counts the characters of the
    occurrence being removed that are still to be dropped. *)
Fixpoint remove_from (old : string) (skip : nat) (s : string) : string :=
  match s with
  | EmptyString => EmptyString
  | String c r =>
      match skip with
      | S k => remove_from old k r
      | O => if startswith old s then remove_from old (String.length old - 1) r
             else String c (remove_from old 0 r)
      end
  end.

Definition remove_all (old s : string) : string := remove_from old 0 s.

(** [sum], [min] and [max] over a list ([min]/[max] are only called on
    non-empty lists; [d] is never returned for those). *)
Definition sum (l : list Z) : Z := fold_right Z.add 0 l.

Definition min_of (d : Z) (l : list Z) : Z :=
  match l with
  | [] => d
  | x :: r => fold_left Z.min r x
  end.

Definition max_of (d : Z) (l : list Z) : Z :=
  match l with
  | [] => d
  | x :: r => fold_left Z.max r x
  end.

End Py.

(** ** overlap.py: NCCL kernel classification *)

(** [NCCL_TYPES]; a [dict] iterates in insertion order. *)
Definition NCCL_TYPES : list (string * string) :=
  [ ("AllGather", "allgather");
    ("ReduceScatter", "reducescatter");
    ("AllReduce", "allreduce");
    ("Broadcast", "broadcast");
    ("SendRecv", "sendrecv");
    ("Reduce", "reduce") ]%string.

(** The [for key, label in NCCL_TYPES.items()] loop of [classify_kernel]:
    the label of the first key found in the name. *)
Fixpoint first_nccl_label (types : list (string * string)) (name : string)
  : option string :=
  match types with
  | [] => None
  | (key, label) :: rest =>
      if Py.str_in (Py.lower key) (Py.lower name) then Some label
      else first_nccl_label rest name
  end.

Definition classify_kernel (name : string) : string :=
  if Py.str_in "nccl" (Py.lower name) then
    match first_nccl_label NCCL_TYPES name with
    | Some label => ("nccl_" ++ label)%string
    | None => "nccl_other"%string
    end
  else "compute"%string.

(** ** profile.py: the event store

    The SQLite export is modelled by its three tables as lists of rows
    in storage order.  The string-table joins ([StringIds]) are taken as
    resolved: a kernel row carries its two names.  [ORDER BY start] is
    the stable sort on [start]. *)

Record KernelRow := {
  k_start : Z; k_end : Z; k_deviceId : Z; k_streamId : Z;
  k_correlationId : Z; k_name : string; k_demangled : string }.

Record RuntimeRow := {
  r_globalTid : Z; r_start : Z; r_end : Z; r_correlationId : Z }.

(** [text] may be SQL NULL. *)
Record NvtxRow := {
  n_text : option string; n_globalTid : Z; n_start : Z; n_end : Z }.

Record Profile := {
  KERNEL : list KernelRow;
  RUNTIME : list RuntimeRow;
  NVTX_EVENTS : list NvtxRow;
  time_range : Z * Z   (* meta.time_range *) }.

(** [Profile.kernels(device, trim)]. *)
Definition kernels (prof : Profile) (device : Z) (trim : option (Z * Z))
  : list KernelRow :=
  Py.sorted_by_key k_start
    (List.filter
       (fun k => (k_deviceId k =? device) &&
                 match trim with
                 | Some (t0, t1) => (t0 <=? k_start k) && (k_end k <=? t1)
                 | None => true
                 end)
       (KERNEL prof)).

(** The values of [Profile.kernel_map]. *)
Record KernelInfo := {
  ki_start : Z; ki_end : Z; ki_stream : Z;
  ki_name : string; ki_demangled : string }.

Definition kernel_info (k : KernelRow) : KernelInfo :=
  {| ki_start := k_start k; ki_end := k_end k; ki_stream := k_streamId k;
     ki_name := k_name k; ki_demangled := k_demangled k |}.

(** [Profile.kernel_map(device)]: a dict comprehension over the rows in
    start order; a later row with the same [correlationId] replaces an
    earlier one. *)
Definition kernel_map (prof : Profile) (device : Z) : gmap Z KernelInfo :=
  fold_left (fun m k => <[k_correlationId k := kernel_info k]> m)
    (Py.sorted_by_key k_start
       (List.filter (fun k => k_deviceId k =? device) (KERNEL prof)))
    ∅.

(** The rows of [CUPTI_ACTIVITY_KIND_RUNTIME r JOIN CUPTI_ACTIVITY_KIND_KERNEL k
    ON r.correlationId = k.correlationId WHERE k.deviceId = device]:
    one per matching pair. *)
Definition launches_on (prof : Profile) (device : Z) : list RuntimeRow :=
  flat_map
    (fun r =>
       map (fun _ => r)
         (List.filter
            (fun k => (r_correlationId r =? k_correlationId k) &&
                      (k_deviceId k =? device))
            (KERNEL prof)))
    (RUNTIME prof).

(** [Profile.gpu_threads(device)]. *)
Definition gpu_threads (prof : Profile) (device : Z) : gset Z :=
  list_to_set (map r_globalTid (launches_on prof device)).

(** The per-thread query of [Profile.runtime_index] (also issued
    directly by [build_nvtx_tree]). *)
Definition runtime_rows (prof : Profile) (tid : Z) (window : Z * Z)
  : list RuntimeRow :=
  Py.sorted_by_key r_start
    (List.filter
       (fun r => (r_globalTid r =? tid) && (window.1 <=? r_start r) &&
                 (r_end r <=? window.2))
       (RUNTIME prof)).

(** [Profile.runtime_index(threads, window)]. *)
Definition runtime_index (prof : Profile) (threads : gset Z) (window : Z * Z)
  : gmap Z (list RuntimeRow) :=
  list_to_map (map (fun tid => (tid, runtime_rows prof tid window))
                   (elements threads)).

(** [Profile.nvtx_events(threads, window)]. *)
Definition nvtx_events (prof : Profile) (threads : gset Z) (window : Z * Z)
  : list NvtxRow :=
  Py.sorted_by_key n_start
    (List.filter
       (fun n => match n_text n with Some _ => true | None => false end &&
                 (n_start n <? n_end n) &&
                 (window.1 <=? n_start n) && (n_start n <=? window.2) &&
                 bool_decide (n_globalTid n ∈ threads))
       (NVTX_EVENTS prof)).

(** ** Floating point

    The reports are Python floats: [round(x / 1e6, 2)] and the like.
    A float is represented by the rational it denotes, and the
    composition "divide in floating point, then [round(_, ndigits)]" is
    the parameter [py_round] of the reports, applied to the exact
    quotient.  Integer quantities are modelled exactly. *)

Inductive exn := ZeroDivisionError.

(** A Python call either returns or raises. *)
Inductive outcome (A : Type) :=
| Returns (a : A)
| Raises (e : exn).
Arguments Returns {A} a.
Arguments Raises {A} e.

Definition bind {A B : Type} (m : outcome A) (f : A -> outcome B) : outcome B :=
  match m with
  | Returns a => f a
  | Raises e => Raises e
  end.

Fixpoint map_outcome {A B : Type} (f : A -> outcome B) (l : list A)
  : outcome (list B) :=
  match l with
  | [] => Returns []
  | x :: r => bind (f x) (fun y => bind (map_outcome f r) (fun ys => Returns (y :: ys)))
  end.

(** ** overlap.py: interval helpers *)

(** Tuple comparison of [(start, end)] pairs. *)
Definition interval_leb (a b : Z * Z) : bool :=
  (a.1 <? b.1) || ((a.1 =? b.1) && (a.2 <=? b.2)).

(** The loop of [_merge_intervals]; [cur] is [merged[-1]]. *)
Fixpoint merge_loop (cur : Z * Z) (rest : list (Z * Z)) : list (Z * Z) :=
  match rest with
  | [] => [cur]
  | (start, end_) :: r =>
      if start <=? cur.2 then merge_loop (cur.1, Z.max cur.2 end_) r
      else cur :: merge_loop (start, end_) r
  end.

Definition _merge_intervals (intervals : list (Z * Z)) : list (Z * Z) :=
  match Py.sorted interval_leb intervals with
  | [] => []
  | first :: rest => merge_loop first rest
  end.

Definition _total_covered (merged : list (Z * Z)) : Z :=
  Py.sum (map (fun iv => iv.2 - iv.1) merged).

(** [while j < len(b) and b[j][1] <= a_start: j += 1], on [b[j:]]. *)
Fixpoint skip_ended (b : list (Z * Z)) (a_start : Z) : list (Z * Z) :=
  match b with
  | [] => []
  | (b_start, b_end) :: r =>
      if b_end <=? a_start then skip_ended r a_start else b
  end.

(** [while k < len(b) and b[k][0] < a_end: ...; k += 1], on [b[k:]]. *)
Fixpoint sweep (b : list (Z * Z)) (a_start a_end : Z) : Z :=
  match b with
  | [] => 0
  | (b_start, b_end) :: r =>
      if b_start <? a_end then
        let overlap_start := Z.max a_start b_start in
        let overlap_end := Z.min a_end b_end in
        (if overlap_start <? overlap_end then overlap_end - overlap_start else 0)
        + sweep r a_start a_end
      else 0
  end.

(** The [for a_start, a_end in a] loop; [b] is [b[j:]]. *)
Fixpoint intersection_loop (a b : list (Z * Z)) : Z :=
  match a with
  | [] => 0
  | (a_start, a_end) :: a' =>
      let b' := skip_ended b a_start in
      sweep b' a_start a_end + intersection_loop a' b'
  end.

Definition _intersection_coverage (a b : list (Z * Z)) : Z :=
  match a, b with
  | [], _ | _, [] => 0
  | _, _ => intersection_loop a b
  end.

(** ** overlap.py: compute/communication overlap *)

(** The nanosecond quantities [overlap_analysis] computes before it
    formats them. *)
Record OverlapNs := {
  compute_intervals : list (Z * Z);
  nccl_intervals : list (Z * Z);
  total_ns : Z;
  compute_ns : Z;
  nccl_ns : Z;
  overlap_ns : Z;
  compute_only_ns : Z;
  nccl_only_ns : Z;
  idle_ns : Z }.

Definition is_nccl (k : KernelRow) : bool :=
  Py.startswith "nccl_" (classify_kernel (k_name k)).

Definition overlap_quantities (kernels : list KernelRow) : OverlapNs :=
  let interval k := (k_start k, k_end k) in
  let compute_intervals := map interval (List.filter (fun k => negb (is_nccl k)) kernels) in
  let nccl_intervals := map interval (List.filter is_nccl kernels) in
  let span_start := Py.min_of 0 (map k_start kernels) in
  let span_end := Py.max_of 0 (map k_end kernels) in
  let total_ns := span_end - span_start in
  let compute_merged := _merge_intervals compute_intervals in
  let nccl_merged := _merge_intervals nccl_intervals in
  let compute_ns := _total_covered compute_merged in
  let nccl_ns := _total_covered nccl_merged in
  let overlap_ns := _intersection_coverage compute_merged nccl_merged in
  let compute_only_ns := compute_ns - overlap_ns in
  let nccl_only_ns := nccl_ns - overlap_ns in
  let idle_ns := total_ns - compute_only_ns - nccl_only_ns - overlap_ns in
  {| compute_intervals := compute_intervals; nccl_intervals := nccl_intervals;
     total_ns := total_ns; compute_ns := compute_ns; nccl_ns := nccl_ns;
     overlap_ns := overlap_ns; compute_only_ns := compute_only_ns;
     nccl_only_ns := nccl_only_ns; idle_ns := idle_ns |}.

(** The [idle] figure as reported: [max(0, idle_ns)]. *)
Definition idle_reported (q : OverlapNs) : Z := Z.max 0 (idle_ns q).

Record OverlapReport := {
  compute_only_ms : Q;
  nccl_only_ms : Q;
  overlap_ms : Q;
  idle_ms : Q;
  total_ms : Q;
  overlap_pct : Q;
  compute_kernels : nat;
  nccl_kernels : nat }.

(** [overlap_analysis] returns either [{"error": ...}] or the report. *)
Inductive OverlapResult :=
| OverlapError (msg : string)
| OverlapOk (report : OverlapReport).

(** The [NVTX_EVENTS] query of one thread ([build_nvtx_tree]). *)
Definition nvtx_rows_of (prof : Profile) (tid : Z) (window : Z * Z)
  : list NvtxRow :=
  Py.sorted_by_key n_start
    (List.filter
       (fun n => match n_text n with Some _ => true | None => false end &&
                 (n_start n <? n_end n) && (n_globalTid n =? tid) &&
                 (window.1 <=? n_start n) && (n_start n <=? window.2))
       (NVTX_EVENTS prof)).

(** SQLite's [text LIKE pattern]: [%] matches any run of characters,
    [_] any one character, letters match case-insensitively. *)
Fixpoint sql_like (pattern : string) : string -> bool :=
  match pattern with
  | EmptyString =>
      fun text => match text with EmptyString => true | _ => false end
  | String c p =>
      if Ascii.eqb c "%" then
        fix any (text : string) : bool :=
          sql_like p text ||
          match text with EmptyString => false | String _ t => any t end
      else if Ascii.eqb c "_" then
        fun text => match text with String _ t => sql_like p t | EmptyString => false end
      else
        fun text =>
          match text with
          | String d t => Ascii.eqb (Py.lower_char c) (Py.lower_char d) && sql_like p t
          | EmptyString => false
          end
  end.

(** The marker query of [detect_iterations] on the primary thread. *)
Definition marker_rows (prof : Profile) (marker : string) (tid : Z)
           (window : Z * Z) : list NvtxRow :=
  Py.sorted_by_key n_start
    (List.filter
       (fun n => match n_text n with
                 | Some text => sql_like ("%" ++ marker ++ "%") text
                 | None => false
                 end &&
                 (n_start n <? n_end n) && (n_globalTid n =? tid) &&
                 (window.1 <=? n_start n) && (n_start n <=? window.2))
       (NVTX_EVENTS prof)).

(** The launch-to-kernel correlation loop shared by the projector, the
    tree builder and iteration detection: the kernels of the runtime
    calls inside [[cpu_start, cpu_end]], scanning [rt_rows] up to the
    first call that starts after [cpu_end]. *)
Fixpoint correlated (kmap : gmap Z KernelInfo) (rt_rows : list RuntimeRow)
         (cpu_start cpu_end : Z) : list KernelInfo :=
  match rt_rows with
  | [] => []
  | rt :: rest =>
      if cpu_end <? r_start rt then []
      else
        let more := correlated kmap rest cpu_start cpu_end in
        if (cpu_start <=? r_start rt) && (r_end rt <=? cpu_end) then
          match kmap !! r_correlationId rt with
          | Some k => k :: more
          | None => more
          end
        else more
  end.

(** ** overlap.py: reports *)

Record NcclRow := {
  nb_type : string;
  nb_count : nat;
  nb_total_ms : Q;
  nb_avg_ms : Q;
  nb_min_ms : Q;
  nb_max_ms : Q;
  nb_pct : Q }.

(** [by_type[ctype].append(dur_ns)] on a [defaultdict(list)], keys in
    insertion order. *)
Fixpoint by_type_append (by_type : list (string * list Z)) (ctype : string)
         (dur_ns : Z) : list (string * list Z) :=
  match by_type with
  | [] => [(ctype, [dur_ns])]
  | (key, durs) :: rest =>
      if String.eqb key ctype then (key, durs ++ [dur_ns]) :: rest
      else (key, durs) :: by_type_append rest ctype dur_ns
  end.

Record IterationRow := {
  it_iteration : nat;
  it_gpu_start_s : Q;
  it_gpu_end_s : Q;
  it_duration_ms : Q;
  it_compute_ms : Q;
  it_kernel_count : nat;
  it_nccl_count : nat }.

(** The "non-overlapping (top-level only)" filter of
    [detect_iterations]; [last_end] starts at [0]. *)
Fixpoint keep_top_level (last_end : Z) (pri_nvtx : list NvtxRow) : list NvtxRow :=
  match pri_nvtx with
  | [] => []
  | n :: rest =>
      if last_end <=? n_start n then n :: keep_top_level (n_end n) rest
      else keep_top_level last_end rest
  end.

(** Python's [enumerate]. *)
Fixpoint enumerate_from {A : Type} (i : nat) (l : list A) : list (nat * A) :=
  match l with
  | [] => []
  | x :: r => (i, x) :: enumerate_from (S i) r
  end.

(** ** projection.py *)

(** [while stk and stk[-1] <= start: stk.pop()]; the top of the stack is
    the last element. *)
Fixpoint pop_closed (stk : list Z) (start : Z) : list Z :=
  match stk with
  | [] => []
  | x :: r =>
      match pop_closed r start with
      | [] => if x <=? start then [] else [x]
      | r' => x :: r'
      end
  end.

(** [_compute_depth(stacks, tid, start, end)]: the updated [stacks] and
    the returned depth. *)
Definition _compute_depth (stacks : gmap Z (list Z)) (tid start end_ : Z)
  : gmap Z (list Z) * nat :=
  let stk := default [] (stacks !! tid) in
  let stk := pop_closed stk start in
  let depth := length stk in
  let stk := Py.sorted (fun x y => y <=? x) (stk ++ [end_]) in
  (<[tid := stk]> stacks, depth).

Record ProjectedRow := {
  p_name : string; p_start : Z; p_end : Z; p_depth : nat; p_projected : bool }.

(** One turn of the [for n in nvtx] loop of [project_nvtx] for a scope
    with a non-empty text: the new [stacks], the depth of the scope and
    the row appended to [results], if any. *)
Definition project_scope (kmap : gmap Z KernelInfo) (rt_idx : gmap Z (list RuntimeRow))
           (trim : Z * Z) (stacks : gmap Z (list Z)) (text : string) (n : NvtxRow)
  : gmap Z (list Z) * nat * option ProjectedRow :=
  let tid := n_globalTid n in
  let cpu_start := n_start n in
  let cpu_end := n_end n in
  let (stacks, depth) := _compute_depth stacks tid cpu_start cpu_end in
  let ks := correlated kmap (default [] (rt_idx !! tid)) cpu_start cpu_end in
  match ks with
  | _ :: _ =>
      let ps := Py.min_of 0 (map ki_start ks) in
      let pe := Py.max_of 0 (map ki_end ks) in
      (stacks, depth,
       if (trim.1 <=? pe) && (ps <=? trim.2) then
         Some {| p_name := text; p_start := ps; p_end := pe; p_depth := depth;
                 p_projected := true |}
       else None)
  | [] =>
      (stacks, depth,
       if (trim.1 <=? cpu_end) && (cpu_start <=? trim.2) then
         Some {| p_name := text; p_start := cpu_start; p_end := cpu_end;
                 p_depth := depth; p_projected := false |}
       else None)
  end.

(** Truthiness of [n["text"]]. *)
Definition nonempty_text (n : NvtxRow) : option string :=
  match n_text n with
  | Some EmptyString | None => None
  | Some text => Some text
  end.

(** The loop of [project_nvtx]: for every scope it processes, in order,
    the scope, its depth and the row it appended (if any). *)
Fixpoint project_loop (kmap : gmap Z KernelInfo) (rt_idx : gmap Z (list RuntimeRow))
         (trim : Z * Z) (stacks : gmap Z (list Z)) (nvtx : list NvtxRow)
  : list (NvtxRow * nat * option ProjectedRow) :=
  match nvtx with
  | [] => []
  | n :: rest =>
      match nonempty_text n with
      | None => project_loop kmap rt_idx trim stacks rest
      | Some text =>
          let '(stacks', depth, row) := project_scope kmap rt_idx trim stacks text n in
          (n, depth, row) :: project_loop kmap rt_idx trim stacks' rest
      end
  end.

Definition project_nvtx (prof : Profile) (device : Z) (trim : Z * Z) (pad : Z)
  : list ProjectedRow :=
  let kmap := kernel_map prof device in
  if decide (kmap = ∅) then []
  else
    let threads := gpu_threads prof device in
    let rt_idx := runtime_index prof threads (trim.1 - pad, trim.2 + 2000000000) in
    let nvtx := nvtx_events prof threads (trim.1 - pad, trim.2) in
    omap (fun item : NvtxRow * nat * option ProjectedRow => item.2)
         (project_loop kmap rt_idx trim ∅ nvtx).

(** ** tree.py: nodes *)

(** A tree node: a kernel leaf (the fields of its [kernel_map] entry;
    [children] is always empty) or an NVTX scope. *)
Inductive Node :=
| Kernel (k : KernelInfo)
| Nvtx (name : string) (start end_ : Z) (children : list Node).

Definition node_start (n : Node) : Z :=
  match n with
  | Kernel k => ki_start k
  | Nvtx _ start _ _ => start
  end.

Definition is_kernel (n : Node) : bool :=
  match n with Kernel _ => true | Nvtx _ _ _ _ => false end.

Definition is_nvtx (n : Node) : bool := negb (is_kernel n).

(** An element of [entries] in [build_nvtx_tree]. *)
Record Entry := {
  e_name : string;
  e_start : Z;       (* projected GPU bounds *)
  e_end : Z;
  e_cpu_start : Z;
  e_cpu_end : Z;
  e_kernels : list KernelInfo }.

(** The body of the [for n in nvtx_rows] loop: the appended entry. *)
Definition entry_of (kmap : gmap Z KernelInfo) (rt_rows : list RuntimeRow)
           (trim : Z * Z) (n : NvtxRow) : option Entry :=
  match nonempty_text n with
  | None => None
  | Some text =>
      let child_kernels := correlated kmap rt_rows (n_start n) (n_end n) in
      match child_kernels with
      | [] => None
      | _ =>
          let gpu_start := Py.min_of 0 (map ki_start child_kernels) in
          let gpu_end := Py.max_of 0 (map ki_end child_kernels) in
          if (gpu_end <? trim.1) || (trim.2 <? gpu_start) then None
          else Some {| e_name := text; e_start := gpu_start; e_end := gpu_end;
                       e_cpu_start := n_start n; e_cpu_end := n_end n;
                       e_kernels := child_kernels |}
      end
  end.

(** *** Nesting

    Nodes are shared between [roots] and the entries on the stack
    ([entry["_node"]]).  The store is the forest [roots]; a reference to
    a node is its path of child indices from [roots].  Appending to a
    children list never moves an existing child, so paths stay valid. *)

(** The children list the path [path] designates: [roots] itself for the
    empty path. *)
Fixpoint children_at (path : list nat) (forest : list Node) : list Node :=
  match path with
  | [] => forest
  | i :: p =>
      match forest !! i with
      | Some (Nvtx _ _ _ children) => children_at p children
      | _ => []
      end
  end.

(** [children.append(node)] on the list designated by [path]. *)
Fixpoint append_at (path : list nat) (node : Node) (forest : list Node)
  : list Node :=
  match path with
  | [] => forest ++ [node]
  | i :: p =>
      alter (fun parent =>
               match parent with
               | Nvtx name start end_ children =>
                   Nvtx name start end_ (append_at p node children)
               | Kernel k => Kernel k
               end) i forest
  end.

(** [while stack and stack[-1]["cpu_end"] <= entry["cpu_start"]:
    stack.pop()]; the top of the stack is the head. *)
Fixpoint pop_ended (stack : list (Entry * list nat)) (cpu_start : Z)
  : list (Entry * list nat) :=
  match stack with
  | [] => []
  | (top, path) :: below =>
      if e_cpu_end top <=? cpu_start then pop_ended below cpu_start else stack
  end.

(** One turn of the [for entry in entries] loop.  A stack element is an
    entry with the path of its node; the list a new node is appended to
    is the children of the top's node, or [roots] (the empty path). *)
Definition nest_step (st : list Node * list (Entry * list nat)) (entry : Entry)
  : list Node * list (Entry * list nat) :=
  let (roots, stack) := st in
  let stack := pop_ended stack (e_cpu_start entry) in
  let node := Nvtx (e_name entry) (e_start entry) (e_end entry)
                   (map Kernel (e_kernels entry)) in
  let parent := match stack with
                | (_, path) :: _ => path
                | [] => []
                end in
  let index := length (children_at parent roots) in
  (append_at parent node roots, (entry, parent ++ [index]) :: stack).

Definition nest (entries : list Entry) : list Node :=
  (fold_left nest_step entries ([], [])).1.

(** *** Deduplication *)

(** [_collect_kernel_starts(node, starts)], as the set of start times it
    adds to [starts]. *)
Fixpoint collect_kernel_starts (node : Node) : gset Z :=
  match node with
  | Kernel _ => ∅
  | Nvtx _ _ _ children =>
      ⋃ (map (fun child =>
                match child with
                | Kernel k => {[ki_start k]}
                | Nvtx _ _ _ _ => collect_kernel_starts child
                end) children)
  end.

(** [child_kernel_starts] of [_deduplicate_kernels]. *)
Definition claimed_by_children (children : list Node) : gset Z :=
  ⋃ (map (fun child => if is_nvtx child then collect_kernel_starts child else ∅)
         children).

Definition keeps (claimed : gset Z) (c : Node) : bool :=
  match c with
  | Kernel k => bool_decide (ki_start k ∉ claimed)
  | Nvtx _ _ _ _ => true
  end.

(** [_deduplicate_kernels] on one node: filter the children, then
    deduplicate the children that are left. *)
Fixpoint dedup_node (node : Node) : Node :=
  match node with
  | Kernel k => Kernel k
  | Nvtx name start end_ children =>
      let claimed := claimed_by_children children in
      Nvtx name start end_
           ((fix each (cs : list Node) : list Node :=
               match cs with
               | [] => []
               | c :: rest =>
                   if keeps claimed c then dedup_node c :: each rest
                   else each rest
               end) children)
  end.

Definition _deduplicate_kernels (nodes : list Node) : list Node :=
  map dedup_node nodes.

(** [_sort_children] on one node.  The source sorts the children and
    then descends into them; descending does not change a child's
    [start], so the children are sorted here after the descent. *)
Fixpoint sort_node (node : Node) : Node :=
  match node with
  | Kernel k => Kernel k
  | Nvtx name start end_ children =>
      Nvtx name start end_ (Py.sorted_by_key node_start (map sort_node children))
  end.

Definition _sort_children (nodes : list Node) : list Node := map sort_node nodes.

(** ** ai/analyzer.py *)

(** The analyzer reads trees "converted via [to_json()]": of a node it
    uses [type], [name], [duration_ms] and [children]. *)
Inductive JNode :=
| JKernel (name : string) (duration_ms : Q)
| JNvtx (name : string) (duration_ms : Q) (children : list JNode).

Definition j_is_kernel (n : JNode) : bool :=
  match n with JKernel _ _ => true | JNvtx _ _ _ => false end.

Definition j_is_nvtx (n : JNode) : bool := negb (j_is_kernel n).

Definition j_name (n : JNode) : string :=
  match n with JKernel name _ => name | JNvtx name _ _ => name end.

Definition j_children (n : JNode) : list JNode :=
  match n with JKernel _ _ => [] | JNvtx _ _ children => children end.

Record Target := {
  t_name : string;
  t_depth : nat;
  t_duration_ms : Q;
  t_kernel_count : nat;
  t_kernels : list string;
  t_note : option string }.

(** [_walk] on one node: the targets it appends, in order.  The
    recursive call runs over all children; kernel children are skipped
    by the [type] test, which is the source's [_walk(nvtx_children)]. *)
Fixpoint walk_node (max_kernels : nat) (depth : nat) (node : JNode) : list Target :=
  match node with
  | JKernel _ _ => []
  | JNvtx name duration_ms children =>
      let nvtx_children := List.filter j_is_nvtx children in
      let kern_children := List.filter j_is_kernel children in
      let target note :=
        {| t_name := name; t_depth := depth; t_duration_ms := duration_ms;
           t_kernel_count := length kern_children;
           t_kernels := map j_name kern_children;
           t_note := note |} in
      (match nvtx_children with
       | [] => if (max_kernels <? length kern_children)%nat then [target None] else []
       | _ => []
       end)
      ++ (match nvtx_children with
          | [] => []
          | _ => if (max_kernels <? length kern_children)%nat
                 then [target (Some "mixed: has both NVTX sub-ranges and uncovered kernels")]
                 else []
          end)
      ++ flat_map (walk_node max_kernels (S depth)) children
  end.

Definition _walk (nodes : list JNode) (max_kernels depth : nat) : list Target :=
  flat_map (walk_node max_kernels depth) nodes.

Definition find_refinement_targets (tree_roots : list JNode) (max_kernels : nat)
  : list Target :=
  Py.sorted_by_key (fun t => - Z.of_nat (t_kernel_count t))
                   (_walk tree_roots max_kernels 0).

Record Stats := {
  st_total_nvtx : nat;
  st_total_kernels : nat;
  st_converged : nat;
  st_unconverged : nat;
  st_mapped_kernels : nat;
  st_unmapped_kernels : nat }.

(** [_convergence_walk] on one node, threading [stats].  As in
    [walk_node], the recursive call runs over all children and skips the
    kernel children by the [type] test. *)
Fixpoint convergence_node (node : JNode) (stats : Stats) : Stats :=
  match node with
  | JKernel _ _ => stats
  | JNvtx _ _ children =>
      let nvtx_children := List.filter j_is_nvtx children in
      let kern_children := List.filter j_is_kernel children in
      let stats :=
        {| st_total_nvtx := S (st_total_nvtx stats);
           st_total_kernels := st_total_kernels stats;
           st_converged := st_converged stats;
           st_unconverged := st_unconverged stats;
           st_mapped_kernels := st_mapped_kernels stats;
           st_unmapped_kernels := st_unmapped_kernels stats |} in
      let stats :=
        match nvtx_children with
        | [] =>
            if (length kern_children =? 1)%nat then
              {| st_total_nvtx := st_total_nvtx stats;
                 st_total_kernels := st_total_kernels stats;
                 st_converged := S (st_converged stats);
                 st_unconverged := st_unconverged stats;
                 st_mapped_kernels := S (st_mapped_kernels stats);
                 st_unmapped_kernels := st_unmapped_kernels stats |}
            else if (1 <? length kern_children)%nat then
              {| st_total_nvtx := st_total_nvtx stats;
                 st_total_kernels := st_total_kernels stats;
                 st_converged := st_converged stats;
                 st_unconverged := S (st_unconverged stats);
                 st_mapped_kernels := st_mapped_kernels stats;
                 st_unmapped_kernels :=
                   (st_unmapped_kernels stats + length kern_children)%nat |}
            else stats
        | _ => stats
        end in
      fold_left (fun stats child => convergence_node child stats) children stats
  end.

Definition _convergence_walk (nodes : list JNode) (stats : Stats) : Stats :=
  fold_left (fun stats node => convergence_node node stats) nodes stats.

Record ConvergenceReport := {
  total_nvtx : nat;
  total_kernels : nat;
  converged_nvtx : nat;
  unconverged_nvtx : nat;
  coverage_pct : Q;
  mapped_kernels : nat;
  unmapped_kernels : nat }.

Section Engine.

(** [py_round q ndigits]: the float [round(x, ndigits)] where [x] is
    the float quotient whose exact value is [q]. *)
Variable py_round : Q -> nat -> Q.

(** [top_launcher prof device]: the row [fetchone()] yields for the
    ranking query of [_find_primary_thread],
    [SELECT r.globalTid, COUNT( * ) ... GROUP BY r.globalTid ORDER BY cnt
    DESC LIMIT 1], or [None] when the query has no row.  The query
    names no order among threads with equal counts; [ranking_query]
    below computes the row from the tables. *)
Variable top_launcher : Profile -> Z -> option (Z * nat).

(** tree.py *)
Definition _find_primary_thread (prof : Profile) (device : Z) : Z :=
  match top_launcher prof device with
  | Some (tid, _) => tid
  | None => 0
  end.

Definition ns_to_ms (ns : Z) (ndigits : nat) : Q :=
  py_round (inject_Z ns / 1000000) ndigits.

Definition overlap_analysis (prof : Profile) (device : Z)
           (trim : option (Z * Z)) : OverlapResult :=
  let kernels := kernels prof device trim in
  match kernels with
  | [] => OverlapError "no kernels"
  | _ =>
      let q := overlap_quantities kernels in
      OverlapOk
        {| compute_only_ms := ns_to_ms (compute_only_ns q) 2;
           nccl_only_ms := ns_to_ms (nccl_only_ns q) 2;
           overlap_ms := ns_to_ms (overlap_ns q) 2;
           idle_ms := ns_to_ms (idle_reported q) 2;
           total_ms := ns_to_ms (total_ns q) 2;
           overlap_pct :=
             if nccl_ns q =? 0 then 0%Q
             else py_round (inject_Z (100 * overlap_ns q) / inject_Z (nccl_ns q)) 1;
           compute_kernels := length (compute_intervals q);
           nccl_kernels := length (nccl_intervals q) |}
  end.

Definition nccl_breakdown (prof : Profile) (device : Z)
           (trim : option (Z * Z)) : outcome (list NcclRow) :=
  let kernels := kernels prof device trim in
  let nccl_kernels := List.filter is_nccl kernels in
  match nccl_kernels with
  | [] => Returns []
  | _ =>
      let total_nccl_ns := Py.sum (map (fun k => k_end k - k_start k) nccl_kernels) in
      let by_type :=
        fold_left
          (fun by_type k =>
             by_type_append by_type (classify_kernel (k_name k))
                            (k_end k - k_start k))
          nccl_kernels [] in
      map_outcome
        (fun item : string * list Z =>
           let (ctype, durs) := item in
           let total := Py.sum durs in
           if total_nccl_ns =? 0 then Raises ZeroDivisionError
           else
             Returns
               {| nb_type := Py.remove_all "nccl_" ctype;
                  nb_count := length durs;
                  nb_total_ms := ns_to_ms total 2;
                  nb_avg_ms :=
                    py_round (inject_Z total / inject_Z (Z.of_nat (length durs))
                              / 1000000) 3;
                  nb_min_ms := ns_to_ms (Py.min_of 0 durs) 3;
                  nb_max_ms := ns_to_ms (Py.max_of 0 durs) 3;
                  nb_pct :=
                    py_round (inject_Z (100 * total) / inject_Z total_nccl_ns) 1 |})
        (Py.sorted_by_key (fun item : string * list Z => - Py.sum item.2) by_type)
  end.

(** The body of the [for i, it in enumerate(iterations)] loop: the
    appended row, or [None] for an iteration without kernels. *)
Definition iteration_row (kmap : gmap Z KernelInfo) (rt_all : list RuntimeRow)
           (i : nat) (it : NvtxRow) : option IterationRow :=
  let kernels_in_iter := correlated kmap rt_all (n_start it) (n_end it) in
  match kernels_in_iter with
  | [] => None
  | _ =>
      let gpu_start := Py.min_of 0 (map ki_start kernels_in_iter) in
      let gpu_end := Py.max_of 0 (map ki_end kernels_in_iter) in
      let compute_ns := Py.sum (map (fun k => ki_end k - ki_start k) kernels_in_iter) in
      let nccl_count :=
        length (List.filter (fun k => Py.str_in "nccl" (Py.lower (ki_name k)))
                            kernels_in_iter) in
      Some {| it_iteration := i;
              it_gpu_start_s := py_round (inject_Z gpu_start / 1000000000) 4;
              it_gpu_end_s := py_round (inject_Z gpu_end / 1000000000) 4;
              it_duration_ms := ns_to_ms (gpu_end - gpu_start) 2;
              it_compute_ms := ns_to_ms compute_ns 2;
              it_kernel_count := length kernels_in_iter;
              it_nccl_count := nccl_count |}
  end.

(** The marker scopes [detect_iterations] keeps.  (The function also
    issues the same query over all launching threads; its result is
    not used.) *)
Definition kept_markers (prof : Profile) (device : Z) (trim : option (Z * Z))
           (marker : string) : list NvtxRow :=
  let pad := 5000000000 in
  let t := match trim with Some t => t | None => time_range prof end in
  let primary_tid := _find_primary_thread prof device in
  keep_top_level 0 (marker_rows prof marker primary_tid (t.1 - pad, t.2)).

Definition detect_iterations (prof : Profile) (device : Z)
           (trim : option (Z * Z)) (marker : string) : list IterationRow :=
  let kmap := kernel_map prof device in
  if decide (kmap = ∅) then []
  else
    let primary_tid := _find_primary_thread prof device in
    let iterations := kept_markers prof device trim marker in
    match iterations with
    | [] => []
    | _ =>
        let rt_all :=
          Py.sorted_by_key r_start
            (List.filter (fun r => r_globalTid r =? primary_tid) (RUNTIME prof)) in
        omap (fun item : nat * NvtxRow => iteration_row kmap rt_all item.1 item.2)
             (enumerate_from 0 iterations)
    end.

(** ai/analyzer.py *)
Definition convergence_report (tree_roots : list JNode) : ConvergenceReport :=
  let stats :=
    _convergence_walk tree_roots
      {| st_total_nvtx := 0; st_total_kernels := 0; st_converged := 0;
         st_unconverged := 0; st_mapped_kernels := 0; st_unmapped_kernels := 0 |} in
  let total := (st_mapped_kernels stats + st_unmapped_kernels stats)%nat in
  {| total_nvtx := st_total_nvtx stats;
     total_kernels := total;
     converged_nvtx := st_converged stats;
     unconverged_nvtx := st_unconverged stats;
     coverage_pct :=
       if (total =? 0)%nat then 0%Q
       else py_round (inject_Z (100 * Z.of_nat (st_mapped_kernels stats))
                      / inject_Z (Z.of_nat total)) 1;
     mapped_kernels := st_mapped_kernels stats;
     unmapped_kernels := st_unmapped_kernels stats |}.

(** tree.py *)
Definition build_nvtx_tree (prof : Profile) (device : Z) (trim : Z * Z)
           (pad : Z) : list Node :=
  let kmap := kernel_map prof device in
  if decide (kmap = ∅) then []
  else
    let primary_tid := _find_primary_thread prof device in
    if primary_tid =? 0 then []
    else
      let rt_rows :=
        runtime_rows prof primary_tid (trim.1 - pad, trim.2 + 2000000000) in
      let nvtx_rows := nvtx_rows_of prof primary_tid (trim.1 - pad, trim.2) in
      let entries := omap (entry_of kmap rt_rows trim) nvtx_rows in
      _sort_children (_deduplicate_kernels (nest entries)).

End Engine.

(** ** Vocabulary of the statements *)

(** Well-formed interval list: every [end >= start] (the data model's
    [TimeInterval]). *)
Definition wf_iv (iv : Z * Z) : Prop := iv.1 <= iv.2.

(** Sorted by start. *)
Fixpoint start_sorted (l : list (Z * Z)) : Prop :=
  match l with
  | [] => True
  | iv :: r => Forall (fun iv' => iv.1 <= iv'.1) r /\ start_sorted r
  end.

(** Maximal non-overlapping runs: well-formed, in increasing order, with
    a gap between consecutive runs. *)
Fixpoint separated (l : list (Z * Z)) : Prop :=
  match l with
  | [] => True
  | iv :: r => wf_iv iv /\ Forall (fun iv' => iv.2 < iv'.1) r /\ separated r
  end.

(** Length of the part of [iv] inside the window [[x, y]]. *)
Definition clip (x y : Z) (iv : Z * Z) : Z :=
  Z.max 0 (Z.min iv.2 y - Z.max iv.1 x).

(** Duration of the window [[x, y]] covered by the intervals of [b]. *)
Definition cov (b : list (Z * Z)) (x y : Z) : Z := Py.sum (map (clip x y) b).

(** Duration covered by both [a] and [b]: for each run of [a], the part
    of it that [b] covers. *)
Definition cov_both (a b : list (Z * Z)) : Z :=
  Py.sum (map (fun iv => cov b iv.1 iv.2) a).

Definition within (lo hi : Z) (iv : Z * Z) : Prop := lo <= iv.1 /\ iv.2 <= hi.


(** [Occurs p s]: [p] is a contiguous substring of [s]. *)
Definition Occurs (p s : string) : Prop :=
  exists pre post : string, s = (pre ++ p ++ post)%string.

(** Case-insensitive containment. *)
Definition OccursCI (p s : string) : Prop := Occurs (Py.lower p) (Py.lower s).

(** The collective types in the priority order of the specification. *)
Definition collective_priority : list string :=
  [ "AllGather"; "ReduceScatter"; "AllReduce"; "Broadcast"; "SendRecv";
    "Reduce" ]%string.

(** The device has no kernel row. *)
Definition no_kernels_on (prof : Profile) (device : Z) : Prop :=
  Forall (fun k => k_deviceId k <> device) (KERNEL prof).


(** Decimal rounding of an exact rational, ties to even: what [round]
    computes when the quotient is exactly representable.  It serves as
    an instance of the parameter [py_round]. *)
Definition round_half_even (q : Q) (ndigits : nat) : Q :=
  let scale := (10 ^ Z.of_nat ndigits)%Z in
  let scaled := (q * inject_Z scale)%Q in
  let fl := Qfloor scaled in
  let n := match (scaled - inject_Z fl ?= 1 # 2)%Q with
           | Lt => fl
           | Gt => fl + 1
           | Eq => if Z.even fl then fl else fl + 1
           end in
  (inject_Z n / inject_Z scale)%Q.

(** Sorted by ascending key. *)
Fixpoint key_sorted {A : Type} (key : A -> Z) (l : list A) : Prop :=
  match l with
  | [] => True
  | x :: r => Forall (fun y => key x <= key y) r /\ key_sorted key r
  end.

(** [scope_at nodes depth n]: the scope [n] occurs in the forest [nodes],
    [depth] levels below its roots. *)
Inductive scope_at : list JNode -> nat -> JNode -> Prop :=
| scope_root nodes n :
    n ∈ nodes -> j_is_nvtx n = true -> scope_at nodes 0 n
| scope_child nodes name duration_ms children depth n :
    JNvtx name duration_ms children ∈ nodes ->
    scope_at children depth n ->
    scope_at nodes (S depth) n.

Definition kern_children (n : JNode) : list JNode :=
  List.filter j_is_kernel (j_children n).

Definition nvtx_children (n : JNode) : list JNode :=
  List.filter j_is_nvtx (j_children n).

(** The target describes the scope [n] found at [depth]. *)
Definition describes (t : Target) (depth : nat) (n : JNode) : Prop :=
  t_name t = j_name n /\ t_depth t = depth /\
  t_kernel_count t = length (kern_children n) /\
  t_kernels t = map j_name (kern_children n) /\
  (t_note t = None <-> nvtx_children n = []).

(** Sorted by descending kernel count. *)
Fixpoint descending_counts (l : list Target) : Prop :=
  match l with
  | [] => True
  | t :: r =>
      Forall (fun t' => (t_kernel_count t' <= t_kernel_count t)%nat) r /\
      descending_counts r
  end.

(** The count the ranking query of [_find_primary_thread] computes for
    a thread, its [COUNT( * )]: the rows of the join of runtime calls and
    kernels of the device that belong to the thread.  A call is counted
    once for every kernel of the device that carries its correlation id. *)
Definition launch_count (prof : Profile) (device tid : Z) : nat :=
  length (List.filter (fun r => r_globalTid r =? tid) (launches_on prof device)).

(** [ranking_answer prof device row]: [row] is a possible first row of
    the ranking query ([GROUP BY r.globalTid ORDER BY cnt DESC LIMIT 1]):
    no row when there is no correlated launch, otherwise a thread with
    its count, no thread having a larger one. *)
Definition ranking_answer (prof : Profile) (device : Z) (row : option (Z * nat))
  : Prop :=
  match row with
  | None => launches_on prof device = []
  | Some (tid, cnt) =>
      tid ∈ map r_globalTid (launches_on prof device) /\
      cnt = launch_count prof device tid /\
      Forall (fun r => (launch_count prof device (r_globalTid r) <= cnt)%nat)
             (launches_on prof device)
  end.

(** The groups of the ranking query, [GROUP BY r.globalTid] with
    [COUNT( * )]: one row per thread of the join, with the number of its
    join rows. *)
Definition ranking_groups (prof : Profile) (device : Z) : list (Z * nat) :=
  map (fun tid => (tid, launch_count prof device tid))
      (remove_dups (map r_globalTid (launches_on prof device))).

(** The ranking query of [_find_primary_thread],
    [SELECT r.globalTid, COUNT( * ) as cnt ... GROUP BY r.globalTid
    ORDER BY cnt DESC LIMIT 1] with [fetchone()]: the first of the groups
    ordered by descending count.  [tie_key] orders the threads as the
    store produces their groups; the query leaves that order open, the
    descending sort keeps it among equal counts, and nothing is assumed
    of it. *)
Definition ranking_query (tie_key : Z -> Z) (prof : Profile) (device : Z)
  : option (Z * nat) :=
  head (Py.sorted_by_key (fun g : Z * nat => - Z.of_nat g.2)
          (Py.sorted_by_key (fun g : Z * nat => tie_key g.1)
             (ranking_groups prof device))).

(** A runtime call is a launch on the device when some kernel of the
    device carries its correlation id. *)
Definition launches_kernel_on (prof : Profile) (device : Z) (r : RuntimeRow) : bool :=
  existsb (fun k => (r_correlationId r =? k_correlationId k) &&
                    (k_deviceId k =? device))
          (KERNEL prof).

(** The launch calls of a thread on the device: each call once, however
    many kernels carry its correlation id. *)
Definition launch_calls (prof : Profile) (device tid : Z) : nat :=
  length (List.filter (fun r => (r_globalTid r =? tid) &&
                                launches_kernel_on prof device r)
                      (RUNTIME prof)).

(** No runtime call is correlated to two kernel rows of the device. *)
Definition one_kernel_per_call (prof : Profile) (device : Z) : Prop :=
  Forall (fun r =>
            let ks := List.filter
                        (fun k => (r_correlationId r =? k_correlationId k) &&
                                  (k_deviceId k =? device))
                        (KERNEL prof) in
            (length ks <= 1)%nat)
         (RUNTIME prof).

(** Each scope of the list starts at or after the end of the one before
    it, the first at or after [last_end]. *)
Fixpoint starts_after (last_end : Z) (l : list NvtxRow) : Prop :=
  match l with
  | [] => True
  | n :: r => last_end <= n_start n /\ starts_after (n_end n) r
  end.

(** The scopes [project_nvtx] processes, in order, each with the depth
    [_compute_depth] returned for it and the row appended for it. *)
Definition project_trace (prof : Profile) (device : Z) (trim : Z * Z) (pad : Z)
  : list (NvtxRow * nat * option ProjectedRow) :=
  let threads := gpu_threads prof device in
  project_loop (kernel_map prof device)
    (runtime_index prof threads (trim.1 - pad, trim.2 + 2000000000)) trim ∅
    (nvtx_events prof threads (trim.1 - pad, trim.2)).

(** The scope of a trace element. *)
Definition scope_of (item : NvtxRow * nat * option ProjectedRow) : NvtxRow :=
  item.1.1.

(** Processing order puts a scope before the scopes of its thread that
    it contains: of two scopes of one thread, the later one starts after
    the earlier has ended, or ends no later than it. *)
Fixpoint outer_first (l : list NvtxRow) : Prop :=
  match l with
  | [] => True
  | a :: r =>
      Forall (fun s => n_globalTid s = n_globalTid a ->
                       n_end a <= n_start s \/ n_end s <= n_end a) r /\
      outer_first r
  end.

(** The push/pop discipline of one thread's scopes: any two are disjoint
    or nested. *)
Definition stack_discipline (l : list NvtxRow) : Prop :=
  forall a b, a ∈ l -> b ∈ l -> n_globalTid a = n_globalTid b ->
    n_end a <= n_start b \/ n_end b <= n_start a \/
    (n_start a <= n_start b /\ n_end b <= n_end a) \/
    (n_start b <= n_start a /\ n_end a <= n_end b).

(** Number of scopes of [h] on a thread still open after time [s]. *)
Definition count_open (h : list NvtxRow) (tid s : Z) : nat :=
  length (List.filter (fun a => (n_globalTid a =? tid) && (s <? n_end a)) h).

Definition count_gt (stk : list Z) (s : Z) : nat :=
  length (List.filter (fun x => s <? x) stk).

Fixpoint desc_sorted (l : list Z) : Prop :=
  match l with
  | [] => True
  | x :: r => Forall (fun y => y <= x) r /\ desc_sorted r
  end.

(** [stacks] holds, for every thread, the end times of the scopes of
    the history [h] that can still be open at or after time [s0]. *)
Definition represents (stacks : gmap Z (list Z)) (h : list NvtxRow) (s0 : Z)
  : Prop :=
  forall tid,
    desc_sorted (default [] (stacks !! tid)) /\
    forall s, s0 <= s -> count_gt (default [] (stacks !! tid)) s = count_open h tid s.

(** Start times of the kernel leaves a scope lists directly. *)
Definition direct_starts (children : list Node) : gset Z :=
  ⋃ (map (fun c => match c with
                   | Kernel k => {[ki_start k]}
                   | Nvtx _ _ _ _ => ∅
                   end) children).

(** *** Kernel leaves and scope nodes

    A kernel leaf carries the fields of its [kernel_map] entry and
    nothing else: two leaves are leaves of the same kernel when they
    carry the same record. *)
#[global] Instance KernelInfo_eq_dec : EqDecision KernelInfo.
Proof. solve_decision. Defined.

#[global] Instance KernelInfo_countable : Countable KernelInfo.
Proof.
  refine (inj_countable'
            (fun k => (ki_start k, ki_end k, ki_stream k, ki_name k, ki_demangled k))
            (fun t => let '(s, e, st, n, d) := t in
                      {| ki_start := s; ki_end := e; ki_stream := st;
                         ki_name := n; ki_demangled := d |}) _).
  by intros [].
Defined.

Definition node_children (n : Node) : list Node :=
  match n with
  | Kernel _ => []
  | Nvtx _ _ _ children => children
  end.

(** The scope [n] lists the kernel [k]: a leaf of [k] is among its
    children. *)
Definition lists (n : Node) (k : KernelInfo) : Prop :=
  Kernel k ∈ node_children n.

(** The scope nodes among [children], in order. *)
Definition sub_scopes (children : list Node) : list Node :=
  List.filter is_nvtx children.

(** A scope node is named by its path: its position among the scope
    nodes of each level on the way down.  Kernel leaves are not counted,
    so a scope keeps its path when leaves are removed around it.
    [descend path n] follows [path] from the node [n], [scope_along path
    roots] from the roots. *)
Fixpoint descend (path : list nat) (n : Node) : option Node :=
  match path with
  | [] => Some n
  | i :: p =>
      match sub_scopes (node_children n) !! i with
      | Some c => descend p c
      | None => None
      end
  end.

Definition scope_along (path : list nat) (roots : list Node) : option Node :=
  match path with
  | [] => None
  | i :: p =>
      match sub_scopes roots !! i with
      | Some c => descend p c
      | None => None
      end
  end.

(** The kernels listed by a scope or by a scope below it. *)
Fixpoint kernels_below (node : Node) : gset KernelInfo :=
  match node with
  | Kernel _ => ∅
  | Nvtx _ _ _ children =>
      ⋃ (map (fun child =>
                match child with
                | Kernel k => {[k]}
                | Nvtx _ _ _ _ => kernels_below child
                end) children)
  end.

(** The kernels listed by the scopes among [children] and below them. *)
Definition listed_below (children : list Node) : gset KernelInfo :=
  ⋃ (map kernels_below children).

Fixpoint pairwise_disjoint (l : list (gset KernelInfo)) : Prop :=
  match l with
  | [] => True
  | X :: r => Forall (fun Y => X ## Y) r /\ pairwise_disjoint r
  end.

(** No kernel occurs in the subtrees of two different children. *)
Definition siblings_apart (children : list Node) : Prop :=
  pairwise_disjoint (map kernels_below children).

(** Sibling subtrees share no kernel, at every level. *)
Fixpoint apart (n : Node) : Prop :=
  match n with
  | Kernel _ => True
  | Nvtx _ _ _ children =>
      siblings_apart children /\
      fold_right (fun c P => apart c /\ P) True children
  end.

(** Moreover no scope lists a kernel that a scope below it lists. *)
Fixpoint exclusive (n : Node) : Prop :=
  match n with
  | Kernel _ => True
  | Nvtx _ _ _ children =>
      (forall k, Kernel k ∈ children -> k ∉ listed_below children) /\
      siblings_apart children /\
      fold_right (fun c P => exclusive c /\ P) True children
  end.

(** The children of the scope node at [path] (child indices from the
    roots); [None] when the path does not lead to a scope. *)
Fixpoint scope_children_at (path : list nat) (forest : list Node)
  : option (list Node) :=
  match path with
  | [] => None
  | i :: p =>
      match forest !! i with
      | Some (Nvtx _ _ _ children) =>
          match p with
          | [] => Some children
          | _ => scope_children_at p children
          end
      | _ => None
      end
  end.

(** Leaf exclusivity by start time: two distinct scope nodes never list
    kernels with the same start time (the key the deduplication
    compares). *)
Definition leaf_exclusive (roots : list Node) : Prop :=
  forall p q chp chq k k',
    p <> q ->
    scope_children_at p roots = Some chp ->
    scope_children_at q roots = Some chq ->
    Kernel k ∈ chp -> Kernel k' ∈ chq ->
    ki_start k <> ki_start k'.

(** Leaf exclusivity: no kernel is listed by two distinct scope nodes. *)
Definition leaf_unique (roots : list Node) : Prop :=
  forall p q n m k,
    p <> q ->
    scope_along p roots = Some n -> scope_along q roots = Some m ->
    lists n k -> ~ lists m k.

(** Some scope of the forest lists the kernel. *)
Definition listed_in (roots : list Node) (k : KernelInfo) : Prop :=
  exists p n, scope_along p roots = Some n /\ lists n k.

(** A kernel listed by a scope and a kernel listed by a scope below it
    start at different times unless they are the same kernel. *)
Definition nested_starts_distinct (roots : list Node) : Prop :=
  forall p q n m k k',
    q <> [] ->
    scope_along p roots = Some n -> descend q n = Some m ->
    lists n k -> lists m k' ->
    ki_start k = ki_start k' -> k = k'.

(** The kernel leaves among [children], in order. *)
Definition direct_kernels (children : list Node) : list KernelInfo :=
  omap (fun c => match c with
                 | Kernel k => Some k
                 | Nvtx _ _ _ _ => None
                 end) children.

(** The scopes of a tree in preorder, each with its projected bounds and
    the kernels it lists. *)
Fixpoint outline (n : Node) : list (string * Z * Z * list KernelInfo) :=
  match n with
  | Kernel _ => []
  | Nvtx name start end_ children =>
      (name, start, end_, direct_kernels children) :: flat_map outline children
  end.

Definition entry_outline (e : Entry) : string * Z * Z * list KernelInfo :=
  (e_name e, e_start e, e_end e, e_kernels e).

(** The kernel [k] is launched by a runtime call of [rt_rows] that
    begins at or after [lo] / ends at or before [hi]. *)
Definition begun (kmap : gmap Z KernelInfo) (rt_rows : list RuntimeRow)
           (lo : Z) (k : KernelInfo) : Prop :=
  exists r, r ∈ rt_rows /\ kmap !! r_correlationId r = Some k /\ lo <= r_start r.

Definition ended (kmap : gmap Z KernelInfo) (rt_rows : list RuntimeRow)
           (hi : Z) (k : KernelInfo) : Prop :=
  exists r, r ∈ rt_rows /\ kmap !! r_correlationId r = Some k /\ r_end r <= hi.

(** Any two launch calls that resolve to the same kernel overlap in
    time: neither begins when or after the other has ended.  Taken for a
    call and itself, this says that the call takes time. *)
Definition launches_overlap (kmap : gmap Z KernelInfo) (rt_rows : list RuntimeRow)
  : Prop :=
  forall r1 r2 k,
    r1 ∈ rt_rows -> r2 ∈ rt_rows ->
    kmap !! r_correlationId r1 = Some k ->
    kmap !! r_correlationId r2 = Some k ->
    r_start r2 < r_end r1.

(** The children [_deduplicate_kernels] leaves to a node. *)
Definition dedup_children (claimed : gset Z) (children : list Node) : list Node :=
  map dedup_node (List.filter (keeps claimed) children).

(** Every kernel below [n] comes from a launch call that ends by [s] /
    begins from [lo] on. *)
Definition closed_by (kmap : gmap Z KernelInfo) (rt_rows : list RuntimeRow)
           (s : Z) (n : Node) : Prop :=
  forall k, k ∈ kernels_below n -> ended kmap rt_rows s k.

Definition begun_from (kmap : gmap Z KernelInfo) (rt_rows : list RuntimeRow)
           (lo : Z) (n : Node) : Prop :=
  forall k, k ∈ kernels_below n -> begun kmap rt_rows lo k.

(** The kernel [k] comes from a launch call inside the CPU range of [e]. *)
Definition launched_within (kmap : gmap Z KernelInfo) (rt_rows : list RuntimeRow)
           (e : Entry) (k : KernelInfo) : Prop :=
  exists r, r ∈ rt_rows /\ kmap !! r_correlationId r = Some k /\
            e_cpu_start e <= r_start r /\ r_end r <= e_cpu_end e.

Definition entry_ok (kmap : gmap Z KernelInfo) (rt_rows : list RuntimeRow)
           (e : Entry) : Prop :=
  Forall (launched_within kmap rt_rows e) (e_kernels e).

(** The node an entry becomes. *)
Definition node_of (e : Entry) : Node :=
  Nvtx (e_name e) (e_start e) (e_end e) (map Kernel (e_kernels e)).


(** The invariant of the nesting loop.  [stack] is listed from the
    bottom; the node of each stacked entry is the last child of the node
    of the entry below it (the last root for the bottom one), at the
    path the stack records.  The subtrees to the left of that chain
    belong to scopes that have ended by the CPU start of the stacked
    scope next to them; everything in [forest] was launched from [lo]
    on; subtrees of different children never share a kernel. *)
Fixpoint spine (kmap : gmap Z KernelInfo) (rt_rows : list RuntimeRow)
         (lo s : Z) (stack : list (Entry * list nat)) (prefix : list nat)
         (forest : list Node) : Prop :=
  match stack with
  | [] =>
      Forall (closed_by kmap rt_rows s) forest /\
      Forall (begun_from kmap rt_rows lo) forest /\
      siblings_apart forest /\ Forall apart forest
  | (e, path) :: rest =>
      exists done name gs ge children,
        forest = done ++ [Nvtx name gs ge children] /\
        path = prefix ++ [length done] /\
        Forall (closed_by kmap rt_rows (e_cpu_start e)) done /\
        Forall (begun_from kmap rt_rows lo) done /\
        siblings_apart done /\ Forall apart done /\
        lo <= e_cpu_start e /\ e_cpu_start e <= s /\
        (forall k, Kernel k ∈ children -> launched_within kmap rt_rows e k) /\
        spine kmap rt_rows (e_cpu_start e) s rest path children
  end.

(** The path recorded for the top of the stack, [prefix] for an empty
    stack. *)
Definition last_path (prefix : list nat) (stack : list (Entry * list nat))
  : list nat :=
  match last stack with
  | Some (_, path) => path
  | None => prefix
  end.

(** A kernel row with a well-formed interval. *)
Definition wf_kernel (k : KernelRow) : Prop := k_start k <= k_end k.

(** ** Example traces *)

(** The scenario of the specification: three compute kernels at
    [0,10], [10,20], [25,30] and one collective at [5,15]. *)
Definition scenario_kernels : list KernelRow :=
  [ {| k_start := 0; k_end := 10; k_deviceId := 0; k_streamId := 0;
       k_correlationId := 1; k_name := "gemm"; k_demangled := "gemm" |};
    {| k_start := 10; k_end := 20; k_deviceId := 0; k_streamId := 0;
       k_correlationId := 2; k_name := "gemm"; k_demangled := "gemm" |};
    {| k_start := 25; k_end := 30; k_deviceId := 0; k_streamId := 0;
       k_correlationId := 3; k_name := "gemm"; k_demangled := "gemm" |};
    {| k_start := 5; k_end := 15; k_deviceId := 0; k_streamId := 1;
       k_correlationId := 4; k_name := "ncclAllReduce_sum";
       k_demangled := "ncclAllReduce_sum" |} ].


(** One collective kernel of zero duration. *)
Definition instant_collective_profile : Profile :=
  {| KERNEL := [ {| k_start := 5; k_end := 5; k_deviceId := 0; k_streamId := 7;
                    k_correlationId := 1; k_name := "ncclAllReduce_sum";
                    k_demangled := "ncclAllReduce_sum" |} ];
     RUNTIME := []; NVTX_EVENTS := []; time_range := (5, 5) |}.

(** A converged leaf scope next to a scope with three kernels and no
    nested scope. *)
Definition scenario_tree : list JNode :=
  [ JNvtx "step" 3
      [ JNvtx "attention" 1 [ JKernel "flash_fwd" 1 ];
        JNvtx "mlp" 2 [ JKernel "gemm_a" 1; JKernel "gelu" (1 # 2); JKernel "gemm_b" (1 # 2) ] ] ]%Q.

(** A scope with one kernel child next to a nested scope. *)
Definition mixed_one_kernel_tree : list JNode :=
  [ JNvtx "outer" 2 [ JKernel "k1" 1; JNvtx "inner" 1 [ JKernel "k2" 1 ] ] ]%Q.

(** Two threads with one launch each on device 0. *)
Definition tie_profile : Profile :=
  {| KERNEL :=
       [ {| k_start := 100; k_end := 200; k_deviceId := 0; k_streamId := 7;
            k_correlationId := 1; k_name := "gemm"; k_demangled := "gemm" |};
         {| k_start := 300; k_end := 400; k_deviceId := 0; k_streamId := 7;
            k_correlationId := 2; k_name := "gemm"; k_demangled := "gemm" |} ];
     RUNTIME :=
       [ {| r_globalTid := 1; r_start := 10; r_end := 20; r_correlationId := 1 |};
         {| r_globalTid := 2; r_start := 30; r_end := 40; r_correlationId := 2 |} ];
     NVTX_EVENTS := [];
     time_range := (100, 400) |}.

(** Thread 1 makes one call, whose correlation id three kernels of
    device 0 carry; thread 2 makes two calls with one kernel each. *)
Definition fanout_profile : Profile :=
  {| KERNEL :=
       [ {| k_start := 100; k_end := 200; k_deviceId := 0; k_streamId := 7;
            k_correlationId := 1; k_name := "gemm"; k_demangled := "gemm" |};
         {| k_start := 300; k_end := 400; k_deviceId := 0; k_streamId := 7;
            k_correlationId := 1; k_name := "gemm"; k_demangled := "gemm" |};
         {| k_start := 500; k_end := 600; k_deviceId := 0; k_streamId := 7;
            k_correlationId := 1; k_name := "gemm"; k_demangled := "gemm" |};
         {| k_start := 700; k_end := 800; k_deviceId := 0; k_streamId := 7;
            k_correlationId := 2; k_name := "gemm"; k_demangled := "gemm" |};
         {| k_start := 900; k_end := 1000; k_deviceId := 0; k_streamId := 7;
            k_correlationId := 3; k_name := "gemm"; k_demangled := "gemm" |} ];
     RUNTIME :=
       [ {| r_globalTid := 1; r_start := 10; r_end := 20; r_correlationId := 1 |};
         {| r_globalTid := 2; r_start := 30; r_end := 40; r_correlationId := 2 |};
         {| r_globalTid := 2; r_start := 50; r_end := 60; r_correlationId := 3 |} ];
     NVTX_EVENTS := [];
     time_range := (100, 1000) |}.

(** Two marker scopes [[t, t+500]] and [[t+600, t+900]] for [t = offset - 1000]
    on thread 1, each containing one launch whose kernel runs on device 0. *)
Definition marker_profile (offset : Z) : Profile :=
  let t := offset - 1000 in
  {| KERNEL :=
       [ {| k_start := t + 100; k_end := t + 200; k_deviceId := 0; k_streamId := 7;
            k_correlationId := 1; k_name := "gemm"; k_demangled := "gemm" |};
         {| k_start := t + 700; k_end := t + 800; k_deviceId := 0; k_streamId := 7;
            k_correlationId := 2; k_name := "ncclAllReduce_sum";
            k_demangled := "ncclAllReduce_sum" |} ];
     RUNTIME :=
       [ {| r_globalTid := 1; r_start := t + 50; r_end := t + 60; r_correlationId := 1 |};
         {| r_globalTid := 1; r_start := t + 650; r_end := t + 660; r_correlationId := 2 |} ];
     NVTX_EVENTS :=
       [ {| n_text := Some "sample_0"%string; n_globalTid := 1;
            n_start := t; n_end := t + 500 |};
         {| n_text := Some "sample_0"%string; n_globalTid := 1;
            n_start := t + 600; n_end := t + 900 |} ];
     time_range := (t + 100, t + 800) |}.

(** Three scopes of thread 1: [[0,5]] and [[0,10]] start together, the
    inner one stored first; [[6,8]] lies in [[0,10]] only. *)
Definition equal_start_profile : Profile :=
  {| KERNEL :=
       [ {| k_start := 100; k_end := 200; k_deviceId := 0; k_streamId := 7;
            k_correlationId := 1; k_name := "gemm"; k_demangled := "gemm" |} ];
     RUNTIME :=
       [ {| r_globalTid := 1; r_start := 1; r_end := 2; r_correlationId := 1 |} ];
     NVTX_EVENTS :=
       [ {| n_text := Some "inner"%string; n_globalTid := 1; n_start := 0; n_end := 5 |};
         {| n_text := Some "outer"%string; n_globalTid := 1; n_start := 0; n_end := 10 |};
         {| n_text := Some "later"%string; n_globalTid := 1; n_start := 6; n_end := 8 |} ];
     time_range := (100, 200) |}.

(** A step scope containing two scopes in sequence, one of which
    contains a fourth. *)
Definition nested_profile : Profile :=
  {| KERNEL :=
       [ {| k_start := 100; k_end := 200; k_deviceId := 0; k_streamId := 7;
            k_correlationId := 1; k_name := "gemm"; k_demangled := "gemm" |};
         {| k_start := 250; k_end := 300; k_deviceId := 0; k_streamId := 7;
            k_correlationId := 2; k_name := "gelu"; k_demangled := "gelu" |} ];
     RUNTIME :=
       [ {| r_globalTid := 1; r_start := 12; r_end := 14; r_correlationId := 1 |};
         {| r_globalTid := 1; r_start := 50; r_end := 52; r_correlationId := 2 |} ];
     NVTX_EVENTS :=
       [ {| n_text := Some "step"%string; n_globalTid := 1; n_start := 0; n_end := 100 |};
         {| n_text := Some "attention"%string; n_globalTid := 1; n_start := 10; n_end := 40 |};
         {| n_text := Some "softmax"%string; n_globalTid := 1; n_start := 11; n_end := 20 |};
         {| n_text := Some "mlp"%string; n_globalTid := 1; n_start := 40; n_end := 90 |} ];
     time_range := (100, 300) |}.

(** Two scopes that touch at time 10, and a launch call that begins and
    ends at that instant. *)
Definition boundary_profile : Profile :=
  {| KERNEL :=
       [ {| k_start := 100; k_end := 200; k_deviceId := 0; k_streamId := 7;
            k_correlationId := 1; k_name := "gemm"; k_demangled := "gemm" |} ];
     RUNTIME :=
       [ {| r_globalTid := 1; r_start := 10; r_end := 10; r_correlationId := 1 |} ];
     NVTX_EVENTS :=
       [ {| n_text := Some "forward"%string; n_globalTid := 1; n_start := 0; n_end := 10 |};
         {| n_text := Some "backward"%string; n_globalTid := 1; n_start := 10; n_end := 20 |} ];
     time_range := (100, 200) |}.

(** A scope with a nested scope; the outer scope launches one kernel
    itself and the nested scope another, and the two kernels start at
    the same time on different streams. *)
Definition twin_start_profile : Profile :=
  {| KERNEL :=
       [ {| k_start := 100; k_end := 200; k_deviceId := 0; k_streamId := 7;
            k_correlationId := 1; k_name := "gemm"; k_demangled := "gemm" |};
         {| k_start := 100; k_end := 150; k_deviceId := 0; k_streamId := 8;
            k_correlationId := 2; k_name := "relu"; k_demangled := "relu" |} ];
     RUNTIME :=
       [ {| r_globalTid := 1; r_start := 10; r_end := 20; r_correlationId := 1 |};
         {| r_globalTid := 1; r_start := 30; r_end := 40; r_correlationId := 2 |} ];
     NVTX_EVENTS :=
       [ {| n_text := Some "step"%string; n_globalTid := 1; n_start := 0; n_end := 50 |};
         {| n_text := Some "act"%string; n_globalTid := 1; n_start := 25; n_end := 45 |} ];
     time_range := (100, 200) |}.

(** Two scopes one after the other, each with a launch call that takes
    time; both calls carry the correlation id of the same kernel. *)
Definition relaunch_profile : Profile :=
  {| KERNEL :=
       [ {| k_start := 100; k_end := 200; k_deviceId := 0; k_streamId := 7;
            k_correlationId := 1; k_name := "gemm"; k_demangled := "gemm" |} ];
     RUNTIME :=
       [ {| r_globalTid := 1; r_start := 10; r_end := 20; r_correlationId := 1 |};
         {| r_globalTid := 1; r_start := 30; r_end := 40; r_correlationId := 1 |} ];
     NVTX_EVENTS :=
       [ {| n_text := Some "forward"%string; n_globalTid := 1; n_start := 0; n_end := 25 |};
         {| n_text := Some "backward"%string; n_globalTid := 1; n_start := 25; n_end := 50 |} ];
     time_range := (100, 200) |}.

(** ** search.py, export_flat.py, summary.py

    The modules that read the event store and the tree: the searches,
    the flat export and the timing part of the summary. *)

(** [sep.join(parts)]. *)
Fixpoint str_join (sep : string) (parts : list string) : string :=
  match parts with
  | [] => ""
  | [x] => x
  | x :: rest => x ++ sep ++ str_join sep rest
  end.

(** [prof.meta.devices]: [SELECT DISTINCT deviceId FROM
    CUPTI_ACTIVITY_KIND_KERNEL ORDER BY deviceId]. *)
Definition meta_devices (prof : Profile) : list Z :=
  Py.sorted Z.leb (remove_dups (map k_deviceId (KERNEL prof))).

(** The inner loop of the two searches: append the hits of [items] to
    [results] and leave, with the flag set, at the [return results]
    reached when [len(results) >= limit] after an append. *)
Fixpoint collect_until {A R : Type} (hit : A -> option R) (limit : Z)
         (items : list A) (results : list R) : list R * bool :=
  match items with
  | [] => (results, false)
  | x :: rest =>
      match hit x with
      | Some row =>
          let results := results ++ [row] in
          if limit <=? Z.of_nat (length results) then (results, true)
          else collect_until hit limit rest results
      | None => collect_until hit limit rest results
      end
  end.

(** The outer loop [for dev in devices]; [body dev results] is one turn,
    with the flag of a [return] inside it. *)
Fixpoint for_devices {R : Type} (body : Z -> list R -> list R * bool)
         (devices : list Z) (results : list R) : list R :=
  match devices with
  | [] => results
  | dev :: rest =>
      let (results, returned) := body dev results in
      if returned then results else for_devices body rest results
  end.

Record KernelHit := {
  kh_name : string; kh_start : Z; kh_end : Z; kh_duration_ms : Q;
  kh_device : Z; kh_stream : Z }.

Record NvtxHit := {
  nh_text : string; nh_start : Z; nh_end : Z; nh_duration_ms : Q;
  nh_thread : Z }.

Record HierarchyHit := {
  hh_name : string; hh_start : Z; hh_end : Z; hh_duration_ms : Q;
  hh_stream : Z; hh_nvtx_path : string }.

(** A row of [_kernel_rows]. *)
Record FlatRow := {
  fr_name : string; fr_start_ns : Z; fr_end_ns : Z;
  fr_duration_ms : Q; fr_duration_us : Q;
  fr_stream : Z; fr_device : Z; fr_nvtx_path : string }.

(** [_collect_paths] on one node, threading [result]. *)
Fixpoint collect_paths_node (path : list string) (node : Node)
         (result : gmap Z string) : gmap Z string :=
  match node with
  | Kernel k => <[ki_start k := str_join " > " path]> result
  | Nvtx name _ _ children =>
      fold_left (fun result child => collect_paths_node (path ++ [name]) child result)
                children result
  end.

Definition _collect_paths (nodes : list Node) (path : list string)
           (result : gmap Z string) : gmap Z string :=
  fold_left (fun result node => collect_paths_node path node result) nodes result.

(** The per-key accumulators of [gpu_summary] ([dur_by_name[name] += ...]
    with [count_by_name[name] += 1], and the same per stream), kept
    together: under each key, in insertion order of the keys, the
    durations added so far.  The count of a key is their number; its
    float total is [py_fsum] of them. *)
Fixpoint dict_append {K V : Type} (eqb : K -> K -> bool)
         (d : list (K * list V)) (key : K) (value : V) : list (K * list V) :=
  match d with
  | [] => [(key, [value])]
  | (key', values) :: rest =>
      if eqb key' key then (key', values ++ [value]) :: rest
      else (key', values) :: dict_append eqb rest key value
  end.

(** The idle-gap sweep of [gpu_summary] over [sorted_kernels]: the
    state is [(idle_ns, max_end)]. *)
Definition idle_sweep (st : Z * Z) (k : KernelRow) : Z * Z :=
  let (idle_ns, max_end) := st in
  (if max_end <? k_start k then idle_ns + (k_start k - max_end) else idle_ns,
   Z.max max_end (k_end k)).

(** The nanosecond quantities of [gpu_summary]. *)
Record SummaryNs := {
  sn_span_ns : Z; sn_total_compute_ns : Z; sn_idle_ns : Z }.

Definition summary_quantities (kernels : list KernelRow) : SummaryNs :=
  let span_ns := Py.max_of 0 (map k_end kernels) - Py.min_of 0 (map k_start kernels) in
  let sorted_kernels := Py.sorted_by_key k_start kernels in
  let idle_ns :=
    match sorted_kernels with
    | [] => 0
    | first :: rest => (fold_left idle_sweep rest (0, k_end first)).1
    end in
  let total_compute_ns := Py.sum (map (fun k => k_end k - k_start k) kernels) in
  {| sn_span_ns := span_ns; sn_total_compute_ns := total_compute_ns;
     sn_idle_ns := idle_ns |}.

Record TopKernel := {
  tk_name : string; tk_total_ms : Q; tk_count : nat; tk_pct : Q }.

Record StreamRow := {
  sr_stream : Z; sr_kernels : nat; sr_total_ms : Q }.

(** The report of [gpu_summary] without its [hardware] block, which is
    copied from the metadata of the profile. *)
Record Summary := {
  s_device : Z;
  s_span_ms : Q; s_compute_ms : Q; s_idle_ms : Q; s_utilization_pct : Q;
  s_kernel_count : nat;
  s_top_kernels : list TopKernel;
  s_streams : list StreamRow }.

Inductive SummaryResult :=
| SummaryError (device : Z) (msg : string)
| SummaryOk (summary : Summary).

Section Reports.

Variable py_round : Q -> nat -> Q.
Variable top_launcher : Profile -> Z -> option (Z * nat).

(** [py_fsum durs]: the float that [total += d / 1e6] leaves in [total]
    after the durations [durs], taken in order from [0.0]. *)
Variable py_fsum : list Z -> Q.

(** [str_lower s]: Python's [s.lower()], which folds every cased
    letter of Unicode.  The searches apply it to free text (the query,
    kernel names, scope texts); nothing about it is assumed. *)
Variable str_lower : string -> string.

(** search.py *)
Definition kernel_hit (q : string) (dev : Z) (k : KernelRow) : option KernelHit :=
  if Py.str_in q (str_lower (k_name k)) then
    Some {| kh_name := k_name k; kh_start := k_start k; kh_end := k_end k;
            kh_duration_ms := ns_to_ms py_round (k_end k - k_start k) 3;
            kh_device := dev; kh_stream := k_streamId k |}
  else None.

Definition search_kernels (prof : Profile) (query : string) (device : option Z)
           (trim : option (Z * Z)) (limit : Z) : list KernelHit :=
  let q := str_lower query in
  let devices := match device with Some d => [d] | None => meta_devices prof end in
  for_devices
    (fun dev results =>
       collect_until (kernel_hit q dev) limit (kernels prof dev trim) results)
    devices [].

Definition nvtx_hit (q : string) (n : NvtxRow) : option NvtxHit :=
  match nonempty_text n with
  | Some text =>
      if Py.str_in q (str_lower text) then
        Some {| nh_text := text; nh_start := n_start n; nh_end := n_end n;
                nh_duration_ms := ns_to_ms py_round (n_end n - n_start n) 3;
                nh_thread := n_globalTid n |}
      else None
  | None => None
  end.

Definition search_nvtx (prof : Profile) (query : string) (device : option Z)
           (trim : option (Z * Z)) (limit : Z) : list NvtxHit :=
  let q := str_lower query in
  let devices := match device with Some d => [d] | None => meta_devices prof end in
  for_devices
    (fun dev results =>
       let threads := gpu_threads prof dev in
       if decide (threads = ∅) then (results, false)
       else
         let window := match trim with Some t => t | None => time_range prof end in
         collect_until (nvtx_hit q) limit (nvtx_events prof threads window) results)
    devices [].

(** [_walk_hierarchy] on one node: the hits it appends.  [current_path]
    ends with the name of the node itself, also for a kernel. *)
Fixpoint walk_hierarchy_node (parent_pat child_pat : string) (path : list string)
         (node : Node) : list HierarchyHit :=
  match node with
  | Kernel k =>
      let current_path := path ++ [ki_name k] in
      let in_parent :=
        existsb (fun p => Py.str_in parent_pat (str_lower p)) current_path in
      if in_parent && Py.str_in child_pat (str_lower (ki_name k)) then
        [ {| hh_name := ki_name k; hh_start := ki_start k; hh_end := ki_end k;
             hh_duration_ms := ns_to_ms py_round (ki_end k - ki_start k) 3;
             hh_stream := ki_stream k;
             hh_nvtx_path := str_join " > " path |} ]
      else []
  | Nvtx name _ _ children =>
      flat_map (walk_hierarchy_node parent_pat child_pat (path ++ [name])) children
  end.

Definition _walk_hierarchy (nodes : list Node) (parent_pat child_pat : string)
           (path : list string) : list HierarchyHit :=
  flat_map (walk_hierarchy_node parent_pat child_pat path) nodes.

Definition search_hierarchy (prof : Profile) (parent_pattern child_pattern : string)
           (device : Z) (trim : Z * Z) : list HierarchyHit :=
  let roots := build_nvtx_tree top_launcher prof device trim 5000000000 in
  _walk_hierarchy roots (str_lower parent_pattern) (str_lower child_pattern) [].

(** export_flat.py *)
Definition _kernel_rows (prof : Profile) (device : Z) (trim : option (Z * Z))
           (include_nvtx_path : bool) : list FlatRow :=
  let kernels := kernels prof device trim in
  let nvtx_paths : gmap Z string :=
    match trim with
    | Some t =>
        if include_nvtx_path then
          _collect_paths (build_nvtx_tree top_launcher prof device t 5000000000) [] ∅
        else ∅
    | None => ∅
    end in
  map (fun k =>
         {| fr_name := k_name k; fr_start_ns := k_start k; fr_end_ns := k_end k;
            fr_duration_ms := ns_to_ms py_round (k_end k - k_start k) 3;
            fr_duration_us := py_round (inject_Z (k_end k - k_start k) / 1000) 1;
            fr_stream := k_streamId k; fr_device := device;
            fr_nvtx_path := default ""%string (nvtx_paths !! k_start k) |})
      kernels.

(** summary.py *)
Definition gpu_summary (prof : Profile) (device : Z) (trim : option (Z * Z))
  : outcome SummaryResult :=
  let kernels := kernels prof device trim in
  match kernels with
  | [] => Returns (SummaryError device "no kernels found")
  | _ =>
      let q := summary_quantities kernels in
      let by_name :=
        fold_left (fun d k => dict_append String.eqb d (k_name k) (k_end k - k_start k))
                  kernels [] in
      let top :=
        take 10 (Py.sorted (fun a b : string * list Z =>
                              Qle_bool (- py_fsum a.2) (- py_fsum b.2)) by_name) in
      let by_stream :=
        fold_left (fun d k => dict_append Z.eqb d (k_streamId k) (k_end k - k_start k))
                  kernels [] in
      bind
        (map_outcome
           (fun item : string * list Z =>
              if sn_total_compute_ns q =? 0 then Raises ZeroDivisionError
              else
                Returns
                  {| tk_name := item.1;
                     tk_total_ms := py_round (py_fsum item.2) 3;
                     tk_count := length item.2;
                     tk_pct :=
                       py_round (100 * py_fsum item.2
                                 / (inject_Z (sn_total_compute_ns q) / 1000000)) 1 |})
           top)
        (fun top_kernels =>
           Returns
             (SummaryOk
                {| s_device := device;
                   s_span_ms := ns_to_ms py_round (sn_span_ns q) 2;
                   s_compute_ms := ns_to_ms py_round (sn_total_compute_ns q) 2;
                   s_idle_ms := ns_to_ms py_round (sn_idle_ns q) 2;
                   s_utilization_pct :=
                     if sn_span_ns q =? 0 then 0%Q
                     else py_round (inject_Z (100 * sn_total_compute_ns q)
                                    / inject_Z (sn_span_ns q)) 1;
                   s_kernel_count := length kernels;
                   s_top_kernels := top_kernels;
                   s_streams :=
                     map (fun item : Z * list Z =>
                            {| sr_stream := item.1; sr_kernels := length item.2;
                               sr_total_ms := py_round (py_fsum item.2) 2 |})
                         (Py.sorted_by_key fst by_stream) |}))
  end.

End Reports.

(** The kernel leaves below a node, in preorder, each with the names of
    the scopes above it, outermost first. *)
Fixpoint leaves_under (path : list string) (node : Node)
  : list (list string * KernelInfo) :=
  match node with
  | Kernel k => [(path, k)]
  | Nvtx name _ _ children => flat_map (leaves_under (path ++ [name])) children
  end.

(** ** export.py

    The Perfetto events of one GPU.  The float fields [ts] and [dur] are
    quotients [x / 1000] of integers; a float is represented by the
    rational it denotes. *)

(** [str(n)] on integers. *)
Definition py_str (n : Z) : string := NilZero.string_of_int (Z.to_int n).

Definition STREAM_NAMES : list (Z * string) :=
  [ (21, "Compute"); (56, "NCCL") ]%string.

(** [STREAM_NAMES.get(s, "Aux")]. *)
Definition stream_label (s : Z) : string :=
  match List.find (fun item : Z * string => item.1 =? s) STREAM_NAMES with
  | Some item => item.2
  | None => "Aux"
  end.

(** A trace event: a slice ([ph = "X"]) or one of the three metadata
    events ([ph = "M"]). *)
Inductive TraceEvent :=
| Slice (name cat : string) (ts dur : Q) (pid tid : Z) (cname : string)
| ProcessName (pid : Z) (name : string)
| ThreadName (pid tid : Z) (name : string)
| ThreadSortIndex (pid tid sort_index : Z).

Definition gpu_trace (prof : Profile) (gpu : Z) (trim : Z * Z) : list TraceEvent :=
  let kmap := kernel_map prof gpu in
  if decide (kmap = ∅) then []
  else
    let min_ts :=
      Py.min_of 0 (map (fun item : Z * KernelInfo => ki_start item.2)
                       (map_to_list kmap)) in
    let window_kernels := kernels prof gpu (Some trim) in
    let kernel_events :=
      map (fun k =>
             Slice (k_name k) "gpu_kernel"
                   (inject_Z (k_start k - min_ts) / 1000)
                   (inject_Z (k_end k - k_start k) / 1000)
                   gpu (k_streamId k) "thread_state_runnable")
          window_kernels in
    let streams : gset Z := list_to_set (map k_streamId window_kernels) in
    let projected := project_nvtx prof gpu trim 5000000000 in
    let nvtx_events :=
      omap (fun p =>
              if p_projected p then
                Some (Slice (p_name p) "nvtx_projected"
                            (inject_Z (p_start p - min_ts) / 1000)
                            (inject_Z (p_end p - p_start p) / 1000)
                            gpu (10 + Z.of_nat (p_depth p)) "good")
              else None)
           projected in
    let max_depth := fold_left Nat.max (map p_depth projected) 0%nat in
    kernel_events ++ nvtx_events
    ++ [ ProcessName gpu ("GPU " ++ py_str gpu) ]
    ++ flat_map
         (fun d : nat =>
            [ ThreadName gpu (10 + Z.of_nat d) ("NVTX Lvl " ++ py_str (Z.of_nat d));
              ThreadSortIndex gpu (10 + Z.of_nat d) (10 + Z.of_nat d) ])
         (seq 0 (S max_depth))
    ++ flat_map
         (fun s : Z =>
            [ ThreadName gpu s ("Stream " ++ py_str s ++ " (" ++ stream_label s ++ ")");
              ThreadSortIndex gpu s (50 + s) ])
         (Py.sorted Z.leb (elements streams)).

(** The category of a slice; metadata events have none. *)
Definition event_cat (ev : TraceEvent) : option string :=
  match ev with
  | Slice _ cat _ _ _ _ _ => Some cat
  | _ => None
  end.

(** The thread [tid] of process [pid] is given a name in [events]. *)
Definition thread_named (events : list TraceEvent) (pid tid : Z) : Prop :=
  exists name, ThreadName pid tid name ∈ events.

(** ** tree.py: the JSON form of the tree *)

Definition node_end (n : Node) : Z :=
  match n with
  | Kernel k => ki_end k
  | Nvtx _ _ end_ _ => end_
  end.

Definition node_name (n : Node) : string :=
  match n with
  | Kernel k => ki_name k
  | Nvtx name _ _ _ => name
  end.

(** A node of [to_json]; [stream], [demangled] and [children] are keys
    that may be absent. *)
Inductive JsonNode :=
| JsonObject (name type_ : string) (duration_ms heat relative_pct : Q)
             (start_ns end_ns : Z) (path : string)
             (stream : option Z) (demangled : option string)
             (children : option (list JsonNode)).

Definition json_relative_pct (j : JsonNode) : Q :=
  match j with JsonObject _ _ _ _ relative_pct _ _ _ _ _ _ => relative_pct end.

Definition json_heat (j : JsonNode) : Q :=
  match j with JsonObject _ _ _ heat _ _ _ _ _ _ _ => heat end.

Definition json_path (j : JsonNode) : string :=
  match j with JsonObject _ _ _ _ _ _ _ path _ _ _ => path end.

(** The node as the analyzer reads it: [type], [name],
    [duration_ms] and [children] (absent: no children). *)
Fixpoint as_jnode (j : JsonNode) : JNode :=
  match j with
  | JsonObject name type_ duration_ms _ _ _ _ _ _ _ children =>
      if String.eqb type_ "kernel" then JKernel name duration_ms
      else JNvtx name duration_ms
                 match children with
                 | Some l => map as_jnode l
                 | None => []
                 end
  end.

Section Json.

Variable py_round : Q -> nat -> Q.

(** [to_json] on one node of a list whose longest duration is [max_ns],
    under a parent of duration [parent_ns] ([0] at the roots) and path
    [path].  Durations are carried in nanoseconds; the two quotients are
    taken where the source takes them, a zero divisor raising. *)
Fixpoint to_json_node (max_ns parent_ns : Z) (path : string) (node : Node)
  : outcome JsonNode :=
  let dur_ns := node_end node - node_start node in
  bind (if 0 <? max_ns then
          if max_ns =? 0 then Raises ZeroDivisionError
          else Returns (py_round (inject_Z dur_ns / inject_Z max_ns) 3)
        else Returns 0%Q)
       (fun heat =>
  bind (if 0 <? parent_ns then
          if parent_ns =? 0 then Raises ZeroDivisionError
          else Returns (py_round (inject_Z (100 * dur_ns) / inject_Z parent_ns) 1)
        else Returns 100%Q)
       (fun rel_pct =>
  let node_path :=
    match path with
    | EmptyString => node_name node
    | _ => (path ++ " > " ++ node_name node)%string
    end in
  bind match node with
       | Kernel _ => Returns None
       | Nvtx _ _ _ children =>
           match children with
           | [] => Returns None
           | _ :: _ =>
               bind (map_outcome
                       (to_json_node
                          (Py.max_of 1000000
                             (map (fun c => node_end c - node_start c) children))
                          dur_ns node_path)
                       children)
                    (fun l => Returns (Some l))
           end
       end
       (fun children =>
          Returns
            (JsonObject (node_name node)
                        (if is_kernel node then "kernel" else "nvtx")
                        (ns_to_ms py_round dur_ns 3) heat rel_pct
                        (node_start node) (node_end node) node_path
                        match node with
                        | Kernel k => Some (ki_stream k)
                        | Nvtx _ _ _ _ => None
                        end
                        match node with
                        | Kernel k =>
                            match ki_demangled k with
                            | EmptyString => None
                            | d => Some d
                            end
                        | Nvtx _ _ _ _ => None
                        end
                        children)))).

Definition to_json (roots : list Node) (parent_ns : Z) (path : string)
  : outcome (list JsonNode) :=
  map_outcome
    (to_json_node (Py.max_of 1000000 (map (fun c => node_end c - node_start c) roots))
                  parent_ns path)
    roots.

(** What the analyzer reads of the JSON form of a node. *)
Fixpoint jnode_of (node : Node) : JNode :=
  match node with
  | Kernel k => JKernel (ki_name k) (ns_to_ms py_round (ki_end k - ki_start k) 3)
  | Nvtx name start end_ children =>
      JNvtx name (ns_to_ms py_round (end_ - start) 3) (map jnode_of children)
  end.

End Json.

(** ** Further vocabulary *)

(** The instant [x] lies in one of the intervals of [l]. *)
Definition covers (l : list (Z * Z)) (x : Z) : Prop :=
  exists iv, iv ∈ l /\ iv.1 <= x <= iv.2.

(** The eight tags [classify_kernel] can answer. *)
Definition classification_tags : list string :=
  [ "compute"; "nccl_allgather"; "nccl_reducescatter"; "nccl_allreduce";
    "nccl_broadcast"; "nccl_sendrecv"; "nccl_reduce"; "nccl_other" ]%string.

(** The pattern characters of [LIKE] do not occur in [s]. *)
Fixpoint wildcard_free (s : string) : Prop :=
  match s with
  | EmptyString => True
  | String c r => c <> "%"%char /\ c <> "_"%char /\ wildcard_free r
  end.

(** The correlation loop without its early [break]: every runtime call
    of [rt_rows] inside [[cpu_start, cpu_end]] that resolves to a kernel. *)
Definition correlated_all (kmap : gmap Z KernelInfo) (rt_rows : list RuntimeRow)
           (cpu_start cpu_end : Z) : list KernelInfo :=
  omap (fun rt => if (cpu_start <=? r_start rt) && (r_end rt <=? cpu_end)
                  then kmap !! r_correlationId rt else None) rt_rows.

(** Strictly increasing. *)
Fixpoint increasing (l : list nat) : Prop :=
  match l with
  | [] => True
  | i :: r => Forall (fun j => (i < j)%nat) r /\ increasing r
  end.

(** No two scopes of the list overlap: each ends before the later ones
    start. *)
Fixpoint in_sequence (l : list NvtxRow) : Prop :=
  match l with
  | [] => True
  | a :: r => Forall (fun b => n_end a <= n_start b) r /\ in_sequence r
  end.

(** The depth the nesting of the scopes gives each scope of [l], taken
    in order after the history [h]: the number of earlier scopes of its
    thread still open when it starts. *)
Fixpoint open_counts (h l : list NvtxRow) : list nat :=
  match l with
  | [] => []
  | n :: r => count_open h (n_globalTid n) (n_start n) :: open_counts (h ++ [n]) r
  end.

(** The children of every scope are ordered by start. *)
Fixpoint children_sorted (n : Node) : Prop :=
  match n with
  | Kernel _ => True
  | Nvtx _ _ _ children =>
      key_sorted node_start children /\
      fold_right (fun c P => children_sorted c /\ P) True children
  end.

(** The scopes of a tree in preorder, each with its projected bounds. *)
Fixpoint scopes (n : Node) : list (string * Z * Z) :=
  match n with
  | Kernel _ => []
  | Nvtx name start end_ children => (name, start, end_) :: flat_map scopes children
  end.

Definition entry_scope (e : Entry) : string * Z * Z :=
  (e_name e, e_start e, e_end e).

(** [path] leads down the last child at every level. *)
Fixpoint rightmost (path : list nat) (forest : list Node) : Prop :=
  match path with
  | [] => True
  | i :: p =>
      S i = length forest /\
      match forest !! i with
      | Some (Nvtx _ _ _ children) => rightmost p children
      | _ => False
      end
  end.

(** The paths of a stack, top first: each is the path of the one below
    it extended by child indices. *)
Fixpoint nested_paths (stack : list (Entry * list nat)) : Prop :=
  match stack with
  | [] => True
  | (_, p) :: below =>
      match below with
      | [] => True
      | (_, q) :: _ => q `prefix_of` p
      end /\ nested_paths below
  end.

(** A target reported for a scope without sub-scopes. *)
Definition leaf_target (t : Target) : bool :=
  match t_note t with None => true | Some _ => false end.

(** [tally targets s s']: the counters of [s'] are those of [s] moved on
    by a walk during which [_walk], run with [max_kernels = 1] over the
    same nodes, reports [targets]. *)
Definition tally (targets : list Target) (s s' : Stats) : Prop :=
  let leaves := List.filter leaf_target targets in
  st_unconverged s' = (st_unconverged s + length leaves)%nat /\
  st_unmapped_kernels s'
  = (st_unmapped_kernels s + sum_list (map t_kernel_count leaves))%nat /\
  (st_mapped_kernels s' + st_converged s = st_converged s' + st_mapped_kernels s)%nat /\
  (st_converged s <= st_converged s')%nat /\
  st_total_kernels s' = st_total_kernels s /\
  (st_total_nvtx s + st_converged s' + length leaves
   <= st_total_nvtx s' + st_converged s)%nat /\
  Forall (fun t => (2 <= t_kernel_count t)%nat) leaves.

(** The hit [search_hierarchy] reports for the kernel leaf [k] under
    the scopes [path], if any: the child pattern occurs in the name of
    the kernel, and the parent pattern in the name of a scope above it
    or in the name of the kernel. *)
Definition hierarchy_hit (py_round : Q -> nat -> Q) (str_lower : string -> string)
           (parent_pat child_pat : string)
           (leaf : list string * KernelInfo) : option HierarchyHit :=
  let (path, k) := leaf in
  if (existsb (fun p => Py.str_in parent_pat (str_lower p)) path
      || Py.str_in parent_pat (str_lower (ki_name k)))
     && Py.str_in child_pat (str_lower (ki_name k))
  then Some {| hh_name := ki_name k; hh_start := ki_start k; hh_end := ki_end k;
               hh_duration_ms := ns_to_ms py_round (ki_end k - ki_start k) 3;
               hh_stream := ki_stream k;
               hh_nvtx_path := str_join " > " path |}
  else None.

(** The path [_collect_paths] leaves for the start time [s]: that of the
    last kernel leaf, in preorder, that starts at [s]. *)
Definition path_of_start (leaves : list (list string * KernelInfo)) (s : Z)
  : option string :=
  match last (List.filter (fun leaf : list string * KernelInfo =>
                             ki_start leaf.2 =? s) leaves) with
  | Some leaf => Some (str_join " > " leaf.1)
  | None => None
  end.

(** The scopes of a tree in preorder, each with its projected bounds
    and its depth; the node itself is at depth [d]. *)
Fixpoint scopes_at_depth (d : nat) (n : Node) : list (string * Z * Z * nat) :=
  match n with
  | Kernel _ => []
  | Nvtx name start end_ children =>
      (name, start, end_, d) :: flat_map (scopes_at_depth (S d)) children
  end.

(** The order of the entries puts a scope before the scopes it contains:
    of two entries the later one starts after the earlier has ended, or
    ends no later than it. *)
Fixpoint entries_outer_first (l : list Entry) : Prop :=
  match l with
  | [] => True
  | a :: r =>
      Forall (fun b => e_cpu_end a <= e_cpu_start b \/ e_cpu_end b <= e_cpu_end a) r /\
      entries_outer_first r
  end.

(** The entries [l], taken in order after the history [h], each with
    the number of earlier entries whose CPU range is still open when it
    starts. *)
Fixpoint entry_depths (h l : list Entry) : list (string * Z * Z * nat) :=
  match l with
  | [] => []
  | e :: r =>
      (e_name e, e_start e, e_end e,
       length (List.filter (fun a => e_cpu_start e <? e_cpu_end a) h))
      :: entry_depths (h ++ [e]) r
  end.

(** The path of every stack element is as long as the stack from that
    element down. *)
Fixpoint path_lengths (stack : list (Entry * list nat)) : Prop :=
  match stack with
  | [] => True
  | (_, p) :: below => length p = S (length below) /\ path_lengths below
  end.

(** CPU ends do not decrease from the first entry on. *)
Fixpoint ends_ascending (l : list Entry) : Prop :=
  match l with
  | [] => True
  | a :: r => Forall (fun b => e_cpu_end a <= e_cpu_end b) r /\ ends_ascending r
  end.

(* ================================================================== *)
(** * Part II: properties *)
(* ================================================================== *)

(** ** Strings *)

Lemma startswith_spec (p s : string) :
  Py.startswith p s = true <-> exists post, s = (p ++ post)%string.
Proof.
  revert s. induction p as [|a p IH]; intros s; simpl.
  - split; [intros _; by exists s | done].
  - destruct s as [|b s].
    + split; [done | intros [post H]; discriminate].
    + destruct (Ascii.eqb_spec a b) as [->|Hne].
      * rewrite IH. split; intros [post H]; exists post; [by rewrite H | by injection H].
      * split; [done | intros [post H]; injection H; congruence].
Qed.

Lemma str_in_spec (p s : string) : Py.str_in p s = true <-> Occurs p s.
Proof.
  induction s as [|c s IH].
  - simpl. destruct (Py.startswith p "") eqn:E.
    + split; [intros _ | done]. apply startswith_spec in E as [post E].
      by exists ""%string, post.
    + split; [done |]. intros [pre [post H]].
      destruct pre; [|discriminate]. simpl in H.
      assert (Py.startswith p "" = true) by (apply startswith_spec; eauto).
      congruence.
  - simpl. destruct (Py.startswith p (String c s)) eqn:E.
    + split; [intros _ | done]. apply startswith_spec in E as [post E].
      by exists ""%string, post.
    + rewrite IH. split.
      * intros [pre [post H]]. exists (String c pre), post. by rewrite H.
      * intros [pre [post H]]. destruct pre as [|c' pre].
        -- simpl in H.
           assert (Py.startswith p (String c s) = true)
             by (apply startswith_spec; eauto).
           congruence.
        -- injection H as _ H. by exists pre, post.
Qed.

(** ** Classification *)

Lemma first_nccl_label_None (types : list (string * string)) (name : string) :
  (forall key label, (key, label) ∈ types -> ~ OccursCI key name) ->
  first_nccl_label types name = None.
Proof.
  induction types as [|[k l] r IH]; intros H; simpl; [done|].
  destruct (Py.str_in (Py.lower k) (Py.lower name)) eqn:E.
  - apply str_in_spec in E. exfalso. eapply H; [left | exact E].
  - apply IH. intros key label Hin. eapply H. right. exact Hin.
Qed.

Lemma first_nccl_label_skip (k l : string) (r : list (string * string))
      (name : string) :
  ~ OccursCI k name ->
  first_nccl_label ((k, l) :: r) name = first_nccl_label r name.
Proof.
  intros H. simpl. destruct (Py.str_in (Py.lower k) (Py.lower name)) eqn:E; [|done].
  apply str_in_spec in E. by destruct H.
Qed.

Lemma first_nccl_label_hit (k l : string) (r : list (string * string))
      (name : string) :
  OccursCI k name -> first_nccl_label ((k, l) :: r) name = Some l.
Proof.
  intros H. simpl. apply str_in_spec in H. unfold OccursCI in H. by rewrite H.
Qed.

(** C4. [classify_kernel] answers ["compute"] for a name without "nccl"
    (case-insensitively); otherwise the tag of the first collective type
    found in the name, tried in the order AllGather, ReduceScatter,
    AllReduce, Broadcast, SendRecv, Reduce; ["nccl_other"] when none is
    found; and ["ncclAllReduce_sum"] is an all-reduce, not a reduce. *)
Theorem classify_kernel_priority :
  (forall name, ~ OccursCI "nccl" name -> classify_kernel name = "compute"%string) /\
  (forall name i key,
      OccursCI "nccl" name ->
      collective_priority !! i = Some key ->
      OccursCI key name ->
      (forall j key', (j < i)%nat -> collective_priority !! j = Some key' ->
                      ~ OccursCI key' name) ->
      classify_kernel name = ("nccl_" ++ Py.lower key)%string) /\
  (forall name,
      OccursCI "nccl" name ->
      (forall key, key ∈ collective_priority -> ~ OccursCI key name) ->
      classify_kernel name = "nccl_other"%string) /\
  classify_kernel "ncclAllReduce_sum" = "nccl_allreduce"%string /\
  classify_kernel "ncclAllReduce_sum" <> "nccl_reduce"%string.
Proof.
  split; [|split; [|split; [|split]]].
  - intros name H. unfold classify_kernel.
    destruct (Py.str_in "nccl" (Py.lower name)) eqn:E; [|done].
    apply (str_in_spec "nccl") in E. by destruct H.
  - intros name i key Hn Hi Hk Hfirst. unfold classify_kernel.
    apply (str_in_spec "nccl") in Hn. change (Py.lower "nccl") with "nccl"%string in Hn.
    rewrite Hn. unfold NCCL_TYPES.
    destruct i as [|[|[|[|[|[|i]]]]]]; vm_compute in Hi; try discriminate;
      injection Hi as <-;
      repeat first
        [ rewrite (first_nccl_label_hit _ _ _ _ Hk); reflexivity
        | rewrite first_nccl_label_skip;
          [| first [ by apply (Hfirst 0%nat); [lia|]
                   | by apply (Hfirst 1%nat); [lia|]
                   | by apply (Hfirst 2%nat); [lia|]
                   | by apply (Hfirst 3%nat); [lia|]
                   | by apply (Hfirst 4%nat); [lia|] ] ] ].
  - intros name Hn Hnone. unfold classify_kernel.
    apply (str_in_spec "nccl") in Hn. change (Py.lower "nccl") with "nccl"%string in Hn.
    rewrite Hn. rewrite first_nccl_label_None; [done|].
    intros key label Hin. apply Hnone.
    unfold NCCL_TYPES in Hin. unfold collective_priority.
    repeat (apply elem_of_cons in Hin as [Hin|Hin];
            [injection Hin as -> _; set_solver|]).
    by apply elem_of_nil in Hin.
  - reflexivity.
  - discriminate.
Qed.

(** ** Sorting *)

Section SortFacts.
Context {A : Type} (leb : A -> A -> bool).

Lemma insert_sorted_perm (x : A) (l : list A) :
  Permutation (Py.insert_sorted leb x l) (x :: l).
Proof.
  induction l as [|y r IH]; simpl; [done|].
  destruct (leb x y); [done|].
  rewrite IH. apply perm_swap.
Qed.

Lemma sorted_perm (l : list A) : Permutation (Py.sorted leb l) l.
Proof.
  induction l as [|x r IH]; simpl; [done|].
  rewrite insert_sorted_perm. by constructor.
Qed.

Lemma sorted_Forall (P : A -> Prop) (l : list A) :
  Forall P l -> Forall P (Py.sorted leb l).
Proof. intros H. by rewrite sorted_perm. Qed.

Lemma sorted_nil_inv (l : list A) : Py.sorted leb l = [] -> l = [].
Proof.
  intros H. apply Permutation_nil. rewrite <- H. apply sorted_perm.
Qed.
End SortFacts.

Lemma insert_start_sorted (x : Z * Z) (l : list (Z * Z)) :
  start_sorted l -> start_sorted (Py.insert_sorted interval_leb x l).
Proof.
  induction l as [|y r IH]; simpl; [done|]. intros [Hy Hr].
  unfold interval_leb at 1. destruct (_ || _) eqn:E; simpl.
  - split; [|done]. constructor; [lia|].
    eapply Forall_impl; [exact Hy|]. simpl. intros. lia.
  - split; [|by apply IH].
    rewrite insert_sorted_perm. constructor; [lia | done].
Qed.

Lemma sorted_start_sorted (l : list (Z * Z)) :
  start_sorted (Py.sorted interval_leb l).
Proof. induction l; simpl; [done | by apply insert_start_sorted]. Qed.

(** ** Merging intervals *)

Lemma merge_loop_starts (P : Z -> Prop) (cur : Z * Z) (rest : list (Z * Z)) :
  P cur.1 -> Forall (fun iv => P iv.1) rest ->
  Forall (fun iv => P iv.1) (merge_loop cur rest).
Proof.
  revert cur. induction rest as [|[s e] r IH]; intros cur Hc Hr; simpl.
  - by constructor.
  - inversion Hr; subst. destruct (s <=? cur.2).
    + by apply IH.
    + constructor; [done|]. by apply IH.
Qed.

Lemma merge_loop_ends (hi : Z) (cur : Z * Z) (rest : list (Z * Z)) :
  cur.2 <= hi -> Forall (fun iv => iv.2 <= hi) rest ->
  Forall (fun iv => iv.2 <= hi) (merge_loop cur rest).
Proof.
  revert cur. induction rest as [|[s e] r IH]; intros cur Hc Hr; simpl.
  - by constructor.
  - inversion Hr; subst. simpl in *. destruct (s <=? cur.2).
    + apply IH; [simpl; lia | done].
    + constructor; [done|]. by apply IH.
Qed.

Lemma merge_loop_separated (cur : Z * Z) (rest : list (Z * Z)) :
  wf_iv cur -> Forall wf_iv rest -> start_sorted (cur :: rest) ->
  separated (merge_loop cur rest).
Proof.
  revert cur. induction rest as [|[s e] r IH]; intros cur Hc Hr [Hge Hs]; simpl.
  - done.
  - inversion Hr as [|? ? Hse Hr']; subst. inversion Hge as [|? ? Hcs Hge']; subst.
    destruct Hs as [Hsr Hs]. unfold wf_iv in *. simpl in *.
    destruct (Z.leb_spec s cur.2).
    + apply IH; [simpl; lia | done |]. split; [|done].
      eapply Forall_impl; [exact Hge'|]. simpl. intros; lia.
    + split; [done|]. split.
      * apply (merge_loop_starts (fun x => cur.2 < x)); [simpl; lia|].
        eapply Forall_impl; [exact Hsr|]. simpl. intros; lia.
      * apply IH; [done | done | done].
Qed.

Lemma merge_intervals_separated (l : list (Z * Z)) :
  Forall wf_iv l -> separated (_merge_intervals l).
Proof.
  intros H. unfold _merge_intervals.
  pose proof (sorted_start_sorted l) as Hs.
  pose proof (sorted_Forall interval_leb _ _ H) as Hw.
  destruct (Py.sorted interval_leb l) as [|x r]; [done|].
  inversion Hw; subst. by apply merge_loop_separated.
Qed.

Lemma merge_intervals_within (lo hi : Z) (l : list (Z * Z)) :
  Forall (within lo hi) l -> Forall (within lo hi) (_merge_intervals l).
Proof.
  intros H. unfold _merge_intervals.
  pose proof (sorted_Forall interval_leb _ _ H) as Hw.
  destruct (Py.sorted interval_leb l) as [|x r]; [done|].
  inversion Hw as [|? ? [Hx1 Hx2] Hr]; subst.
  assert (H1 : Forall (fun iv => lo <= iv.1) (merge_loop x r)).
  { apply (merge_loop_starts (fun s => lo <= s)); [done|].
    eapply Forall_impl; [exact Hr|]. by intros ? []. }
  assert (H2 : Forall (fun iv => iv.2 <= hi) (merge_loop x r)).
  { apply merge_loop_ends; [done|].
    eapply Forall_impl; [exact Hr|]. by intros ? []. }
  apply Forall_forall. intros iv Hin. split.
  - by apply (proj1 (Forall_forall _ _) H1).
  - by apply (proj1 (Forall_forall _ _) H2).
Qed.

(** ** Covered durations *)

Lemma clip_nonneg (x y : Z) (iv : Z * Z) : 0 <= clip x y iv.
Proof. unfold clip. lia. Qed.

Lemma clip_split (x y z : Z) (iv : Z * Z) :
  x <= y -> y <= z -> clip x z iv = clip x y iv + clip y z iv.
Proof. intros Hxy Hyz. unfold clip. lia. Qed.

Lemma cov_nonneg (b : list (Z * Z)) (x y : Z) : 0 <= cov b x y.
Proof.
  induction b as [|iv r IH]; unfold cov in *; simpl; [lia|].
  pose proof (clip_nonneg x y iv). lia.
Qed.

Lemma cov_split (b : list (Z * Z)) (x y z : Z) :
  x <= y -> y <= z -> cov b x z = cov b x y + cov b y z.
Proof.
  intros Hxy Hyz. induction b as [|iv r IH]; unfold cov in *; simpl; [lia|].
  rewrite (clip_split x y z iv Hxy Hyz). lia.
Qed.

(** Intervals that start at or after [y] cover nothing of [[x, y]]. *)
Lemma cov_after (b : list (Z * Z)) (x y : Z) :
  Forall (fun iv => y <= iv.1) b -> cov b x y = 0.
Proof.
  induction 1 as [|iv r Hiv _ IH]; unfold cov in *; simpl; [done|].
  rewrite IH. unfold clip. lia.
Qed.

Lemma cov_cons (iv : Z * Z) (b : list (Z * Z)) (x y : Z) :
  cov (iv :: b) x y = clip x y iv + cov b x y.
Proof. reflexivity. Qed.

(** Separated intervals cover at most the length of the window. *)
Lemma cov_le_window (b : list (Z * Z)) (x y : Z) :
  separated b -> cov b x y <= Z.max 0 (y - x).
Proof.
  revert x. induction b as [|iv r IH]; intros x; [unfold cov; simpl; lia|].
  intros (Hwf & Hgap & Hsep). unfold wf_iv in Hwf. rewrite cov_cons.
  destruct (Z.le_gt_cases y iv.2) as [Hy|Hy].
  - (* the tail starts after the window *)
    rewrite (cov_after r x y).
    + unfold clip. lia.
    + eapply Forall_impl; [exact Hgap|]. simpl. intros; lia.
  - destruct (Z.le_gt_cases x iv.2) as [Hx|Hx].
    + rewrite (cov_split r x iv.2 y) by lia.
      rewrite (cov_after r x iv.2).
      * specialize (IH iv.2 Hsep). unfold clip. lia.
      * eapply Forall_impl; [exact Hgap|]. simpl. intros; lia.
    + specialize (IH x Hsep). unfold clip. lia.
Qed.

Lemma cov_within (b : list (Z * Z)) (lo hi : Z) :
  Forall wf_iv b -> Forall (within lo hi) b -> cov b lo hi = _total_covered b.
Proof.
  induction b as [|iv r IH]; intros Hwf Hin; unfold cov, _total_covered in *;
    simpl; [done|].
  inversion Hwf; inversion Hin as [|? ? [? ?] ?]; subst.
  rewrite IH by done. unfold clip, wf_iv in *. lia.
Qed.

Lemma separated_wf (b : list (Z * Z)) : separated b -> Forall wf_iv b.
Proof.
  induction b as [|iv r IH]; simpl; [constructor|].
  intros (? & _ & ?). constructor; auto.
Qed.

Lemma separated_start_sorted (b : list (Z * Z)) : separated b -> start_sorted b.
Proof.
  induction b as [|iv r IH]; simpl; [done|].
  intros (Hwf & Hgap & Hsep). split; [|auto].
  eapply Forall_impl; [exact Hgap|]. unfold wf_iv in Hwf. simpl. intros; lia.
Qed.

(** ** The two-pointer sweep computes the doubly covered duration *)

Lemma sweep_cov (b : list (Z * Z)) (s e : Z) :
  start_sorted b -> sweep b s e = cov b s e.
Proof.
  induction b as [|[bs be] r IH]; intros Hs; [done|].
  destruct Hs as [Hge Hs]. simpl in Hge. simpl.
  destruct (Z.ltb_spec bs e).
  - rewrite IH by done. unfold cov. simpl. unfold clip. simpl.
    destruct (Z.ltb_spec (Z.max s bs) (Z.min e be)); lia.
  - symmetry. apply cov_after. constructor; [simpl; lia|].
    eapply Forall_impl; [exact Hge|]. simpl. intros; lia.
Qed.

Lemma skip_ended_cov (b : list (Z * Z)) (x s e : Z) :
  x <= s -> cov (skip_ended b x) s e = cov b s e.
Proof.
  intros Hx. induction b as [|[bs be] r IH]; [done|]. simpl.
  destruct (Z.leb_spec be x); [|done].
  rewrite IH. unfold cov. simpl. unfold clip. simpl. lia.
Qed.

Lemma skip_ended_start_sorted (b : list (Z * Z)) (x : Z) :
  start_sorted b -> start_sorted (skip_ended b x).
Proof.
  induction b as [|[bs be] r IH]; [done|]. intros Hs. simpl.
  destruct (be <=? x); [apply IH; apply Hs | done].
Qed.

Lemma cov_both_skip (a b : list (Z * Z)) (x : Z) :
  Forall (fun iv => x <= iv.1) a ->
  cov_both a (skip_ended b x) = cov_both a b.
Proof.
  induction 1 as [|iv r Hiv _ IH]; unfold cov_both in *; simpl; [done|].
  rewrite IH. by rewrite skip_ended_cov.
Qed.

Lemma intersection_loop_cov (a b : list (Z * Z)) :
  start_sorted a -> start_sorted b -> intersection_loop a b = cov_both a b.
Proof.
  revert b. induction a as [|[s e] a' IH]; intros b Ha Hb; [done|].
  destruct Ha as [Hge Ha]. simpl in Hge. simpl.
  rewrite sweep_cov by (by apply skip_ended_start_sorted).
  rewrite IH by (done || by apply skip_ended_start_sorted).
  rewrite cov_both_skip by done.
  rewrite skip_ended_cov by lia. done.
Qed.

Lemma cov_both_nil_r (a : list (Z * Z)) : cov_both a [] = 0.
Proof.
  induction a as [|iv r IH]; [done|].
  change (cov_both (iv :: r) []) with (0 + cov_both r []). by rewrite IH.
Qed.

(** [_intersection_coverage] of two merged interval sets is the duration
    covered by both. *)
Lemma intersection_coverage_cov (a b : list (Z * Z)) :
  separated a -> separated b -> _intersection_coverage a b = cov_both a b.
Proof.
  intros Ha Hb. unfold _intersection_coverage.
  destruct a as [|x a']; [done|]. destruct b as [|y b'].
  - by rewrite cov_both_nil_r.
  - apply intersection_loop_cov; by apply separated_start_sorted.
Qed.

(** ** Inclusion-exclusion against the span *)

Lemma cov_both_le_left (a b : list (Z * Z)) :
  separated a -> separated b -> cov_both a b <= _total_covered a.
Proof.
  intros Ha Hb. induction a as [|iv r IH]; unfold cov_both, _total_covered in *;
    simpl; [lia|].
  destruct Ha as (Hwf & _ & Ha). specialize (IH Ha).
  pose proof (cov_le_window b iv.1 iv.2 Hb). unfold wf_iv in Hwf. lia.
Qed.

(** With [a] separated inside [[lo, hi]]: what [a] covers, plus what [b]
    covers of [[lo, hi]], minus what both cover, fits in [hi - lo]; and
    what both cover is at most what [b] covers. *)
Lemma union_within_span (a b : list (Z * Z)) (lo hi : Z) :
  separated a -> separated b -> Forall (within lo hi) a -> lo <= hi ->
  _total_covered a + cov b lo hi - cov_both a b <= hi - lo /\
  cov_both a b <= cov b lo hi.
Proof.
  intros Ha Hb. revert lo. induction a as [|iv r IH]; intros lo Hin Hle.
  - unfold _total_covered, cov_both. simpl.
    pose proof (cov_le_window b lo hi Hb). pose proof (cov_nonneg b lo hi). lia.
  - destruct Ha as (Hwf & Hgap & Ha). inversion Hin as [|? ? [Hlo Hhi] Hin']; subst.
    unfold wf_iv in Hwf.
    assert (Hr : Forall (within iv.2 hi) r).
    { apply Forall_forall. intros iv' Hiv'.
      pose proof (proj1 (Forall_forall _ _) Hgap _ Hiv') as H1.
      pose proof (proj1 (Forall_forall _ _) Hin' _ Hiv') as [_ H2].
      simpl in H1. split; [lia | done]. }
    destruct (IH Ha iv.2 Hr ltac:(lia)) as [IH1 IH2].
    rewrite (cov_split b lo iv.1 hi) by lia.
    rewrite (cov_split b iv.1 iv.2 hi) by lia.
    pose proof (cov_le_window b lo iv.1 Hb).
    pose proof (cov_nonneg b lo iv.1).
    unfold _total_covered, cov_both in *. simpl. lia.
Qed.

(** ** The span of a kernel list *)

Lemma fold_min_le (l : list Z) (x : Z) :
  fold_left Z.min l x <= x /\ Forall (fun y => fold_left Z.min l x <= y) l.
Proof.
  revert x. induction l as [|y r IH]; intros x; simpl; [split; [lia | constructor]|].
  destruct (IH (Z.min x y)) as [H1 H2]. split; [lia|].
  constructor; [lia | done].
Qed.

Lemma fold_max_ge (l : list Z) (x : Z) :
  x <= fold_left Z.max l x /\ Forall (fun y => y <= fold_left Z.max l x) l.
Proof.
  revert x. induction l as [|y r IH]; intros x; simpl; [split; [lia | constructor]|].
  destruct (IH (Z.max x y)) as [H1 H2]. split; [lia|].
  constructor; [lia | done].
Qed.

Lemma min_of_le (d : Z) (l : list Z) : Forall (fun y => Py.min_of d l <= y) l.
Proof.
  destruct l as [|x r]; [constructor|]. simpl.
  destruct (fold_min_le r x). by constructor.
Qed.

Lemma max_of_ge (d : Z) (l : list Z) : Forall (fun y => y <= Py.max_of d l) l.
Proof.
  destruct l as [|x r]; [constructor|]. simpl.
  destruct (fold_max_ge r x). by constructor.
Qed.

Lemma kernels_within_span (ks : list KernelRow) (f : KernelRow -> bool) :
  Forall (within (Py.min_of 0 (map k_start ks)) (Py.max_of 0 (map k_end ks)))
         (map (fun k => (k_start k, k_end k)) (List.filter f ks)).
Proof.
  apply Forall_forall. intros iv Hin.
  apply list_elem_of_In, in_map_iff in Hin as (k & <- & Hk).
  apply filter_In in Hk as [Hk _]. split; simpl.
  - pose proof (min_of_le 0 (map k_start ks)) as H.
    apply (proj1 (Forall_forall _ _) H). apply list_elem_of_In, in_map. done.
  - pose proof (max_of_ge 0 (map k_end ks)) as H.
    apply (proj1 (Forall_forall _ _) H). apply list_elem_of_In, in_map. done.
Qed.

Lemma kernels_wf_intervals (ks : list KernelRow) (f : KernelRow -> bool) :
  Forall wf_kernel ks ->
  Forall wf_iv (map (fun k => (k_start k, k_end k)) (List.filter f ks)).
Proof.
  intros H. apply Forall_forall. intros iv Hin.
  apply list_elem_of_In, in_map_iff in Hin as (k & <- & Hk).
  apply filter_In in Hk as [Hk _].
  apply (proj1 (Forall_forall _ _) H). by apply list_elem_of_In.
Qed.

(** C1. For a non-empty list of kernels with well-formed intervals, the
    four reported shares add up to the wall-clock span (the idle share
    taken after its clamp to zero), the overlap is at most the compute
    coverage and at most the collective coverage, and no share is
    negative, so that clamping changes none of them. *)
Theorem overlap_partition (ks : list KernelRow) :
  ks <> [] -> Forall wf_kernel ks ->
  let q := overlap_quantities ks in
  compute_only_ns q + nccl_only_ns q + overlap_ns q + idle_reported q = total_ns q /\
  overlap_ns q <= Z.min (compute_ns q) (nccl_ns q) /\
  0 <= compute_only_ns q /\ 0 <= nccl_only_ns q /\ 0 <= overlap_ns q /\
  0 <= idle_ns q.
Proof.
  intros Hne Hwf q.
  set (lo := Py.min_of 0 (map k_start ks)).
  set (hi := Py.max_of 0 (map k_end ks)).
  set (ci := map (fun k => (k_start k, k_end k))
                 (List.filter (fun k => negb (is_nccl k)) ks)).
  set (ni := map (fun k => (k_start k, k_end k)) (List.filter is_nccl ks)).
  assert (Hc : separated (_merge_intervals ci))
    by (apply merge_intervals_separated, kernels_wf_intervals, Hwf).
  assert (Hn : separated (_merge_intervals ni))
    by (apply merge_intervals_separated, kernels_wf_intervals, Hwf).
  assert (Hcw : Forall (within lo hi) (_merge_intervals ci))
    by (apply merge_intervals_within, kernels_within_span).
  assert (Hnw : Forall (within lo hi) (_merge_intervals ni))
    by (apply merge_intervals_within, kernels_within_span).
  assert (Hlohi : lo <= hi).
  { destruct ks as [|k ks']; [done|].
    pose proof (Forall_inv Hwf) as Hk.
    pose proof (Forall_inv (min_of_le 0 (map k_start (k :: ks')))) as Hmin.
    pose proof (Forall_inv (max_of_ge 0 (map k_end (k :: ks')))) as Hmax.
    unfold wf_kernel in Hk. subst lo hi. cbn beta in Hmin, Hmax. lia. }
  destruct (union_within_span _ _ lo hi Hc Hn Hcw Hlohi) as [Hu Hov].
  rewrite (cov_within _ lo hi (separated_wf _ Hn) Hnw) in Hu, Hov.
  pose proof (cov_both_le_left _ _ Hc Hn) as Hov'.
  pose proof (intersection_coverage_cov _ _ Hc Hn) as Hi.
  assert (Hov0 : 0 <= cov_both (_merge_intervals ci) (_merge_intervals ni)).
  { unfold cov_both. generalize (_merge_intervals ci) as a.
    induction a as [|iv r IH]; simpl; [lia|].
    pose proof (cov_nonneg (_merge_intervals ni) iv.1 iv.2). lia. }
  subst q. unfold idle_reported, overlap_quantities. simpl.
  fold ci ni lo hi. rewrite Hi. lia.
Qed.

(** The partition on the scenario of the specification: 15 ns compute
    only, 10 ns overlap, 5 ns idle out of 30 ns. *)
Lemma overlap_partition_witness :
  let q := overlap_quantities scenario_kernels in
  (compute_only_ns q + nccl_only_ns q + overlap_ns q + idle_reported q = total_ns q /\
   overlap_ns q <= Z.min (compute_ns q) (nccl_ns q) /\
   0 <= compute_only_ns q /\ 0 <= nccl_only_ns q /\ 0 <= overlap_ns q /\
   0 <= idle_ns q) /\
  (compute_only_ns q, nccl_only_ns q, overlap_ns q, idle_reported q, total_ns q)
  = (15, 0, 10, 5, 30).
Proof.
  split.
  - apply (overlap_partition scenario_kernels).
    + discriminate.
    + repeat constructor; unfold wf_kernel; simpl; lia.
  - vm_compute. reflexivity.
Defined.

(** ** Empty results *)

Lemma filter_none {A : Type} (f : A -> bool) (l : list A) :
  Forall (fun x => f x = false) l -> List.filter f l = [].
Proof.
  induction 1 as [|x r Hx _ IH]; simpl; [done|]. by rewrite Hx.
Qed.


Lemma kernel_map_none (prof : Profile) (device : Z) :
  no_kernels_on prof device -> kernel_map prof device = ∅.
Proof.
  intros H. unfold kernel_map. rewrite filter_none; [done|].
  eapply Forall_impl; [exact H|]. simpl. intros k Hk.
  destruct (Z.eqb_spec (k_deviceId k) device); done.
Qed.




(** ** Percentages *)

(** C8. The overlap percentage and the coverage percentage are [0] on a
    zero denominator, but the share of a collective type is not guarded:
    when the collective kernels of the window have a total duration of
    zero, [nccl_breakdown] raises [ZeroDivisionError]. *)
Theorem nccl_breakdown_zero_total_raises :
  (forall py_round prof device trim report,
     overlap_analysis py_round prof device trim = OverlapOk report ->
     nccl_ns (overlap_quantities (kernels prof device trim)) = 0 ->
     overlap_pct report = 0%Q) /\
  (forall py_round tree_roots,
     total_kernels (convergence_report py_round tree_roots) = 0%nat ->
     coverage_pct (convergence_report py_round tree_roots) = 0%Q) /\
  (forall py_round,
     List.filter is_nccl (kernels instant_collective_profile 0 None) <> [] /\
     Py.sum (map (fun k => k_end k - k_start k)
                 (List.filter is_nccl (kernels instant_collective_profile 0 None))) = 0 /\
     nccl_breakdown py_round instant_collective_profile 0 None
     = Raises ZeroDivisionError).
Proof.
  split; [|split].
  - intros py_round prof device trim report H Hz. unfold overlap_analysis in H.
    destruct (kernels prof device trim) as [|k ks]; [discriminate|].
    remember (overlap_quantities (k :: ks)) as q eqn:Eq.
    cbv zeta in H. injection H as <-. cbn [overlap_pct]. by rewrite Hz.
  - intros py_round tree_roots H. unfold convergence_report in *. simpl in *.
    by rewrite H.
  - intros py_round. split; [|split]; [discriminate | reflexivity | reflexivity].
Qed.

(** ** Rounding *)

Lemma Qfloor_nonneg (q : Q) : (0 <= q)%Q -> 0 <= Qfloor q.
Proof.
  intros H. change 0 with (Qfloor 0). by apply Qfloor_resp_le.
Qed.

(** Rounding a percentage to one decimal keeps it a percentage. *)
Lemma round_half_even_pct (q : Q) :
  (0 <= q <= 100)%Q -> (0 <= round_half_even q 1%nat <= 100)%Q.
Proof.
  intros [H0 H100]. unfold round_half_even.
  change (10 ^ Z.of_nat 1) with 10.
  set (scaled := (q * inject_Z 10)%Q).
  assert (Hs0 : (0 <= scaled)%Q).
  { unfold scaled. apply Qmult_le_0_compat; [done | discriminate]. }
  assert (Hs1 : (scaled <= 1000)%Q).
  { unfold scaled. change 1000%Q with (100 * inject_Z 10)%Q.
    apply Qmult_le_compat_r; [done | discriminate]. }
  pose proof (Qfloor_nonneg _ Hs0) as Hf0.
  pose proof (Qfloor_le scaled) as Hfl.
  assert (Hf1 : Qfloor scaled <= 1000).
  { change 1000 with (Qfloor 1000). by apply Qfloor_resp_le. }
  set (fl := Qfloor scaled) in *.
  assert (Hup : (1 # 2 <= scaled - inject_Z fl)%Q -> fl + 1 <= 1000).
  { intros Hhalf. assert (Hlt : (inject_Z fl < 1000)%Q).
    { lra. }
    change 1000%Q with (inject_Z 1000) in Hlt. rewrite <- Zlt_Qlt in Hlt. lia. }
  set (n := match (scaled - inject_Z fl ?= 1 # 2)%Q with
            | Eq => if Z.even fl then fl else fl + 1
            | Lt => fl
            | Gt => fl + 1
            end).
  assert (Hn : 0 <= n <= 1000).
  { subst n. destruct (scaled - inject_Z fl ?= 1 # 2)%Q eqn:E.
    - apply Qeq_alt in E. destruct (Z.even fl); [lia|].
      split; [lia|]. apply Hup. rewrite E. apply Qle_refl.
    - lia.
    - apply Qgt_alt in E. split; [lia|]. apply Hup. by apply Qlt_le_weak. }
  split.
  - apply Qle_shift_div_l; [reflexivity|]. rewrite Qmult_0_l.
    change 0%Q with (inject_Z 0). rewrite <- Zle_Qle. lia.
  - apply Qle_shift_div_r; [reflexivity|].
    change (100 * inject_Z 10)%Q with (inject_Z 1000). rewrite <- Zle_Qle. lia.
Qed.

(** ** Convergence report *)

(** C6. In every convergence report the mapped and unmapped kernels add
    up to the total, the coverage percentage is
    [round(100 * mapped / (mapped + unmapped), 1)], or [0] when there is
    no kernel, and it lies between 0 and 100 (for a [round] that keeps
    percentages within 0 and 100). *)
Theorem coverage_arithmetic (py_round : Q -> nat -> Q)
        (tree_roots : list JNode)
        (Hround : forall q, (0 <= q <= 100)%Q -> (0 <= py_round q 1%nat <= 100)%Q) :
  let r := convergence_report py_round tree_roots in
  (mapped_kernels r + unmapped_kernels r = total_kernels r)%nat /\
  coverage_pct r
  = (if (mapped_kernels r + unmapped_kernels r =? 0)%nat then 0%Q
     else py_round (inject_Z (100 * Z.of_nat (mapped_kernels r))
                    / inject_Z (Z.of_nat (mapped_kernels r + unmapped_kernels r)))%Q
                   1%nat) /\
  ((mapped_kernels r + unmapped_kernels r = 0)%nat -> coverage_pct r = 0%Q) /\
  (0 <= coverage_pct r <= 100)%Q.
Proof.
  intros r. subst r. unfold convergence_report.
  set (stats := _convergence_walk tree_roots _).
  cbn [mapped_kernels unmapped_kernels total_kernels coverage_pct].
  set (m := st_mapped_kernels stats). set (u := st_unmapped_kernels stats).
  split; [done|]. split; [done|]. split.
  - intros ->. done.
  - destruct (Nat.eqb_spec (m + u) 0) as [Hz|Hnz]; [done|].
    apply Hround. split.
    + apply Qle_shift_div_l.
      * change 0%Q with (inject_Z 0). rewrite <- Zlt_Qlt. lia.
      * rewrite Qmult_0_l. change 0%Q with (inject_Z 0). rewrite <- Zle_Qle. lia.
    + apply Qle_shift_div_r.
      * change 0%Q with (inject_Z 0). rewrite <- Zlt_Qlt. lia.
      * change 100%Q with (inject_Z 100). rewrite <- inject_Z_mult, <- Zle_Qle. lia.
Qed.

(** One of four kernels mapped: a coverage of 25.0. *)
Lemma coverage_arithmetic_witness :
  let r := convergence_report round_half_even scenario_tree in
  ((mapped_kernels r + unmapped_kernels r = total_kernels r)%nat /\
   coverage_pct r
   = (if (mapped_kernels r + unmapped_kernels r =? 0)%nat then 0%Q
      else round_half_even
             (inject_Z (100 * Z.of_nat (mapped_kernels r))
              / inject_Z (Z.of_nat (mapped_kernels r + unmapped_kernels r)))%Q
             1%nat) /\
   ((mapped_kernels r + unmapped_kernels r = 0)%nat -> coverage_pct r = 0%Q) /\
   (0 <= coverage_pct r <= 100)%Q) /\
  (unconverged_nvtx r, mapped_kernels r, unmapped_kernels r, coverage_pct r)
  = (1%nat, 1%nat, 3%nat, 250 # 10).
Proof.
  split.
  - apply (coverage_arithmetic round_half_even scenario_tree).
    exact round_half_even_pct.
  - vm_compute. reflexivity.
Defined.

(** ** Stable sorting by key *)

Section SortByKey.
Context {A : Type} (key : A -> Z).

Lemma insert_by_key_keeps_class (c : Z) (x : A) (l : list A) :
  List.filter (fun y => key y =? c) (Py.insert_sorted (fun x y => key x <=? key y) x l)
  = List.filter (fun y => key y =? c) (x :: l).
Proof.
  induction l as [|y r IH]; [done|]. cbn [Py.insert_sorted].
  destruct (Z.leb_spec (key x) (key y)) as [Hle|Hgt]; [done|].
  cbn [List.filter] in *. rewrite IH.
  destruct (Z.eqb_spec (key y) c), (Z.eqb_spec (key x) c); (done || lia).
Qed.

(** Elements with equal keys keep their input order. *)
Lemma sorted_by_key_stable (c : Z) (l : list A) :
  List.filter (fun y => key y =? c) (Py.sorted_by_key key l)
  = List.filter (fun y => key y =? c) l.
Proof.
  unfold Py.sorted_by_key. induction l as [|x r IH]; [done|].
  cbn [Py.sorted]. rewrite insert_by_key_keeps_class.
  cbn [List.filter]. by rewrite IH.
Qed.

Lemma insert_by_key_sorted (x : A) (l : list A) :
  key_sorted key l ->
  key_sorted key (Py.insert_sorted (fun x y => key x <=? key y) x l).
Proof.
  induction l as [|y r IH]; [done|]. intros [Hy Hr]. cbn [Py.insert_sorted].
  destruct (Z.leb_spec (key x) (key y)) as [Hle|Hgt].
  - split; [|done]. constructor; [done|].
    eapply Forall_impl; [exact Hy|]. simpl. intros; lia.
  - split; [|by apply IH].
    rewrite insert_sorted_perm. constructor; [lia | done].
Qed.

Lemma sorted_by_key_sorted (l : list A) : key_sorted key (Py.sorted_by_key key l).
Proof.
  unfold Py.sorted_by_key. induction l as [|x r IH]; [done|].
  by apply insert_by_key_sorted.
Qed.

Lemma sorted_by_key_perm (l : list A) : Permutation (Py.sorted_by_key key l) l.
Proof. apply sorted_perm. Qed.

End SortByKey.

(** ** Refinement targets *)

Lemma walk_nvtx_children_only (max_kernels depth : nat) (children : list JNode) :
  _walk (List.filter j_is_nvtx children) max_kernels depth
  = _walk children max_kernels depth.
Proof.
  unfold _walk. induction children as [|c r IH]; [done|]. simpl.
  destruct c as [name d|name d ch]; simpl; [done|]. by rewrite IH.
Qed.

(** [_convergence_walk(nvtx_children, stats)] is the walk over all the
    children: kernel children leave [stats] as it is. *)
Lemma convergence_nvtx_children_only (children : list JNode) (stats : Stats) :
  _convergence_walk (List.filter j_is_nvtx children) stats
  = _convergence_walk children stats.
Proof.
  unfold _convergence_walk. revert stats.
  induction children as [|c r IH]; intros stats; [done|].
  destruct c as [name d|name d ch]; [apply IH|]. cbn [List.filter j_is_nvtx j_is_kernel negb fold_left].
  apply IH.
Qed.

(** The scope [n] at [depth] is reported when it has more than
    [max_kernels] kernel children. *)
Lemma walk_node_reports (max_kernels depth : nat) (n : JNode) :
  j_is_nvtx n = true ->
  (max_kernels < length (kern_children n))%nat ->
  exists t, t ∈ walk_node max_kernels depth n /\ describes t depth n.
Proof.
  destruct n as [name d|name d ch]; [done|]. intros _ Hmany.
  unfold kern_children in Hmany. simpl in Hmany.
  apply Nat.ltb_lt in Hmany. cbn [walk_node]. rewrite Hmany.
  destruct (List.filter j_is_nvtx ch) as [|c r] eqn:E.
  - eexists. split; [apply elem_of_app; left; apply list_elem_of_singleton; reflexivity|].
    unfold describes, nvtx_children, kern_children. simpl. rewrite E. done.
  - eexists. split.
    + apply elem_of_app. right. apply elem_of_app. left.
      apply list_elem_of_singleton. reflexivity.
    + unfold describes, nvtx_children, kern_children. simpl. rewrite E.
      repeat split; done.
Qed.

Lemma walk_reports (max_kernels : nat) (nodes : list JNode) (depth : nat) (n : JNode) :
  scope_at nodes depth n ->
  (max_kernels < length (kern_children n))%nat ->
  forall base, exists t,
    t ∈ _walk nodes max_kernels base /\ describes t (base + depth) n.
Proof.
  intros Hat Hmany. induction Hat as [nodes n Hin Hn|nodes name d ch depth n Hin Hat IH];
    intros base.
  - destruct (walk_node_reports max_kernels base n Hn Hmany) as (t & Ht & Hd).
    exists t. split; [|by rewrite Nat.add_0_r].
    unfold _walk. apply list_elem_of_In, in_flat_map. exists n.
    split; by apply list_elem_of_In.
  - destruct (IH Hmany (S base)) as (t & Ht & Hd).
    exists t. split; [|by replace (base + S depth)%nat with (S base + depth)%nat by lia].
    unfold _walk. apply list_elem_of_In, in_flat_map.
    exists (JNvtx name d ch). split; [by apply list_elem_of_In|].
    apply list_elem_of_In. cbn [walk_node].
    apply elem_of_app. right. apply elem_of_app. right. exact Ht.
Qed.

Lemma JNode_forest_ind (P : JNode -> Prop) :
  (forall name d, P (JKernel name d)) ->
  (forall name d children, Forall P children -> P (JNvtx name d children)) ->
  forall n, P n.
Proof.
  intros Hk Hn. fix IH 1. intros [name d|name d children].
  - apply Hk.
  - apply Hn. induction children as [|c r IHr]; constructor; [apply IH | exact IHr].
Qed.

Lemma scope_at_mono (nodes nodes' : list JNode) (depth : nat) (n : JNode) :
  (forall m, m ∈ nodes -> m ∈ nodes') ->
  scope_at nodes depth n -> scope_at nodes' depth n.
Proof.
  intros Hsub Hat. destruct Hat.
  - apply scope_root; auto.
  - eapply scope_child; eauto.
Qed.

Lemma walk_node_sound (max_kernels : nat) (n : JNode) :
  forall base t,
    t ∈ walk_node max_kernels base n ->
    exists depth m,
      scope_at [n] depth m /\ describes t (base + depth) m /\
      (max_kernels < length (kern_children m))%nat.
Proof.
  induction n as [name d|name d children IH] using JNode_forest_ind;
    intros base t Ht.
  - by apply elem_of_nil in Ht.
  - cbn [walk_node] in Ht.
    apply elem_of_app in Ht as [Ht|Ht]; [|apply elem_of_app in Ht as [Ht|Ht]].
    + destruct (List.filter j_is_nvtx children) as [|c r] eqn:E;
        [|by apply elem_of_nil in Ht].
      destruct (Nat.ltb_spec max_kernels (length (List.filter j_is_kernel children)));
        [|by apply elem_of_nil in Ht].
      apply list_elem_of_singleton in Ht as ->.
      exists 0%nat, (JNvtx name d children). split; [|split].
      * apply scope_root; [apply list_elem_of_singleton; done | done].
      * rewrite Nat.add_0_r. unfold describes, nvtx_children, kern_children.
        simpl. rewrite E. done.
      * done.
    + destruct (List.filter j_is_nvtx children) as [|c r] eqn:E;
        [by apply elem_of_nil in Ht|].
      destruct (Nat.ltb_spec max_kernels (length (List.filter j_is_kernel children)));
        [|by apply elem_of_nil in Ht].
      apply list_elem_of_singleton in Ht as ->.
      exists 0%nat, (JNvtx name d children). split; [|split].
      * apply scope_root; [apply list_elem_of_singleton; done | done].
      * rewrite Nat.add_0_r. unfold describes, nvtx_children, kern_children.
        simpl. rewrite E. repeat split; done.
      * done.
    + apply list_elem_of_In, in_flat_map in Ht as (c & Hc & Ht).
      apply list_elem_of_In in Hc, Ht.
      pose proof (proj1 (Forall_forall _ _) IH c Hc (S base) t Ht)
        as (depth & m & Hat & Hd & Hmany).
      exists (S depth), m. split; [|split].
      * eapply scope_child; [apply list_elem_of_singleton; reflexivity|].
        eapply scope_at_mono; [|exact Hat].
        intros m' Hm'. by apply list_elem_of_singleton in Hm' as ->.
      * by replace (base + S depth)%nat with (S base + depth)%nat by lia.
      * done.
Qed.

(** Every reported target describes a scope of the forest with more
    than [max_kernels] kernel children. *)
Lemma walk_sound (max_kernels : nat) (nodes : list JNode) (base : nat) (t : Target) :
  t ∈ _walk nodes max_kernels base ->
  exists depth n,
    scope_at nodes depth n /\ describes t (base + depth) n /\
    (max_kernels < length (kern_children n))%nat.
Proof.
  intros Ht. unfold _walk in Ht.
  apply list_elem_of_In, in_flat_map in Ht as (c & Hc & Ht).
  apply list_elem_of_In in Hc, Ht.
  destruct (walk_node_sound max_kernels c base t Ht) as (depth & n & Hat & Hd & Hmany).
  exists depth, n. split; [|done].
  eapply scope_at_mono; [|exact Hat].
  intros m' Hm'. by apply list_elem_of_singleton in Hm' as ->.
Qed.

Lemma descending_of_key_sorted (l : list Target) :
  key_sorted (fun t => - Z.of_nat (t_kernel_count t)) l -> descending_counts l.
Proof.
  induction l as [|t r IH]; [done|]. intros [Ht Hr]. split; [|auto].
  eapply Forall_impl; [exact Ht|]. simpl. intros; lia.
Qed.

(** Counterexample to C5 as stated: the scope "outer" has both a scope
    child and an uncovered direct kernel child, and is not a target. *)
Lemma mixed_scope_with_one_kernel_not_reported :
  let outer := JNvtx "outer" 2 [ JKernel "k1" 1; JNvtx "inner" 1 [ JKernel "k2" 1 ] ]%Q in
  scope_at mixed_one_kernel_tree 0 outer /\
  nvtx_children outer <> [] /\ kern_children outer <> [] /\
  find_refinement_targets mixed_one_kernel_tree 1 = [].
Proof.
  split; [|split; [|split]].
  - apply scope_root; [apply list_elem_of_singleton; reflexivity | reflexivity].
  - discriminate.
  - discriminate.
  - reflexivity.
Qed.

(** C5 (amended). The refinement targets are exactly the scopes of the
    tree with more than [max_kernels] (by default one) kernel children:
    the leaf scopes among them unflagged, those that also have scope
    children flagged "mixed"; the list is sorted by descending kernel
    count, and targets with equal counts keep the order of the walk. *)
Theorem refinement_targets_sorted (tree_roots : list JNode) (max_kernels : nat) :
  let targets := find_refinement_targets tree_roots max_kernels in
  (forall depth n,
     scope_at tree_roots depth n ->
     (max_kernels < length (kern_children n))%nat ->
     exists t, t ∈ targets /\ describes t depth n) /\
  (forall t,
     t ∈ targets ->
     exists depth n,
       scope_at tree_roots depth n /\ describes t depth n /\
       (max_kernels < length (kern_children n))%nat) /\
  descending_counts targets /\
  (forall count,
     List.filter (fun t => (t_kernel_count t =? count)%nat) targets
     = List.filter (fun t => (t_kernel_count t =? count)%nat)
                   (_walk tree_roots max_kernels 0)).
Proof.
  intros targets. subst targets. unfold find_refinement_targets.
  set (key := fun t => - Z.of_nat (t_kernel_count t)).
  split; [|split; [|split]].
  - intros depth n Hat Hmany.
    destruct (walk_reports max_kernels _ _ _ Hat Hmany 0%nat) as (t & Ht & Hd).
    exists t. split; [|done]. by rewrite sorted_by_key_perm.
  - intros t Ht. rewrite sorted_by_key_perm in Ht.
    by apply (walk_sound max_kernels tree_roots 0%nat).
  - apply descending_of_key_sorted, sorted_by_key_sorted.
  - intros count.
    pose proof (sorted_by_key_stable key (- Z.of_nat count)
                  (_walk tree_roots max_kernels 0)) as H.
    assert (Hext : forall l : list Target,
               List.filter (fun t => (t_kernel_count t =? count)%nat) l
               = List.filter (fun y => key y =? - Z.of_nat count) l).
    { intros l. apply filter_ext. intros t. unfold key.
      destruct (Nat.eqb_spec (t_kernel_count t) count),
               (Z.eqb_spec (- Z.of_nat (t_kernel_count t)) (- Z.of_nat count));
        (done || lia). }
    by rewrite !Hext.
Qed.

(** ** Primary thread *)

Lemma perm_elem_of {A : Type} (l l' : list A) (x : A) :
  Permutation l l' -> x ∈ l -> x ∈ l'.
Proof. intros H. by rewrite H. Qed.

Lemma launch_count_absent (prof : Profile) (device tid : Z) :
  tid ∉ map r_globalTid (launches_on prof device) ->
  launch_count prof device tid = 0%nat.
Proof.
  intros H. unfold launch_count. rewrite filter_none; [done|].
  apply Forall_forall. intros r Hr.
  destruct (Z.eqb_spec (r_globalTid r) tid) as [<-|]; [|done].
  destruct H. apply list_elem_of_In, in_map. by apply list_elem_of_In.
Qed.

(** The ranking query answers as [ranking_answer] describes: no row when
    the join is empty, otherwise a thread of the join with its count, no
    thread having a larger one. *)
Lemma ranking_query_answer (tie_key : Z -> Z) (prof : Profile) (device : Z) :
  ranking_answer prof device (ranking_query tie_key prof device).
Proof.
  unfold ranking_query.
  set (k1 := fun g : Z * nat => tie_key g.1).
  set (k2 := fun g : Z * nat => - Z.of_nat g.2).
  set (gs := ranking_groups prof device).
  assert (Hperm : Permutation (Py.sorted_by_key k2 (Py.sorted_by_key k1 gs)) gs).
  { etransitivity; apply sorted_by_key_perm. }
  assert (Hsorted := sorted_by_key_sorted k2 (Py.sorted_by_key k1 gs)).
  destruct (Py.sorted_by_key k2 (Py.sorted_by_key k1 gs)) as [|[tid cnt] rest] eqn:Heq;
    cbn [head ranking_answer].
  - apply Permutation_nil in Hperm. subst gs. unfold ranking_groups in Hperm.
    apply map_eq_nil in Hperm.
    destruct (launches_on prof device) as [|r l]; [done|].
    assert (Hr : r_globalTid r ∈ remove_dups (map r_globalTid (r :: l))).
    { apply elem_of_remove_dups. cbn [map]. apply list_elem_of_here. }
    rewrite Hperm in Hr. by apply elem_of_nil in Hr.
  - assert (Hin : (tid, cnt) ∈ gs).
    { apply (perm_elem_of _ _ _ Hperm). apply list_elem_of_here. }
    subst gs. unfold ranking_groups in Hin.
    apply list_elem_of_fmap in Hin as (t & Ht & Hin). injection Ht as -> ->.
    rewrite elem_of_remove_dups in Hin.
    split; [done|]. split; [done|].
    apply Forall_forall. intros r Hr.
    assert (Hg : (r_globalTid r, launch_count prof device (r_globalTid r))
                 ∈ (t, launch_count prof device t) :: rest).
    { apply (perm_elem_of _ _ _ (Permutation_sym Hperm)).
      unfold ranking_groups.
      apply (list_elem_of_fmap_2 (fun tid => (tid, launch_count prof device tid))).
      rewrite elem_of_remove_dups.
      by apply (list_elem_of_fmap_2 r_globalTid). }
    destruct Hsorted as [Hhead _].
    apply elem_of_cons in Hg as [Hg|Hg].
    + injection Hg as _ ->. lia.
    + apply (proj1 (Forall_forall _ _) Hhead) in Hg.
      subst k2. cbn in Hg. lia.
Qed.

Lemma existsb_filter_length {A : Type} (f : A -> bool) (l : list A) :
  existsb f l = negb (Nat.eqb (length (List.filter f l)) 0).
Proof.
  induction l as [|x l IH]; [done|]. cbn [existsb List.filter].
  destruct (f x); [done | exact IH].
Qed.

Lemma filter_constant_rows {A B : Type} (f : B -> bool) (b : B) (l : list A) :
  length (List.filter f (map (fun _ : A => b) l))
  = if f b then length l else 0%nat.
Proof.
  induction l as [|x l IH]; [by destruct (f b)|].
  cbn [map List.filter]. destruct (f b); [|exact IH].
  cbn [length]. by rewrite IH.
Qed.

Lemma sorted_by_key_head_first {A : Type} (key : A -> Z) (x : A) (r : list A) :
  Forall (fun y => key x <= key y) r ->
  head (Py.sorted_by_key key (x :: r)) = Some x.
Proof.
  intros H. unfold Py.sorted_by_key. cbn [Py.sorted].
  apply (sorted_Forall (fun a b => key a <=? key b)) in H.
  destruct (Py.sorted _ r) as [|y l]; [done|]. cbn [Py.insert_sorted].
  inversion H as [|? ? Hy _]; subst.
  by destruct (Z.leb_spec (key x) (key y)); [|lia].
Qed.

Lemma sorted_by_key_head_least {A : Type} `{EqDecision A}
      (key : A -> Z) (l : list A) (x : A) :
  x ∈ l -> (forall y, y ∈ l -> y <> x -> key x < key y) ->
  head (Py.sorted_by_key key l) = Some x.
Proof.
  intros Hx Hleast.
  pose proof (sorted_by_key_perm key l) as Hperm.
  pose proof (sorted_by_key_sorted key l) as Hsorted.
  destruct (Py.sorted_by_key key l) as [|h rest].
  { apply Permutation_nil in Hperm. subst l. by apply elem_of_nil in Hx. }
  cbn [head]. f_equal. destruct (decide (h = x)) as [|Hne]; [done|].
  assert (Hh : h ∈ l). { apply (perm_elem_of _ _ _ Hperm), list_elem_of_here. }
  specialize (Hleast h Hh Hne).
  apply (perm_elem_of _ _ _ (Permutation_sym Hperm)) in Hx.
  apply elem_of_cons in Hx as [->|Hx]; [done|].
  destruct Hsorted as [Hhead _].
  apply (proj1 (Forall_forall _ _) Hhead) in Hx. lia.
Qed.

(** Every row that [ranking_answer] admits is the answer of the ranking
    query for some order of the groups. *)
Lemma ranking_query_complete (prof : Profile) (device : Z) (row : option (Z * nat)) :
  ranking_answer prof device row ->
  exists tie_key, ranking_query tie_key prof device = row.
Proof.
  destruct row as [[tid cnt]|]; cbn [ranking_answer].
  - intros (Hin & -> & Hmax).
    exists (fun t => if t =? tid then 0 else 1). unfold ranking_query.
    set (k1 := fun g : Z * nat => if g.1 =? tid then 0 else 1).
    set (gs := ranking_groups prof device).
    assert (Hgs : forall g, g ∈ gs <->
                    g.1 ∈ map r_globalTid (launches_on prof device) /\
                    g.2 = launch_count prof device g.1).
    { intros [t c]. subst gs. unfold ranking_groups.
      rewrite list_elem_of_fmap. setoid_rewrite elem_of_remove_dups. cbn [fst snd].
      split.
      - intros (t' & Heq & Ht'). injection Heq as -> ->. done.
      - intros [Ht ->]. by exists t. }
    assert (Hhead : head (Py.sorted_by_key k1 gs)
                    = Some (tid, launch_count prof device tid)).
    { apply sorted_by_key_head_least.
      - by apply Hgs.
      - intros [t c] Hg Hne. apply Hgs in Hg as [_ Hc]. cbn [fst snd] in Hc.
        subst k1. cbn [fst]. rewrite Z.eqb_refl.
        destruct (Z.eqb_spec t tid) as [->|]; [|lia].
        destruct Hne. by rewrite Hc. }
    pose proof (sorted_by_key_perm k1 gs) as Hperm.
    destruct (Py.sorted_by_key k1 gs) as [|g rest]; [done|].
    injection Hhead as ->.
    apply sorted_by_key_head_first, Forall_forall. intros [t c] Hg.
    assert (Hg' : (t, c) ∈ gs).
    { apply (perm_elem_of _ _ _ Hperm). by apply list_elem_of_further. }
    apply Hgs in Hg' as [Ht Hc]. cbn [fst snd] in *. subst c.
    apply list_elem_of_fmap in Ht as (r & -> & Hr).
    apply (proj1 (Forall_forall _ _) Hmax) in Hr. lia.
  - intros Hnone. exists (fun t => t). unfold ranking_query, ranking_groups.
    by rewrite Hnone.
Qed.

(** A call correlated to some kernel of the device contributes at least
    one row to the join; with at most one kernel per call, exactly one. *)
Lemma launch_count_calls (prof : Profile) (device tid : Z) :
  (launch_calls prof device tid <= launch_count prof device tid)%nat /\
  (one_kernel_per_call prof device ->
   launch_count prof device tid = launch_calls prof device tid).
Proof.
  unfold launch_calls, launch_count, launches_on, one_kernel_per_call,
    launches_kernel_on.
  induction (RUNTIME prof) as [|r rows IH]; [split; [done|done]|].
  destruct IH as [IHle IHeq].
  cbn [flat_map List.filter].
  rewrite List.filter_app, length_app, existsb_filter_length,
    (filter_constant_rows (fun r' => r_globalTid r' =? tid) r).
  set (ks := List.filter
               (fun k => (r_correlationId r =? k_correlationId k) &&
                         (k_deviceId k =? device)) (KERNEL prof)).
  split.
  - destruct (r_globalTid r =? tid); cbn [andb]; [|lia].
    destruct (length ks); cbn [Nat.eqb negb length]; lia.
  - intros Hone. inversion Hone as [|? ? Hr Hrest]; subst.
    specialize (IHeq Hrest). cbn zeta in Hr. fold ks in Hr.
    destruct (r_globalTid r =? tid); cbn [andb]; [|lia].
    destruct (length ks) as [|[|n]]; cbn [Nat.eqb negb length]; lia.
Qed.

(** Counterexample to C2 as stated: threads 1 and 2 tie with one launch
    each; the row of thread 2 is a possible answer of the ranking query,
    the one it gives when the store produces the group of thread 2 first,
    and with it the selected thread is 2, not the smaller 1. *)
Lemma primary_thread_tie_not_smallest :
  launch_count tie_profile 0 1 = launch_count tie_profile 0 2 /\
  ranking_answer tie_profile 0 (Some (2, 1%nat)) /\
  ranking_query Z.opp tie_profile 0 = Some (2, 1%nat) /\
  _find_primary_thread (fun _ _ => Some (2, 1%nat)) tie_profile 0 = 2 /\
  ~ (forall top_launcher,
       ranking_answer tie_profile 0 (top_launcher tie_profile 0) ->
       forall tid,
         launch_count tie_profile 0 tid
         = launch_count tie_profile 0 (_find_primary_thread top_launcher tie_profile 0) ->
         _find_primary_thread top_launcher tie_profile 0 <= tid).
Proof.
  assert (Hans : ranking_answer tie_profile 0 (Some (2, 1%nat))).
  { split; [|split].
    - vm_compute. set_solver.
    - reflexivity.
    - repeat constructor. }
  split; [reflexivity|]. split; [exact Hans|]. split; [reflexivity|].
  split; [reflexivity|].
  intros H. specialize (H (fun _ _ => Some (2, 1%nat)) Hans 1 eq_refl).
  vm_compute in H. by apply H.
Qed.

(** The count of the ranking query is a count of join rows, not of
    calls: thread 1 makes one launch call and thread 2 two, yet thread 1
    has three rows in the join and is selected, whatever the order of the
    groups. *)
Lemma primary_thread_fewer_calls :
  launch_calls fanout_profile 0 1 = 1%nat /\
  launch_calls fanout_profile 0 2 = 2%nat /\
  launch_count fanout_profile 0 1 = 3%nat /\
  launch_count fanout_profile 0 2 = 2%nat /\
  forall tie_key, _find_primary_thread (ranking_query tie_key) fanout_profile 0 = 1.
Proof.
  do 4 (split; [reflexivity|]).
  intros tie_key. unfold _find_primary_thread, ranking_query.
  change (ranking_groups fanout_profile 0) with [(1, 3%nat); (2, 2%nat)].
  unfold Py.sorted_by_key. cbn [Py.sorted Py.insert_sorted fst snd].
  destruct (tie_key 1 <=? tie_key 2); reflexivity.
Qed.

(** C2 (amended). The ranking query is computed from the tables: it
    groups the rows of the join of runtime calls with the kernels of the
    device by thread and takes the first group by descending count.  The
    selected thread is a thread with the maximum number of join rows,
    whichever of the tied threads the store produces first ([tie_key]
    is arbitrary); with no row in the join the selection is [0], which the
    tree builder takes as "no primary thread" (it returns no tree).  The
    number of join rows of a thread is at least the number of its launch
    calls on the device, and equal to it when no call is correlated to
    two kernels of the device.  Every thread with the maximum number of
    join rows is selected for some order of the groups. *)
Theorem primary_thread_max (tie_key : Z -> Z) (prof : Profile) (device : Z) :
  let top_launcher := ranking_query tie_key in
  let tid := _find_primary_thread top_launcher prof device in
  ranking_answer prof device (top_launcher prof device) /\
  (launches_on prof device = [] -> tid = 0) /\
  (launches_on prof device <> [] ->
   top_launcher prof device = Some (tid, launch_count prof device tid) /\
   tid ∈ gpu_threads prof device /\
   (0 < launch_count prof device tid)%nat /\
   forall tid', (launch_count prof device tid' <= launch_count prof device tid)%nat) /\
  (tid = 0 -> forall trim pad, build_nvtx_tree top_launcher prof device trim pad = []) /\
  (forall row, ranking_answer prof device row ->
               exists tie_key', ranking_query tie_key' prof device = row) /\
  (forall tid', (launch_calls prof device tid' <= launch_count prof device tid')%nat) /\
  (one_kernel_per_call prof device ->
   forall tid', launch_count prof device tid' = launch_calls prof device tid').
Proof.
  intros top_launcher tid. subst tid.
  assert (Hrow := ranking_query_answer tie_key prof device).
  fold top_launcher in Hrow. unfold _find_primary_thread.
  split; [exact Hrow|]. split; [|split; [|split; [|split; [|split]]]].
  - intros Hnone. destruct (top_launcher prof device) as [[tid cnt]|]; [|done].
    destruct Hrow as [Hin _]. rewrite Hnone in Hin. by apply elem_of_nil in Hin.
  - intros Hsome. destruct (top_launcher prof device) as [[tid cnt]|]; [|done].
    destruct Hrow as (Hin & -> & Hmax).
    assert (Hpos : (0 < launch_count prof device tid)%nat).
    { unfold launch_count. apply list_elem_of_In, in_map_iff in Hin as (r & <- & Hr).
      assert (Hrin : In r (List.filter (fun r' => r_globalTid r' =? r_globalTid r)
                                       (launches_on prof device))).
      { apply filter_In. split; [done | apply Z.eqb_refl]. }
      destruct (List.filter _ _); [done | simpl; lia]. }
    split; [done|]. split; [|split; [done|]].
    + unfold gpu_threads. by apply elem_of_list_to_set.
    + intros tid'.
      destruct (decide (tid' ∈ map r_globalTid (launches_on prof device))) as [Hin'|Hout].
      * apply list_elem_of_In, in_map_iff in Hin' as (r & <- & Hr).
        apply (proj1 (Forall_forall _ _) Hmax). by apply list_elem_of_In.
      * rewrite (launch_count_absent _ _ _ Hout). lia.
  - intros Hz trim pad. unfold build_nvtx_tree, _find_primary_thread.
    destruct (decide (kernel_map prof device = ∅)); [done|].
    by rewrite Hz.
  - apply ranking_query_complete.
  - intros tid'. apply launch_count_calls.
  - intros Hone tid'. by apply launch_count_calls.
Qed.

(** The selection on the profile with two tied threads, when the store
    produces the group of thread 2 first: thread 2, with its one row. *)
Lemma primary_thread_max_witness :
  _find_primary_thread (ranking_query Z.opp) tie_profile 0 = 2 /\
  ranking_query Z.opp tie_profile 0
  = Some (2, launch_count tie_profile 0 2) /\
  forall tid', (launch_count tie_profile 0 tid' <= launch_count tie_profile 0 2)%nat.
Proof.
  pose proof (primary_thread_max Z.opp tie_profile 0) as (_ & _ & H & _).
  split; [reflexivity|].
  destruct H as (Hq & _ & _ & Hmax); [done|].
  split; [exact Hq | exact Hmax].
Defined.

(** ** Iteration detection *)

Lemma keep_top_level_chain (last_end : Z) (rows : list NvtxRow) :
  starts_after last_end (keep_top_level last_end rows).
Proof.
  revert last_end. induction rows as [|n r IH]; intros last_end; [done|].
  cbn [keep_top_level]. destruct (Z.leb_spec last_end (n_start n)); [|apply IH].
  split; [done | apply IH].
Qed.

Lemma keep_top_level_starts (last_end : Z) (rows : list NvtxRow) :
  0 <= last_end ->
  Forall (fun n => n_start n < n_end n) rows ->
  Forall (fun n => 0 <= n_start n) (keep_top_level last_end rows).
Proof.
  intros Hlast Hrows. revert last_end Hlast.
  induction Hrows as [|n r Hn _ IH]; intros last_end Hlast; [constructor|].
  cbn [keep_top_level]. destruct (Z.leb_spec last_end (n_start n)).
  - constructor; [lia|]. apply IH. lia.
  - by apply IH.
Qed.

Lemma keep_top_level_sublist (last_end : Z) (rows : list NvtxRow) :
  sublist (keep_top_level last_end rows) rows.
Proof.
  revert last_end. induction rows as [|n r IH]; intros last_end; [constructor|].
  cbn [keep_top_level]. destruct (last_end <=? n_start n).
  - apply sublist_skip, IH.
  - apply sublist_cons, IH.
Qed.

Lemma marker_rows_positive (prof : Profile) (marker : string) (tid : Z)
      (window : Z * Z) :
  Forall (fun n => n_start n < n_end n) (marker_rows prof marker tid window).
Proof.
  unfold marker_rows, Py.sorted_by_key. apply sorted_Forall.
  apply Forall_forall. intros n Hn.
  apply list_elem_of_In, filter_In in Hn as [_ Hn].
  repeat (apply andb_prop in Hn as [Hn ?]). lia.
Qed.

(** C10. The marker scopes that iteration detection keeps form a chain
    (each starts at or after the end of the one kept before it) whose
    first threshold is [0], so every kept marker starts at a
    non-negative time; and there is a trace with negative timestamps
    whose two non-overlapping marker scopes, each with a correlated
    kernel, are all discarded and give no iteration, while the same
    trace moved to positive timestamps gives two. *)
Theorem kept_markers_nonnegative :
  (forall top_launcher prof device trim marker,
     let kept := kept_markers top_launcher prof device trim marker in
     starts_after 0 kept /\ Forall (fun n => 0 <= n_start n) kept) /\
  (let top_launcher := fun (_ : Profile) (_ : Z) => Some (1, 2%nat) in
   let prof := marker_profile 0 in
   let rows := marker_rows prof "sample_0" 1 (-900 - 5000000000, -200) in
   ranking_answer prof 0 (top_launcher prof 0) /\
   length rows = 2%nat /\
   Forall (fun n => n_end n < 0) rows /\
   keep_top_level (-900 - 5000000000) rows = rows /\
   kept_markers top_launcher prof 0 None "sample_0" = [] /\
   detect_iterations round_half_even top_launcher prof 0 None "sample_0" = [] /\
   length (detect_iterations round_half_even top_launcher (marker_profile 2000) 0
                             None "sample_0") = 2%nat).
Proof.
  split.
  - intros top_launcher prof device trim marker kept. subst kept.
    unfold kept_markers. split.
    + apply keep_top_level_chain.
    + apply keep_top_level_starts; [lia | apply marker_rows_positive].
  - cbv zeta. split; [|split; [|split; [|split; [|split; [|split]]]]].
    + split; [|split].
      * vm_compute. set_solver.
      * reflexivity.
      * repeat constructor.
    + reflexivity.
    + vm_compute. repeat constructor.
    + reflexivity.
    + reflexivity.
    + vm_compute. reflexivity.
    + vm_compute. reflexivity.
Qed.

(** ** Nesting depth in the projector *)

Lemma filter_length_perm {A : Type} (f : A -> bool) (l l' : list A) :
  Permutation l l' -> length (List.filter f l) = length (List.filter f l').
Proof.
  induction 1 as [|x l l' _ IH|x y l|l l' l'' _ IH1 _ IH2]; simpl.
  - done.
  - destruct (f x); simpl; by rewrite IH.
  - destruct (f x), (f y); done.
  - by rewrite IH1.
Qed.

Lemma filter_length_le {A : Type} (f g : A -> bool) (l : list A) :
  (forall x, x ∈ l -> g x = true -> f x = true) ->
  (length (List.filter g l) <= length (List.filter f l))%nat.
Proof.
  induction l as [|x r IH]; intros H; simpl; [done|].
  assert (IH' : (length (List.filter g r) <= length (List.filter f r))%nat).
  { apply IH. intros y Hy. apply H. by right. }
  destruct (g x) eqn:Eg.
  - rewrite (H x ltac:(left) Eg). simpl. lia.
  - destruct (f x); simpl; lia.
Qed.

Lemma insert_desc_sorted (x : Z) (l : list Z) :
  desc_sorted l -> desc_sorted (Py.insert_sorted (fun x y => y <=? x) x l).
Proof.
  induction l as [|y r IH]; [done|]. intros [Hy Hr]. cbn [Py.insert_sorted].
  destruct (Z.leb_spec y x).
  - split; [|done]. constructor; [done|].
    eapply Forall_impl; [exact Hy|]. simpl. intros; lia.
  - split; [|by apply IH].
    rewrite insert_sorted_perm. constructor; [lia | done].
Qed.

Lemma sorted_desc_sorted (l : list Z) : desc_sorted (Py.sorted (fun x y => y <=? x) l).
Proof. induction l as [|x r IH]; [done|]. by apply insert_desc_sorted. Qed.

(** On a stack sorted in descending order the pops remove exactly the end
    times that are not after [start]. *)
Lemma pop_closed_sorted (stk : list Z) (start : Z) :
  desc_sorted stk -> pop_closed stk start = List.filter (fun x => start <? x) stk.
Proof.
  induction stk as [|x r IH]; [done|]. intros [Hx Hr]. cbn [pop_closed List.filter].
  rewrite (IH Hr).
  destruct (List.filter (fun y => start <? y) r) as [|y r'] eqn:E.
  - destruct (Z.leb_spec x start), (Z.ltb_spec start x); (done || lia).
  - assert (Hy : In y (List.filter (fun y => start <? y) r)) by (rewrite E; by left).
    apply filter_In in Hy as [Hy Hgt]. apply Z.ltb_lt in Hgt.
    pose proof (proj1 (Forall_forall _ _) Hx y (proj2 (list_elem_of_In _ _) Hy)) as Hle.
    cbn beta in Hle. destruct (Z.ltb_spec start x); [done | lia].
Qed.

Lemma count_gt_filter (stk : list Z) (start s : Z) :
  start <= s ->
  count_gt (List.filter (fun x => start <? x) stk) s = count_gt stk s.
Proof.
  intros H. unfold count_gt. induction stk as [|x r IH]; [done|]. simpl.
  destruct (Z.ltb_spec start x); simpl; destruct (Z.ltb_spec s x); simpl; lia.
Qed.

Lemma count_open_app (h : list NvtxRow) (n : NvtxRow) (tid s : Z) :
  count_open (h ++ [n]) tid s
  = (count_open h tid s
     + (if ((n_globalTid n =? tid) && (s <? n_end n))%Z then 1 else 0))%nat.
Proof.
  unfold count_open. rewrite List.filter_app, length_app. simpl.
  by destruct ((n_globalTid n =? tid) && (s <? n_end n)).
Qed.

(** [_compute_depth] returns the number of earlier scopes of the thread
    that are still open, and keeps the stacks in step with the history. *)
Lemma compute_depth_represents (stacks : gmap Z (list Z)) (h : list NvtxRow)
      (s0 : Z) (n : NvtxRow) :
  represents stacks h s0 -> s0 <= n_start n ->
  let (stacks', depth) := _compute_depth stacks (n_globalTid n) (n_start n) (n_end n) in
  depth = count_open h (n_globalTid n) (n_start n) /\
  represents stacks' (h ++ [n]) (n_start n).
Proof.
  intros Hrep Hs0. unfold _compute_depth.
  destruct (Hrep (n_globalTid n)) as [Hsorted Hcount].
  set (stk := default [] (stacks !! n_globalTid n)) in *.
  rewrite (pop_closed_sorted stk _ Hsorted). split.
  - by apply Hcount.
  - intros tid. destruct (decide (n_globalTid n = tid)) as [<-|Hne].
    + rewrite lookup_insert_eq. simpl. split; [apply sorted_desc_sorted|].
      intros s Hs. unfold count_gt at 1.
      rewrite (filter_length_perm _ _ _ (sorted_perm _ _)).
      rewrite List.filter_app, length_app. fold (count_gt (List.filter (fun x => n_start n <? x) stk) s).
      rewrite count_gt_filter by done. rewrite Hcount by lia.
      rewrite count_open_app, Z.eqb_refl. simpl.
      by destruct (s <? n_end n).
    + rewrite lookup_insert_ne by done. destruct (Hrep tid) as [Hsorted' Hcount'].
      split; [done|]. intros s Hs. rewrite Hcount' by lia.
      rewrite count_open_app. destruct (Z.eqb_spec (n_globalTid n) tid); [done|].
      simpl. lia.
Qed.

Lemma project_scope_depth (kmap : gmap Z KernelInfo) (rt_idx : gmap Z (list RuntimeRow))
      (trim : Z * Z) (stacks : gmap Z (list Z)) (text : string) (n : NvtxRow) :
  let '(stacks', depth, row) := project_scope kmap rt_idx trim stacks text n in
  (stacks', depth) = _compute_depth stacks (n_globalTid n) (n_start n) (n_end n) /\
  forall r, row = Some r -> p_depth r = depth.
Proof.
  unfold project_scope.
  destruct (_compute_depth stacks (n_globalTid n) (n_start n) (n_end n)) as [stacks' depth].
  destruct (correlated kmap _ _ _) as [|k ks].
  - split; [done|]. intros r. destruct (_ && _); [|done]. by intros [= <-].
  - split; [done|]. intros r. destruct (_ && _); [|done]. by intros [= <-].
Qed.

(** The depth of every processed scope is the number of scopes of its
    thread processed before it that are still open when it starts. *)
Lemma project_loop_depths (kmap : gmap Z KernelInfo) (rt_idx : gmap Z (list RuntimeRow))
      (trim : Z * Z) (nvtx : list NvtxRow) :
  forall stacks h s0,
    represents stacks h s0 ->
    key_sorted n_start nvtx ->
    Forall (fun n => s0 <= n_start n) nvtx ->
    forall l1 item l2,
      project_loop kmap rt_idx trim stacks nvtx = l1 ++ item :: l2 ->
      item.1.2 = count_open (h ++ map scope_of l1)
                            (n_globalTid (scope_of item)) (n_start (scope_of item)) /\
      forall r, item.2 = Some r -> p_depth r = item.1.2.
Proof.
  induction nvtx as [|n rest IH]; intros stacks h s0 Hrep Hsorted Hs0 l1 item l2 Hloop.
  - by destruct l1.
  - destruct Hsorted as [Hge Hsorted]. inversion Hs0 as [|? ? Hn Hrest]; subst.
    cbn [project_loop] in Hloop. destruct (nonempty_text n) as [text|].
    + pose proof (project_scope_depth kmap rt_idx trim stacks text n) as Hscope.
      destruct (project_scope kmap rt_idx trim stacks text n) as [[stacks' depth] row].
      destruct Hscope as [Hcd Hrow].
      pose proof (compute_depth_represents stacks h s0 n Hrep Hn) as Hstep.
      rewrite <- Hcd in Hstep. destruct Hstep as [Hdepth Hrep'].
      destruct l1 as [|x l1].
      * injection Hloop as <- _. simpl. rewrite app_nil_r. done.
      * injection Hloop as <- Hloop. cbn [map].
        change (scope_of (n, depth, row)) with n.
        replace (h ++ n :: map scope_of l1) with ((h ++ [n]) ++ map scope_of l1)
          by (by rewrite <- app_assoc).
        eapply (IH stacks' (h ++ [n]) (n_start n)); [done | done | | exact Hloop].
        exact Hge.
    + eapply (IH stacks h s0); eauto.
Qed.

Lemma represents_empty (s0 : Z) : represents ∅ [] s0.
Proof. intros tid. rewrite lookup_empty. simpl. done. Qed.

Lemma nvtx_events_from (prof : Profile) (threads : gset Z) (window : Z * Z) :
  Forall (fun n => window.1 <= n_start n) (nvtx_events prof threads window).
Proof.
  unfold nvtx_events, Py.sorted_by_key. apply sorted_Forall.
  apply Forall_forall. intros n Hn.
  apply list_elem_of_In, filter_In in Hn as [_ Hn].
  repeat (apply andb_prop in Hn as [Hn ?]). lia.
Qed.

Lemma outer_first_app (l1 : list NvtxRow) (a : NvtxRow) (r : list NvtxRow) :
  outer_first (l1 ++ a :: r) ->
  forall x, x ∈ l1 -> n_globalTid a = n_globalTid x ->
    n_end x <= n_start a \/ n_end a <= n_end x.
Proof.
  induction l1 as [|y l1 IH]; intros H x Hx Htid.
  - by apply elem_of_nil in Hx.
  - destruct H as [Hy H]. apply elem_of_cons in Hx as [->|Hx]; [|by apply IH].
    apply (proj1 (Forall_forall _ _) Hy a); [|done].
    apply elem_of_app. right. by left.
Qed.

(** Counterexample to C9 as stated: the scopes are in start-time order
    and obey the stack discipline; [[0,10]] is the one scope containing
    [[6,8]], yet both are emitted at depth 1. *)
Lemma equal_start_same_depth :
  let trace := project_trace equal_start_profile 0 (0, 1000) 0 in
  map (fun item => (n_start (scope_of item), n_end (scope_of item), item.1.2)) trace
  = [ (0, 5, 0%nat); (0, 10, 1%nat); (6, 8, 1%nat) ] /\
  key_sorted n_start (map scope_of trace) /\
  stack_discipline (map scope_of trace) /\
  map (fun r => (p_start r, p_end r, p_depth r, p_projected r))
      (project_nvtx equal_start_profile 0 (0, 1000) 0)
  = [ (100, 200, 0%nat, true); (100, 200, 1%nat, true); (6, 8, 1%nat, false) ].
Proof.
  cbv zeta.
  assert (Htrace : map scope_of (project_trace equal_start_profile 0 (0, 1000) 0)
                   = NVTX_EVENTS equal_start_profile) by (vm_compute; reflexivity).
  split; [vm_compute; reflexivity|]. split; [|split].
  - rewrite Htrace. simpl. repeat split; repeat constructor; simpl; lia.
  - rewrite Htrace. intros a b Ha Hb _. simpl in Ha, Hb.
    repeat (apply elem_of_cons in Ha as [->|Ha]);
      repeat (apply elem_of_cons in Hb as [->|Hb]);
      try (by apply elem_of_nil in Ha); try (by apply elem_of_nil in Hb);
      simpl; lia.
  - vm_compute. reflexivity.
Qed.

(** C9 (amended). Depths are natural numbers, an emitted row carries the
    depth computed for its scope, and when a scope precedes in
    processing order the scopes of its thread that it contains, every
    scope is deeper than each earlier scope of its thread that is still
    open when it starts (so deeper than its immediate container). *)
Theorem depth_monotone (prof : Profile) (device : Z) (trim : Z * Z) (pad : Z)
        (Horder : outer_first (map scope_of (project_trace prof device trim pad))) :
  let trace := project_trace prof device trim pad in
  (kernel_map prof device <> ∅ ->
   project_nvtx prof device trim pad
   = omap (fun item : NvtxRow * nat * option ProjectedRow => item.2) trace) /\
  (forall item row, item ∈ trace -> item.2 = Some row ->
     p_depth row = item.1.2 /\ (0 <= p_depth row)%nat) /\
  (forall l1 a l2 s l3,
     trace = l1 ++ a :: l2 ++ s :: l3 ->
     n_globalTid (scope_of a) = n_globalTid (scope_of s) ->
     n_start (scope_of s) < n_end (scope_of a) ->
     (a.1.2 < s.1.2)%nat /\
     forall ra rs, a.2 = Some ra -> s.2 = Some rs -> (p_depth ra < p_depth rs)%nat).
Proof.
  intros trace.
  assert (Hdepths : forall l1 item l2,
             trace = l1 ++ item :: l2 ->
             item.1.2 = count_open (map scope_of l1)
                          (n_globalTid (scope_of item)) (n_start (scope_of item)) /\
             forall r, item.2 = Some r -> p_depth r = item.1.2).
  { intros l1 item l2 E. subst trace. unfold project_trace in E.
    eapply (project_loop_depths _ _ _
              (nvtx_events prof (gpu_threads prof device) (trim.1 - pad, trim.2))
              ∅ [] (trim.1 - pad));
      [ apply represents_empty
      | apply sorted_by_key_sorted
      | apply (nvtx_events_from prof _ (trim.1 - pad, trim.2))
      | exact E ]. }
  split; [|split].
  - intros Hk. unfold project_nvtx. by rewrite decide_False.
  - intros item row Hin Hrow. apply list_elem_of_split in Hin as (l1 & l2 & E).
    destruct (Hdepths l1 item l2 E) as [_ H]. split; [by apply H | lia].
  - intros l1 a l2 s l3 E Htid Hopen.
    destruct (Hdepths l1 a (l2 ++ s :: l3) E) as [Ha Hra].
    assert (E' : trace = (l1 ++ a :: l2) ++ s :: l3) by (by rewrite <- app_assoc).
    destruct (Hdepths _ s l3 E') as [Hs Hrs].
    assert (Hlt : (a.1.2 < s.1.2)%nat).
    { rewrite Ha, Hs. unfold count_open.
      rewrite map_app, List.filter_app, length_app. cbn [map List.filter].
      rewrite <- Htid, Z.eqb_refl. rewrite (proj2 (Z.ltb_lt _ _) Hopen). simpl.
      pose proof (filter_length_le
                    (fun x => (n_globalTid x =? n_globalTid (scope_of a))
                              && (n_start (scope_of s) <? n_end x))
                    (fun x => (n_globalTid x =? n_globalTid (scope_of a))
                              && (n_start (scope_of a) <? n_end x))
                    (map scope_of l1)) as Hle.
      cut (forall x, x ∈ map scope_of l1 ->
             (n_globalTid x =? n_globalTid (scope_of a))
             && (n_start (scope_of a) <? n_end x) = true ->
             (n_globalTid x =? n_globalTid (scope_of a))
             && (n_start (scope_of s) <? n_end x) = true);
        [intros Hcut; specialize (Hle Hcut); lia|].
      intros x Hx Hg.
      apply andb_prop in Hg as [Hxt Hxe]. rewrite Hxt. simpl.
      apply Z.eqb_eq in Hxt. apply Z.ltb_lt in Hxe. apply Z.ltb_lt.
      fold trace in Horder. rewrite E, map_app in Horder. cbn [map] in Horder.
      destruct (outer_first_app _ _ _ Horder x Hx ltac:(done)); lia. }
    split; [done|]. intros ra rs Hra' Hrs'.
    rewrite (Hra _ Hra'), (Hrs _ Hrs'). done.
Qed.

(** Depths 0, 1, 2, 1 on the nested scopes. *)
Lemma depth_monotone_witness :
  let trace := project_trace nested_profile 0 (0, 1000) 0 in
  ((kernel_map nested_profile 0 <> ∅ ->
    project_nvtx nested_profile 0 (0, 1000) 0
    = omap (fun item : NvtxRow * nat * option ProjectedRow => item.2) trace) /\
   (forall item row, item ∈ trace -> item.2 = Some row ->
      p_depth row = item.1.2 /\ (0 <= p_depth row)%nat) /\
   (forall l1 a l2 s l3,
      trace = l1 ++ a :: l2 ++ s :: l3 ->
      n_globalTid (scope_of a) = n_globalTid (scope_of s) ->
      n_start (scope_of s) < n_end (scope_of a) ->
      (a.1.2 < s.1.2)%nat /\
      forall ra rs, a.2 = Some ra -> s.2 = Some rs -> (p_depth ra < p_depth rs)%nat)) /\
  map p_depth (project_nvtx nested_profile 0 (0, 1000) 0) = [0; 1; 2; 1]%nat.
Proof.
  split.
  - apply (depth_monotone nested_profile 0 (0, 1000) 0).
    assert (Htrace : map scope_of (project_trace nested_profile 0 (0, 1000) 0)
                     = NVTX_EVENTS nested_profile) by (vm_compute; reflexivity).
    rewrite Htrace. simpl. repeat split; repeat constructor; simpl; lia.
  - vm_compute. reflexivity.
Defined.

(** ** Trees: kernel start times *)

Lemma Node_forest_ind (P : Node -> Prop) :
  (forall k, P (Kernel k)) ->
  (forall name start end_ children,
      Forall P children -> P (Nvtx name start end_ children)) ->
  forall n, P n.
Proof.
  intros Hk Hn. fix IH 1. intros [k|name start end_ children].
  - apply Hk.
  - apply Hn. induction children as [|c r IHr]; constructor; [apply IH | exact IHr].
Qed.

Lemma fold_right_and_Forall {A : Type} (P : A -> Prop) (l : list A) :
  fold_right (fun c Q => P c /\ Q) True l <-> Forall P l.
Proof.
  induction l as [|x r IH]; simpl.
  - split; [constructor | done].
  - rewrite IH. split; [intros []; by constructor | by inversion 1].
Qed.

Lemma elem_of_direct_starts (x : Z) (children : list Node) :
  x ∈ direct_starts children <-> exists k, Kernel k ∈ children /\ ki_start k = x.
Proof.
  unfold direct_starts. rewrite elem_of_union_list. split.
  - intros (X & HX & Hx). apply list_elem_of_In, in_map_iff in HX as (c & <- & Hc).
    destruct c as [k|]; [|set_solver].
    exists k. split; [by apply list_elem_of_In | set_solver].
  - intros (k & Hk & <-). exists {[ki_start k]}. split; [|set_solver].
    apply list_elem_of_In, in_map_iff. exists (Kernel k).
    split; [done | by apply list_elem_of_In].
Qed.

Lemma elem_of_claimed (x : Z) (children : list Node) :
  x ∈ claimed_by_children children
  <-> exists c, c ∈ children /\ x ∈ collect_kernel_starts c.
Proof.
  unfold claimed_by_children. rewrite elem_of_union_list. split.
  - intros (X & HX & Hx). apply list_elem_of_In, in_map_iff in HX as (c & <- & Hc).
    exists c. split; [by apply list_elem_of_In|].
    destruct c; simpl in *; set_solver.
  - intros (c & Hc & Hx). exists (collect_kernel_starts c). split; [|done].
    apply list_elem_of_In, in_map_iff. exists c. split; [|by apply list_elem_of_In].
    destruct c; [|done]. simpl in Hx. set_solver.
Qed.

(** The start times below a scope: of its own leaves and of the scopes
    under it. *)
Lemma elem_of_collect (x : Z) (name : string) (start end_ : Z) (children : list Node) :
  x ∈ collect_kernel_starts (Nvtx name start end_ children)
  <-> x ∈ direct_starts children \/ x ∈ claimed_by_children children.
Proof.
  rewrite elem_of_direct_starts, elem_of_claimed.
  cbn [collect_kernel_starts]. rewrite elem_of_union_list. split.
  - intros (X & HX & Hx). apply list_elem_of_In, in_map_iff in HX as (c & <- & Hc).
    apply list_elem_of_In in Hc. destruct c as [k|n s e ch].
    + left. exists k. split; [done | set_solver].
    + right. by exists (Nvtx n s e ch).
  - intros [(k & Hk & <-)|(c & Hc & Hx)].
    + exists {[ki_start k]}. split; [|set_solver].
      apply list_elem_of_In, in_map_iff. exists (Kernel k).
      split; [done | by apply list_elem_of_In].
    + destruct c as [k|n s e ch]; [simpl in Hx; set_solver|].
      exists (collect_kernel_starts (Nvtx n s e ch)). split; [|done].
      apply list_elem_of_In, in_map_iff. exists (Nvtx n s e ch).
      split; [done | by apply list_elem_of_In].
Qed.

(** ** Deduplication *)

Lemma dedup_node_unfold (name : string) (start end_ : Z) (children : list Node) :
  dedup_node (Nvtx name start end_ children)
  = Nvtx name start end_ (dedup_children (claimed_by_children children) children).
Proof.
  cbn [dedup_node]. f_equal. unfold dedup_children.
  generalize (claimed_by_children children) as claimed. intros claimed.
  induction children as [|c r IH]; [done|]. cbn [List.filter].
  destruct (keeps claimed c); cbn [map]; by rewrite IH.
Qed.

Lemma dedup_node_kernel (n : Node) (k : KernelInfo) :
  dedup_node n = Kernel k -> n = Kernel k.
Proof. destruct n; [done|]. by rewrite dedup_node_unfold. Qed.

Lemma elem_of_dedup_children (claimed : gset Z) (children : list Node) (c' : Node) :
  c' ∈ dedup_children claimed children ->
  exists c, c ∈ children /\ keeps claimed c = true /\ c' = dedup_node c.
Proof.
  unfold dedup_children. intros H.
  apply list_elem_of_In, in_map_iff in H as (c & <- & Hc).
  apply filter_In in Hc as [Hc Hk]. exists c. by rewrite list_elem_of_In.
Qed.

Lemma filter_all {A : Type} (l : list A) : List.filter (fun _ => true) l = l.
Proof. induction l as [|x r IH]; simpl; [done | by rewrite IH]. Qed.

(** ** Ordering the children *)

Lemma sort_node_kernel (n : Node) (k : KernelInfo) :
  sort_node n = Kernel k <-> n = Kernel k.
Proof. destruct n; simpl; split; congruence. Qed.

Lemma sort_node_start (n : Node) : node_start (sort_node n) = node_start n.
Proof. by destruct n. Qed.

(** Sorting the children and then descending into them, as the source
    does, gives the list [sort_node] builds. *)
Lemma sort_then_descend (children : list Node) :
  map sort_node (Py.sorted_by_key node_start children)
  = Py.sorted_by_key node_start (map sort_node children).
Proof.
  unfold Py.sorted_by_key. induction children as [|c r IH]; [done|].
  cbn [Py.sorted map]. rewrite <- IH.
  generalize (Py.sorted (fun x y => node_start x <=? node_start y) r) as l.
  intros l. induction l as [|y l IHl]; [done|]. cbn [Py.insert_sorted map].
  rewrite !sort_node_start. destruct (node_start c <=? node_start y); [done|].
  cbn [map]. by rewrite IHl.
Qed.

Lemma direct_starts_sorted (children : list Node) :
  direct_starts (Py.sorted_by_key node_start (map sort_node children))
  = direct_starts children.
Proof.
  apply set_eq. intros x. rewrite !elem_of_direct_starts.
  split; intros (k & Hk & <-); exists k; (split; [|done]).
  - rewrite sorted_by_key_perm in Hk.
    apply list_elem_of_In, in_map_iff in Hk as (c & E & Hc).
    apply sort_node_kernel in E as ->. by apply list_elem_of_In.
  - rewrite sorted_by_key_perm. apply list_elem_of_In, in_map_iff.
    exists (Kernel k). split; [done | by apply list_elem_of_In].
Qed.

Lemma claimed_sorted (children : list Node) :
  Forall (fun c => collect_kernel_starts (sort_node c) = collect_kernel_starts c)
         children ->
  claimed_by_children (Py.sorted_by_key node_start (map sort_node children))
  = claimed_by_children children.
Proof.
  intros IH. apply set_eq. intros x. rewrite !elem_of_claimed. split.
  - intros (c' & Hc' & Hx). rewrite sorted_by_key_perm in Hc'.
    apply list_elem_of_In, in_map_iff in Hc' as (c & <- & Hc).
    apply list_elem_of_In in Hc. exists c. split; [done|].
    by rewrite <- (proj1 (Forall_forall _ _) IH c Hc).
  - intros (c & Hc & Hx). exists (sort_node c). split.
    + rewrite sorted_by_key_perm. apply list_elem_of_In, in_map.
      by apply list_elem_of_In.
    + by rewrite (proj1 (Forall_forall _ _) IH c Hc).
Qed.

Lemma sort_collect (n : Node) :
  collect_kernel_starts (sort_node n) = collect_kernel_starts n.
Proof.
  induction n as [k|name start end_ children IH] using Node_forest_ind; [done|].
  cbn [sort_node]. apply set_eq. intros x. rewrite !elem_of_collect.
  by rewrite direct_starts_sorted, claimed_sorted.
Qed.

(** ** Trees: kernels and scope paths *)

Lemma elem_of_listed_below (k : KernelInfo) (children : list Node) :
  k ∈ listed_below children <-> exists c, c ∈ children /\ k ∈ kernels_below c.
Proof.
  unfold listed_below. rewrite elem_of_union_list. split.
  - intros (X & HX & Hk). apply list_elem_of_fmap in HX as (c & -> & Hc). by exists c.
  - intros (c & Hc & Hk). exists (kernels_below c). split; [|done].
    apply list_elem_of_fmap. by exists c.
Qed.

(** The kernels below a scope: its own leaves and those of the scopes
    under it. *)
Lemma elem_of_kernels_below (k : KernelInfo) (name : string) (start end_ : Z)
      (children : list Node) :
  k ∈ kernels_below (Nvtx name start end_ children)
  <-> Kernel k ∈ children \/ k ∈ listed_below children.
Proof.
  rewrite elem_of_listed_below. cbn [kernels_below]. rewrite elem_of_union_list. split.
  - intros (X & HX & Hk). apply list_elem_of_fmap in HX as (c & -> & Hc).
    destruct c as [k0|n s e ch].
    + left. apply elem_of_singleton in Hk as ->. done.
    + right. by exists (Nvtx n s e ch).
  - intros [Hk|(c & Hc & Hk)].
    + exists {[k]}. split; [|by apply elem_of_singleton].
      apply list_elem_of_fmap. by exists (Kernel k).
    + destruct c as [k0|n s e ch]; [simpl in Hk; set_solver|].
      exists (kernels_below (Nvtx n s e ch)). split; [|done].
      apply list_elem_of_fmap. by exists (Nvtx n s e ch).
Qed.

(** The start times [_collect_kernel_starts] gathers are those of the
    kernels below the node. *)
Lemma elem_of_collect_below (x : Z) (n : Node) :
  x ∈ collect_kernel_starts n <-> exists k, k ∈ kernels_below n /\ ki_start k = x.
Proof.
  induction n as [k|name start end_ children IH] using Node_forest_ind.
  - simpl. split; [set_solver | intros (k' & Hk' & _); set_solver].
  - rewrite elem_of_collect, elem_of_direct_starts, elem_of_claimed. split.
    + intros [(k & Hk & <-)|(c & Hc & Hx)].
      * exists k. split; [|done]. apply elem_of_kernels_below. by left.
      * apply (proj1 (Forall_forall _ _) IH c Hc) in Hx as (k & Hk & <-).
        exists k. split; [|done]. apply elem_of_kernels_below. right.
        apply elem_of_listed_below. by exists c.
    + intros (k & Hk & <-). apply elem_of_kernels_below in Hk as [Hk|Hk].
      * left. by exists k.
      * right. apply elem_of_listed_below in Hk as (c & Hc & Hk).
        exists c. split; [done|].
        apply (proj1 (Forall_forall _ _) IH c Hc). by exists k.
Qed.

Lemma elem_of_claimed_below (x : Z) (children : list Node) :
  x ∈ claimed_by_children children
  <-> exists k, k ∈ listed_below children /\ ki_start k = x.
Proof.
  rewrite elem_of_claimed. split.
  - intros (c & Hc & Hx). apply elem_of_collect_below in Hx as (k & Hk & <-).
    exists k. split; [|done]. apply elem_of_listed_below. by exists c.
  - intros (k & Hk & <-). apply elem_of_listed_below in Hk as (c & Hc & Hk).
    exists c. split; [done|]. apply elem_of_collect_below. by exists k.
Qed.

Lemma elem_of_sub_scopes (c : Node) (children : list Node) :
  c ∈ sub_scopes children <-> c ∈ children /\ is_nvtx c = true.
Proof. unfold sub_scopes. rewrite !list_elem_of_In. apply filter_In. Qed.

Lemma sub_scopes_lookup (children : list Node) (c : Node) :
  c ∈ children -> is_nvtx c = true -> exists i, sub_scopes children !! i = Some c.
Proof.
  intros Hc Hnv. apply (proj1 (list_elem_of_lookup _ _)), elem_of_sub_scopes. done.
Qed.

Lemma lookup_sub_scopes (children : list Node) (i : nat) (c : Node) :
  sub_scopes children !! i = Some c -> c ∈ children.
Proof.
  intros E. by apply list_elem_of_lookup_2, elem_of_sub_scopes in E as [? _].
Qed.

Lemma lists_kernel (k0 k : KernelInfo) : ~ lists (Kernel k0) k.
Proof. unfold lists. simpl. by intros H%elem_of_nil. Qed.

Lemma descend_app (p q : list nat) :
  forall n, descend (p ++ q) n = descend p n ≫= descend q.
Proof.
  induction p as [|i p IH]; intros n; [done|]. cbn [app descend].
  destruct (sub_scopes (node_children n) !! i) as [c|]; [apply IH | done].
Qed.

Lemma scope_along_app (p q : list nat) (roots : list Node) (n : Node) :
  scope_along p roots = Some n -> scope_along (p ++ q) roots = descend q n.
Proof.
  destruct p as [|i p]; [done|]. cbn [app scope_along].
  destruct (sub_scopes roots !! i) as [c|]; [|done].
  intros H. by rewrite descend_app, H.
Qed.

(** What a scope on the way down lists is below the node the way starts
    from. *)
Lemma descend_lists_below (q : list nat) :
  forall n m k, descend q n = Some m -> lists m k -> k ∈ kernels_below n.
Proof.
  induction q as [|i q IH]; intros n m k Hq Hk.
  - injection Hq as <-. destruct n as [k0|name s e ch]; [by apply lists_kernel in Hk|].
    apply elem_of_kernels_below. by left.
  - cbn [descend] in Hq.
    destruct (sub_scopes (node_children n) !! i) as [c|] eqn:E; [|done].
    apply lookup_sub_scopes in E.
    destruct n as [k0|name s e ch]; [by apply elem_of_nil in E|].
    apply elem_of_kernels_below. right. apply elem_of_listed_below.
    exists c. split; [done|]. by apply (IH c m k).
Qed.

(** A kernel below a node is listed by a scope at or below the node
    under which no scope lists it: a deepest scope that lists it. *)
Lemma deepest_claimant (n : Node) (k : KernelInfo) :
  k ∈ kernels_below n ->
  exists q m, descend q n = Some m /\ lists m k /\
              k ∉ listed_below (node_children m).
Proof.
  induction n as [k0|name start end_ children IH] using Node_forest_ind;
    [simpl; set_solver|].
  intros Hk. destruct (decide (k ∈ listed_below children)) as [Hin|Hout].
  - apply elem_of_listed_below in Hin as (c & Hc & Hkc).
    destruct (proj1 (Forall_forall _ _) IH c Hc Hkc) as (q & m & Hq & Hm & Hdeep).
    assert (Hnv : is_nvtx c = true) by (destruct c; [simpl in Hkc; set_solver | done]).
    destruct (sub_scopes_lookup _ _ Hc Hnv) as [i Hi].
    exists (i :: q), m. split; [|done]. cbn [descend node_children]. by rewrite Hi.
  - apply elem_of_kernels_below in Hk as [Hk|Hk]; [|done].
    by exists [], (Nvtx name start end_ children).
Qed.

Lemma listed_below_descend (n : Node) (k : KernelInfo) :
  k ∈ listed_below (node_children n)
  <-> exists q m, q <> [] /\ descend q n = Some m /\ lists m k.
Proof.
  rewrite elem_of_listed_below. split.
  - intros (c & Hc & Hk). destruct (deepest_claimant c k Hk) as (q & m & Hq & Hm & _).
    assert (Hnv : is_nvtx c = true) by (destruct c; [simpl in Hk; set_solver | done]).
    destruct (sub_scopes_lookup _ _ Hc Hnv) as [i Hi].
    exists (i :: q), m. split; [done|]. split; [|done]. cbn [descend]. by rewrite Hi.
  - intros (q & m & Hne & Hq & Hm). destruct q as [|i q]; [done|].
    cbn [descend] in Hq.
    destruct (sub_scopes (node_children n) !! i) as [c|] eqn:E; [|done].
    apply lookup_sub_scopes in E.
    exists c. split; [done|]. by apply (descend_lists_below q c m k).
Qed.

(** A forest lists the kernels below its roots. *)
Lemma listed_in_below (roots : list Node) (k : KernelInfo) :
  listed_in roots k <-> k ∈ listed_below roots.
Proof.
  rewrite elem_of_listed_below. split.
  - intros (p & n & Hp & Hk). destruct p as [|i p]; [done|]. cbn [scope_along] in Hp.
    destruct (sub_scopes roots !! i) as [c|] eqn:E; [|done].
    apply lookup_sub_scopes in E.
    exists c. split; [done|]. by apply (descend_lists_below p c n k).
  - intros (c & Hc & Hk). destruct (deepest_claimant c k Hk) as (q & m & Hq & Hm & _).
    assert (Hnv : is_nvtx c = true) by (destruct c; [simpl in Hk; set_solver | done]).
    destruct (sub_scopes_lookup _ _ Hc Hnv) as [i Hi].
    exists (i :: q), m. split; [|done]. cbn [scope_along]. by rewrite Hi.
Qed.

(** ** Pairwise disjoint kernel sets *)

Lemma pairwise_disjoint_lookup (l : list (gset KernelInfo)) (i j : nat)
      (X Y : gset KernelInfo) :
  pairwise_disjoint l -> i <> j -> l !! i = Some X -> l !! j = Some Y -> X ## Y.
Proof.
  revert i j. induction l as [|Z0 r IH]; intros i j Hd Hij Hi Hj; [done|].
  destruct Hd as [Hz Hr].
  destruct i as [|i], j as [|j]; simpl in *; try done.
  - injection Hi as <-. apply (proj1 (Forall_forall _ _) Hz).
    by eapply list_elem_of_lookup_2.
  - injection Hj as <-. symmetry. apply (proj1 (Forall_forall _ _) Hz).
    by eapply list_elem_of_lookup_2.
  - eapply (IH i j); eauto.
Qed.

Lemma pairwise_disjoint_perm (l l' : list (gset KernelInfo)) :
  Permutation l l' -> pairwise_disjoint l -> pairwise_disjoint l'.
Proof.
  induction 1 as [|X l l' Hp IH|X Y l|l l' l'' _ IH1 _ IH2]; simpl.
  - done.
  - intros [HX Hl]. split; [by rewrite <- Hp | auto].
  - intros [HY [HX Hl]]. inversion HY as [|? ? HYX HYl]; subst.
    split; [|done]. constructor; [done | done].
  - auto.
Qed.

(** Shrinking the sets and dropping some keeps them pairwise disjoint. *)
Lemma pairwise_disjoint_shrink {A : Type} (f g : A -> gset KernelInfo)
      (keep : A -> bool) (l : list A) :
  (forall a, a ∈ l -> g a ⊆ f a) ->
  pairwise_disjoint (map f l) ->
  pairwise_disjoint (map g (List.filter keep l)).
Proof.
  induction l as [|a r IH]; intros Hsub Hd; [done|].
  destruct Hd as [Ha Hr]. simpl.
  assert (IH' : pairwise_disjoint (map g (List.filter keep r))).
  { apply IH; [|done]. intros b Hb. apply Hsub. by right. }
  destruct (keep a); [|done]. split; [|done].
  apply Forall_forall. intros Y HY.
  apply list_elem_of_In, in_map_iff in HY as (b & <- & Hb).
  apply filter_In in Hb as [Hb _].
  assert (f a ## f b).
  { apply (proj1 (Forall_forall _ _) Ha). apply list_elem_of_In, in_map. done. }
  pose proof (Hsub a ltac:(left)). pose proof (Hsub b ltac:(right; by apply list_elem_of_In)).
  set_solver.
Qed.

Lemma pairwise_disjoint_snoc (l : list (gset KernelInfo)) (X : gset KernelInfo) :
  pairwise_disjoint l -> Forall (fun Y => Y ## X) l -> pairwise_disjoint (l ++ [X]).
Proof.
  induction l as [|Y r IH]; intros Hd HX; simpl; [done|].
  destruct Hd as [HY Hr]. inversion HX; subst. split; [|by apply IH].
  apply Forall_app. split; [done | by constructor].
Qed.

(** ** Deduplication: what stays where *)

Lemma is_nvtx_dedup (c : Node) : is_nvtx (dedup_node c) = is_nvtx c.
Proof. destruct c; [done | by rewrite dedup_node_unfold]. Qed.

Lemma sub_scopes_map_dedup (l : list Node) :
  sub_scopes (map dedup_node l) = map dedup_node (sub_scopes l).
Proof.
  unfold sub_scopes. induction l as [|c r IH]; [done|]. cbn [map List.filter].
  rewrite is_nvtx_dedup. destruct (is_nvtx c); cbn [map]; by rewrite IH.
Qed.

Lemma sub_scopes_kept (claimed : gset Z) (l : list Node) :
  sub_scopes (List.filter (keeps claimed) l) = sub_scopes l.
Proof.
  unfold sub_scopes. induction l as [|c r IH]; [done|]. cbn [List.filter].
  destruct (keeps claimed c) eqn:E.
  - cbn [List.filter]. by rewrite IH.
  - destruct c as [k|name s e ch]; [exact IH | done].
Qed.

(** Deduplication moves no scope. *)
Lemma descend_dedup (p : list nat) :
  forall n, descend p (dedup_node n) = dedup_node <$> descend p n.
Proof.
  induction p as [|i p IH]; intros n; [done|].
  destruct n as [k|name s e ch]; [done|].
  rewrite dedup_node_unfold. cbn [descend node_children].
  unfold dedup_children. rewrite sub_scopes_map_dedup, sub_scopes_kept, list_lookup_fmap.
  destruct (sub_scopes ch !! i) as [c|]; [apply IH | done].
Qed.

Lemma scope_along_dedup (p : list nat) (roots : list Node) :
  scope_along p (_deduplicate_kernels roots) = dedup_node <$> scope_along p roots.
Proof.
  destruct p as [|i p]; [done|]. unfold _deduplicate_kernels. cbn [scope_along].
  rewrite sub_scopes_map_dedup, list_lookup_fmap.
  destruct (sub_scopes roots !! i) as [c|]; [apply descend_dedup | done].
Qed.

(** A scope keeps the leaves whose start time is not claimed below it. *)
Lemma lists_dedup (n : Node) (k : KernelInfo) :
  lists (dedup_node n) k
  <-> lists n k /\ ki_start k ∉ claimed_by_children (node_children n).
Proof.
  destruct n as [k0|name s e ch].
  - split; [by intros H%lists_kernel | by intros [H%lists_kernel _]].
  - unfold lists. rewrite dedup_node_unfold. cbn [node_children].
    unfold dedup_children. split.
    + intros H. apply list_elem_of_fmap in H as (c & E & Hc).
      symmetry in E. apply dedup_node_kernel in E as ->.
      apply list_elem_of_In, filter_In in Hc as [Hc Hkeep].
      split; [by apply list_elem_of_In|].
      simpl in Hkeep. by apply bool_decide_eq_true in Hkeep.
    + intros [Hk Hout]. apply list_elem_of_fmap. exists (Kernel k). split; [done|].
      apply list_elem_of_In, filter_In. split; [by apply list_elem_of_In|].
      simpl. by apply bool_decide_eq_true.
Qed.

(** The same in terms of the scopes below: a leaf stays when no scope
    below lists a kernel that starts when its kernel starts. *)
Lemma dedup_keeps_leaf (n : Node) (k : KernelInfo) :
  lists (dedup_node n) k <->
  lists n k /\
  forall q m k', q <> [] -> descend q n = Some m -> lists m k' ->
                 ki_start k' <> ki_start k.
Proof.
  rewrite lists_dedup. split; intros [Hk H]; (split; [done|]).
  - intros q m k' Hq Hm Hk' E. apply H. apply elem_of_claimed_below.
    exists k'. split; [|done]. apply listed_below_descend. by exists q, m.
  - intros Hx. apply elem_of_claimed_below in Hx as (k' & Hk' & E).
    apply listed_below_descend in Hk' as (q & m & Hq & Hm & Hl).
    by apply (H q m k').
Qed.

(** Deduplication only removes leaves. *)
Lemma dedup_below_subset (n : Node) :
  kernels_below (dedup_node n) ⊆ kernels_below n.
Proof.
  induction n as [k|name start end_ children IH] using Node_forest_ind; [done|].
  rewrite dedup_node_unfold. intros k.
  rewrite !elem_of_kernels_below, !elem_of_listed_below.
  intros [Hk|(c' & Hc' & Hk)].
  - left. apply elem_of_dedup_children in Hk as (c & Hc & _ & E).
    symmetry in E. apply dedup_node_kernel in E as ->. done.
  - right. apply elem_of_dedup_children in Hc' as (c & Hc & _ & ->).
    exists c. split; [done|].
    by apply (proj1 (Forall_forall _ _) IH c Hc).
Qed.

(** After deduplication no scope lists a kernel that a scope below it
    lists, and sibling subtrees stay apart. *)
Lemma dedup_exclusive (n : Node) : apart n -> exclusive (dedup_node n).
Proof.
  induction n as [k|name start end_ children IH] using Node_forest_ind; [done|].
  intros [Hsib Hch]. apply fold_right_and_Forall in Hch.
  rewrite dedup_node_unfold. cbn [exclusive].
  set (claimed := claimed_by_children children).
  split; [|split].
  - intros k Hk Hbelow.
    apply elem_of_dedup_children in Hk as (c & Hin & Hkeep & E).
    symmetry in E. apply dedup_node_kernel in E as ->.
    simpl in Hkeep. apply bool_decide_eq_true in Hkeep. apply Hkeep.
    apply elem_of_listed_below in Hbelow as (c' & Hc' & Hk').
    apply elem_of_dedup_children in Hc' as (c & Hc & _ & ->).
    apply elem_of_claimed_below. exists k. split; [|done].
    apply elem_of_listed_below. exists c. split; [done|].
    by apply dedup_below_subset.
  - unfold siblings_apart, dedup_children. rewrite map_map.
    apply (pairwise_disjoint_shrink kernels_below); [|done].
    intros c _. apply dedup_below_subset.
  - apply fold_right_and_Forall, Forall_forall. intros c' Hc'.
    apply elem_of_dedup_children in Hc' as (c & Hc & _ & ->).
    apply (proj1 (Forall_forall _ _) IH c Hc).
    by apply (proj1 (Forall_forall _ _) Hch).
Qed.

Lemma dedup_forest_exclusive (roots : list Node) :
  siblings_apart roots -> Forall apart roots ->
  siblings_apart (_deduplicate_kernels roots) /\
  Forall exclusive (_deduplicate_kernels roots).
Proof.
  intros Hsib Hap. unfold _deduplicate_kernels. split.
  - unfold siblings_apart. rewrite map_map.
    rewrite <- (filter_all roots) at 1.
    apply (pairwise_disjoint_shrink kernels_below); [|done].
    intros c _. apply dedup_below_subset.
  - apply Forall_forall. intros c' Hc'.
    apply list_elem_of_In, in_map_iff in Hc' as (c & <- & Hc).
    apply dedup_exclusive. apply (proj1 (Forall_forall _ _) Hap).
    by apply list_elem_of_In.
Qed.

(** ** Ordering the children keeps the kernels of every scope *)

Lemma kernel_in_sorted (children : list Node) (k : KernelInfo) :
  Kernel k ∈ Py.sorted_by_key node_start (map sort_node children)
  <-> Kernel k ∈ children.
Proof.
  rewrite sorted_by_key_perm. split.
  - intros H. apply list_elem_of_fmap in H as (c & E & Hc).
    symmetry in E. apply sort_node_kernel in E as ->. done.
  - intros H. apply list_elem_of_fmap. by exists (Kernel k).
Qed.

Lemma listed_below_sorted (children : list Node) :
  Forall (fun c => kernels_below (sort_node c) = kernels_below c) children ->
  listed_below (Py.sorted_by_key node_start (map sort_node children))
  = listed_below children.
Proof.
  intros IH. apply set_eq. intros k. rewrite !elem_of_listed_below. split.
  - intros (c' & Hc' & Hk). rewrite sorted_by_key_perm in Hc'.
    apply list_elem_of_fmap in Hc' as (c & -> & Hc).
    exists c. split; [done|].
    by rewrite <- (proj1 (Forall_forall _ _) IH c Hc).
  - intros (c & Hc & Hk). exists (sort_node c). split.
    + rewrite sorted_by_key_perm. apply list_elem_of_fmap. by exists c.
    + by rewrite (proj1 (Forall_forall _ _) IH c Hc).
Qed.

Lemma sort_below (n : Node) : kernels_below (sort_node n) = kernels_below n.
Proof.
  induction n as [k|name start end_ children IH] using Node_forest_ind; [done|].
  cbn [sort_node]. apply set_eq. intros k. rewrite !elem_of_kernels_below.
  by rewrite kernel_in_sorted, listed_below_sorted.
Qed.

Lemma siblings_apart_sorted (children : list Node) :
  siblings_apart children ->
  siblings_apart (Py.sorted_by_key node_start (map sort_node children)).
Proof.
  unfold siblings_apart. intros H.
  eapply pairwise_disjoint_perm.
  - symmetry. apply Permutation_map, sorted_by_key_perm.
  - rewrite map_map. erewrite map_ext; [exact H|]. intros c. apply sort_below.
Qed.

Lemma sort_exclusive (n : Node) : exclusive n -> exclusive (sort_node n).
Proof.
  induction n as [k|name start end_ children IH] using Node_forest_ind; [done|].
  intros (Hd & Hsib & Hch). apply fold_right_and_Forall in Hch.
  cbn [sort_node exclusive]. split; [|split].
  - intros k Hk. apply (proj1 (kernel_in_sorted _ _)) in Hk.
    rewrite listed_below_sorted.
    + by apply Hd.
    + apply Forall_forall. intros c _. apply sort_below.
  - by apply siblings_apart_sorted.
  - apply fold_right_and_Forall. rewrite sorted_by_key_perm.
    apply Forall_forall. intros c' Hc'.
    apply list_elem_of_In, in_map_iff in Hc' as (c & <- & Hc).
    apply list_elem_of_In in Hc.
    apply (proj1 (Forall_forall _ _) IH c Hc).
    by apply (proj1 (Forall_forall _ _) Hch).
Qed.

Lemma sort_forest_exclusive (roots : list Node) :
  siblings_apart roots -> Forall exclusive roots ->
  siblings_apart (_sort_children roots) /\ Forall exclusive (_sort_children roots).
Proof.
  intros Hsib Hex. unfold _sort_children. split.
  - unfold siblings_apart. rewrite map_map.
    erewrite map_ext; [exact Hsib|]. intros c. apply sort_below.
  - apply Forall_forall. intros c' Hc'.
    apply list_elem_of_In, in_map_iff in Hc' as (c & <- & Hc).
    apply sort_exclusive. apply (proj1 (Forall_forall _ _) Hex).
    by apply list_elem_of_In.
Qed.

Lemma sort_listed_in (roots : list Node) (k : KernelInfo) :
  listed_in (_sort_children roots) k <-> listed_in roots k.
Proof.
  rewrite !listed_in_below, !elem_of_listed_below. unfold _sort_children. split.
  - intros (c' & Hc' & Hk). apply list_elem_of_fmap in Hc' as (c & -> & Hc).
    exists c. split; [done|]. by rewrite <- sort_below.
  - intros (c & Hc & Hk). exists (sort_node c). split.
    + apply list_elem_of_fmap. by exists c.
    + by rewrite sort_below.
Qed.

(** ** From the recursive invariant to pairs of scope nodes *)

Lemma exclusive_apart (n : Node) : exclusive n -> apart n.
Proof.
  induction n as [k|name start end_ children IH] using Node_forest_ind; [done|].
  intros (_ & Hsib & Hch). apply fold_right_and_Forall in Hch.
  split; [done|]. apply fold_right_and_Forall, Forall_forall. intros c Hc.
  apply (proj1 (Forall_forall _ _) IH c Hc).
  by apply (proj1 (Forall_forall _ _) Hch).
Qed.

(** When sibling subtrees share no kernel, the scopes that list one
    kernel lie on one branch. *)
Lemma apart_chain (p : list nat) :
  forall roots q n m k,
    siblings_apart roots -> Forall apart roots ->
    scope_along p roots = Some n -> scope_along q roots = Some m ->
    lists n k -> lists m k ->
    p `prefix_of` q \/ q `prefix_of` p.
Proof.
  induction p as [|i p IH]; intros roots q n m k Hsib Hap Hp Hq Hn Hm; [done|].
  destruct q as [|j q]; [done|].
  cbn [scope_along] in Hp, Hq.
  destruct (sub_scopes roots !! i) as [a|] eqn:Ea; [|done].
  destruct (sub_scopes roots !! j) as [b|] eqn:Eb; [|done].
  destruct (decide (i = j)) as [<-|Hij].
  - rewrite Ea in Eb. injection Eb as <-.
    destruct p as [|i' p]; [left; apply prefix_cons, prefix_nil|].
    destruct q as [|j' q]; [right; apply prefix_cons, prefix_nil|].
    pose proof (proj1 (Forall_forall _ _) Hap a (lookup_sub_scopes _ _ _ Ea)) as Hapart.
    destruct a as [k0|name s e ch]; [simpl in Hp; done|].
    destruct Hapart as [Hsib' Hch]. apply fold_right_and_Forall in Hch.
    destruct (IH ch (j' :: q) n m k Hsib' Hch Hp Hq Hn Hm) as [H|H];
      [left|right]; by apply prefix_cons.
  - exfalso.
    assert (Hka : k ∈ kernels_below a) by (by apply (descend_lists_below p a n k)).
    assert (Hkb : k ∈ kernels_below b) by (by apply (descend_lists_below q b m k)).
    assert (Hd : kernels_below a ## kernels_below b).
    { apply (pairwise_disjoint_lookup (map kernels_below (sub_scopes roots)) i j);
        [|done| |].
      - unfold sub_scopes.
        apply (pairwise_disjoint_shrink kernels_below); [set_solver | exact Hsib].
      - by rewrite list_lookup_fmap, Ea.
      - by rewrite list_lookup_fmap, Eb. }
    set_solver.
Qed.

Lemma descend_exclusive (p : list nat) :
  forall n m, exclusive n -> descend p n = Some m -> exclusive m.
Proof.
  induction p as [|i p IH]; intros n m Hex Hp; [by injection Hp as <-|].
  cbn [descend] in Hp.
  destruct (sub_scopes (node_children n) !! i) as [c|] eqn:E; [|done].
  apply lookup_sub_scopes in E.
  destruct n as [k|name s e ch]; [by apply elem_of_nil in E|].
  destruct Hex as (_ & _ & Hch). apply fold_right_and_Forall in Hch.
  apply (IH c m); [|done]. by apply (proj1 (Forall_forall _ _) Hch).
Qed.

Lemma listed_not_below (n m : Node) (q : list nat) (k : KernelInfo) :
  exclusive n -> q <> [] -> descend q n = Some m -> lists n k -> lists m k -> False.
Proof.
  intros Hex Hq Hm Hn Hk.
  destruct n as [k0|name s e ch]; [by apply lists_kernel in Hn|].
  destruct Hex as (Hd & _). apply (Hd k Hn).
  apply (listed_below_descend (Nvtx name s e ch)). by exists q, m.
Qed.

Lemma exclusive_unique (roots : list Node) :
  siblings_apart roots -> Forall exclusive roots -> leaf_unique roots.
Proof.
  intros Hsib Hex p q n m k Hpq Hp Hq Hn Hm.
  assert (Hap : Forall apart roots).
  { eapply Forall_impl; [exact Hex|]. apply exclusive_apart. }
  assert (Hexn : forall p n, scope_along p roots = Some n -> exclusive n).
  { intros [|i p'] n' H; [done|]. cbn [scope_along] in H.
    destruct (sub_scopes roots !! i) as [c|] eqn:E; [|done].
    apply lookup_sub_scopes in E.
    apply (descend_exclusive p' c); [|done].
    by apply (proj1 (Forall_forall _ _) Hex). }
  destruct (apart_chain p roots q n m k Hsib Hap Hp Hq Hn Hm) as [[r ->]|[r ->]].
  - rewrite (scope_along_app _ _ _ _ Hp) in Hq.
    apply (listed_not_below n m r k); try done; [by apply (Hexn p)|].
    intros ->. by rewrite app_nil_r in Hpq.
  - rewrite (scope_along_app _ _ _ _ Hq) in Hp.
    apply (listed_not_below m n r k); try done; [by apply (Hexn q)|].
    intros ->. by rewrite app_nil_r in Hpq.
Qed.

(** ** Paths down the right edge *)

Lemma last_child_split (forest : list Node) (i : nat) (x : Node) :
  S i = length forest -> forest !! i = Some x ->
  exists init, forest = init ++ [x] /\ length init = i.
Proof.
  intros Hlen Hx. exists (take i forest).
  pose proof (take_drop_middle forest i x Hx) as E.
  assert (Hd : drop (S i) forest = []) by (apply drop_ge; lia).
  rewrite Hd in E. split; [done|]. rewrite length_take. lia.
Qed.

Lemma rightmost_prefix (q p : list nat) (forest : list Node) :
  q `prefix_of` p -> rightmost p forest -> rightmost q forest.
Proof.
  intros [r ->]. revert forest. induction q as [|i q IH]; intros forest; [done|].
  cbn [app rightmost]. intros [Hlen H]. split; [done|].
  destruct (forest !! i) as [[k|name start end_ children]|]; [done| |done].
  by apply IH.
Qed.

Lemma scopes_of_kernels (ks : list KernelInfo) : flat_map scopes (map Kernel ks) = [].
Proof. by induction ks. Qed.

Lemma scopes_append_at (p : list nat) (node : Node) (forest : list Node) :
  rightmost p forest ->
  flat_map scopes (append_at p node forest) = flat_map scopes forest ++ scopes node.
Proof.
  revert forest. induction p as [|i p IH]; intros forest.
  - intros _. cbn [append_at]. rewrite flat_map_app. simpl. by rewrite app_nil_r.
  - cbn [rightmost append_at]. intros [Hlen H].
    destruct (forest !! i) as [[k|name start end_ children]|] eqn:E; [done| |done].
    destruct (last_child_split forest i _ Hlen E) as (init & -> & Hinit).
    replace i with (length init + 0)%nat by lia.
    rewrite alter_app_r. cbn [alter list_alter]. rewrite !flat_map_app.
    cbn [flat_map scopes]. rewrite (IH children H), !app_nil_r.
    by rewrite <- app_assoc.
Qed.

Lemma rightmost_append_at (p : list nat) (name : string) (start end_ : Z)
      (ch : list Node) (forest : list Node) :
  rightmost p forest ->
  rightmost (p ++ [length (children_at p forest)])
            (append_at p (Nvtx name start end_ ch) forest).
Proof.
  revert forest. induction p as [|i p IH]; intros forest.
  - intros _. cbn [app children_at append_at rightmost]. split.
    + rewrite length_app. simpl. lia.
    + by rewrite list_lookup_middle.
  - cbn [rightmost]. intros [Hlen H].
    destruct (forest !! i) as [[k|nm st en children]|] eqn:E; [done| |done].
    cbn [app children_at append_at rightmost]. rewrite E.
    destruct (last_child_split forest i _ Hlen E) as (init & -> & Hinit).
    replace i with (length init + 0)%nat by lia.
    rewrite alter_app_r. cbn [alter list_alter]. split.
    + rewrite !length_app. simpl. lia.
    + rewrite Nat.add_0_r, list_lookup_middle by done. by apply IH.
Qed.

Lemma pop_ended_rightmost (roots : list Node) (stack : list (Entry * list nat))
      (cpu_start : Z) :
  nested_paths stack ->
  match stack with (_, p) :: _ => rightmost p roots | [] => True end ->
  let stack' := pop_ended stack cpu_start in
  nested_paths stack' /\
  match stack' with (_, p) :: _ => rightmost p roots | [] => True end.
Proof.
  induction stack as [|[top path] below IH]; intros Hn Hr; [done|].
  cbn [pop_ended]. destruct (e_cpu_end top <=? cpu_start); [|done].
  destruct Hn as [Hpre Hn]. apply IH; [done|].
  destruct below as [|[e q] ?]; [done|]. by apply (rightmost_prefix q path).
Qed.

(** ** The nesting loop *)

Section Nesting.
Variable kmap : gmap Z KernelInfo.
Variable rt_rows : list RuntimeRow.
Hypothesis Hov : launches_overlap kmap rt_rows.

Local Abbreviation closed_by := (closed_by kmap rt_rows).
Local Abbreviation begun_from := (begun_from kmap rt_rows).
Local Abbreviation spine := (spine kmap rt_rows).

(** A kernel is not launched both by a call that has ended by [s] and by
    one that begins from [s] on. *)
Lemma no_straddle (s : Z) (k : KernelInfo) :
  ended kmap rt_rows s k -> begun kmap rt_rows s k -> False.
Proof.
  intros (r1 & Hr1 & Hk1 & He) (r2 & Hr2 & Hk2 & Hb).
  pose proof (Hov r1 r2 k Hr1 Hr2 Hk1 Hk2). lia.
Qed.

Lemma closed_begun_disjoint (s : Z) (n m : Node) :
  closed_by s n -> begun_from s m ->
  kernels_below n ## kernels_below m.
Proof.
  intros Hn Hm. apply elem_of_disjoint. intros x Hxn Hxm.
  eapply no_straddle; eauto.
Qed.

Lemma closed_by_mono (s s' : Z) (n : Node) :
  s <= s' -> closed_by s n -> closed_by s' n.
Proof.
  intros Hle H k Hk. destruct (H k Hk) as (r & ? & ? & ?).
  exists r. repeat split; (done || lia).
Qed.

Lemma begun_from_mono (lo lo' : Z) (n : Node) :
  lo <= lo' -> begun_from lo' n -> begun_from lo n.
Proof.
  intros Hle H k Hk. destruct (H k Hk) as (r & ? & ? & ?).
  exists r. repeat split; (done || lia).
Qed.

(** A stacked node whose children are settled: what it holds was
    launched inside its entry's CPU range. *)
Lemma spine_node_begun (lo : Z) (e : Entry) (name : string) (gs ge : Z)
      (children : list Node) :
  lo <= e_cpu_start e ->
  (forall k, Kernel k ∈ children -> launched_within kmap rt_rows e k) ->
  Forall (begun_from (e_cpu_start e)) children ->
  begun_from lo (Nvtx name gs ge children).
Proof.
  intros Hlo Hk Hch k Hx. apply elem_of_kernels_below in Hx as [Hx|Hx].
  - destruct (Hk k Hx) as (r & Hr & Hkm & Hb & He).
    exists r. repeat split; (done || lia).
  - apply elem_of_listed_below in Hx as (c & Hc & Hx).
    eapply begun_from_mono; [exact Hlo | | exact Hx].
    by apply (proj1 (Forall_forall _ _) Hch).
Qed.

Lemma spine_node_closed (s : Z) (e : Entry) (name : string) (gs ge : Z)
      (children : list Node) :
  e_cpu_end e <= s ->
  (forall k, Kernel k ∈ children -> launched_within kmap rt_rows e k) ->
  Forall (closed_by s) children ->
  closed_by s (Nvtx name gs ge children).
Proof.
  intros Hs Hk Hch k Hx. apply elem_of_kernels_below in Hx as [Hx|Hx].
  - destruct (Hk k Hx) as (r & Hr & Hkm & Hb & He).
    exists r. repeat split; (done || lia).
  - apply elem_of_listed_below in Hx as (c & Hc & Hx).
    by apply (proj1 (Forall_forall _ _) Hch c Hc).
Qed.

(** What the invariant says of the forest as a whole. *)
Lemma spine_summary (stack : list (Entry * list nat)) :
  forall lo s prefix forest,
    spine lo s stack prefix forest ->
    Forall (begun_from lo) forest /\ siblings_apart forest /\ Forall apart forest.
Proof.
  induction stack as [|[e path] rest IH]; intros lo s prefix forest H.
  - destruct H as (_ & ? & ? & ?). done.
  - destruct H as (done & name & gs & ge & children & -> & _ & Hcl & Hbg & Hsib
                   & Hap & Hlo & Hs & Hk & Hsub).
    destruct (IH _ _ _ _ Hsub) as (Hbg' & Hsib' & Hap').
    assert (Hnode : begun_from (e_cpu_start e) (Nvtx name gs ge children))
      by (apply (spine_node_begun _ e); (done || lia)).
    split; [|split].
    + apply Forall_app. split; [done|]. constructor; [|done].
      eapply begun_from_mono; [exact Hlo | exact Hnode].
    + unfold siblings_apart. rewrite map_app. apply pairwise_disjoint_snoc; [done|].
      apply Forall_forall. intros Y HY.
      apply list_elem_of_In, in_map_iff in HY as (d & <- & Hd).
      apply (closed_begun_disjoint (e_cpu_start e)); [|done].
      apply (proj1 (Forall_forall _ _) Hcl). by apply list_elem_of_In.
    + apply Forall_app. split; [done|]. constructor; [|done].
      split; [done | by apply fold_right_and_Forall].
Qed.

Lemma spine_mono (stack : list (Entry * list nat)) :
  forall lo s s' prefix forest,
    s <= s' -> spine lo s stack prefix forest -> spine lo s' stack prefix forest.
Proof.
  induction stack as [|[e path] rest IH]; intros lo s s' prefix forest Hle H.
  - destruct H as (Hcl & ? & ? & ?). split; [|done].
    eapply Forall_impl; [exact Hcl|]. intros n. by apply closed_by_mono.
  - destruct H as (done & name & gs & ge & children & -> & Hp & Hcl & Hbg & Hsib
                   & Hap & Hlo & Hs & Hk & Hsub).
    exists done, name, gs, ge, children.
    repeat split; try done; [lia | by eapply IH].
Qed.

(** Popping the top of the stack, whose scope has ended by [s']. *)
Lemma spine_pop (stack : list (Entry * list nat)) (e : Entry) (p : list nat) :
  forall lo s s' prefix forest,
    e_cpu_end e <= s' -> s <= s' ->
    spine lo s (stack ++ [(e, p)]) prefix forest ->
    spine lo s' stack prefix forest.
Proof.
  induction stack as [|[x px] rest IH]; intros lo s s' prefix forest He Hle H.
  - pose proof (spine_summary _ _ _ _ _ H) as (Hbg & Hsib & Hap).
    destruct H as (done & name & gs & ge & children & -> & _ & Hcl & _ & _
                   & _ & Hlo & Hs & Hk & (Hcl' & _)).
    split; [|done]. apply Forall_app. split.
    + eapply Forall_impl; [exact Hcl|]. intros n. apply closed_by_mono. lia.
    + constructor; [|done]. apply (spine_node_closed _ e); [done | done |].
      eapply Forall_impl; [exact Hcl'|]. intros n. by apply closed_by_mono.
  - destruct H as (done & name & gs & ge & children & -> & Hp & Hcl & Hbg & Hsib
                   & Hap & Hlo & Hs & Hk & Hsub).
    exists done, name, gs, ge, children.
    repeat split; try done; [lia | by eapply IH].
Qed.

Lemma kernel_in_append_at (idxs : list nat) (e : Entry) (k : KernelInfo) :
  forall forest,
    Kernel k ∈ append_at idxs (node_of e) forest -> Kernel k ∈ forest.
Proof.
  induction idxs as [|i idxs IH]; intros forest H.
  - cbn [append_at] in H. apply elem_of_app in H as [H|H]; [done|].
    by apply list_elem_of_singleton in H.
  - cbn [append_at] in H. apply list_elem_of_lookup in H as (j & Hj).
    destruct (decide (i = j)) as [<-|Hne].
    + rewrite list_lookup_alter_eq in Hj.
      destruct (forest !! i) as [[k0|name gs ge ch]|] eqn:E; simpl in Hj; [|done|done].
      injection Hj as ->. by eapply list_elem_of_lookup_2.
    + rewrite list_lookup_alter_ne in Hj by done. by eapply list_elem_of_lookup_2.
Qed.

(** Appending the node of a new entry below the top of the stack. *)
Lemma spine_push (e : Entry) (stack : list (Entry * list nat)) :
  entry_ok kmap rt_rows e ->
  forall lo prefix forest,
    lo <= e_cpu_start e ->
    spine lo (e_cpu_start e) stack prefix forest ->
    exists idxs,
      last_path prefix stack = prefix ++ idxs /\
      spine lo (e_cpu_start e)
            (stack ++ [(e, prefix ++ idxs ++ [length (children_at idxs forest)])])
            prefix (append_at idxs (node_of e) forest).
Proof.
  intros Hok. induction stack as [|[x px] rest IH]; intros lo prefix forest Hlo H.
  - exists []. split; [by rewrite app_nil_r|].
    destruct H as (Hcl & Hbg & Hsib & Hap).
    exists forest, (e_name e), (e_start e), (e_end e), (map Kernel (e_kernels e)).
    repeat split; try done; try lia.
    + intros k Hk. apply list_elem_of_In, in_map_iff in Hk as (k' & [= ->] & Hk).
      apply (proj1 (Forall_forall _ _) Hok). by apply list_elem_of_In.
    + apply Forall_forall. intros c Hc x Hx.
      apply list_elem_of_In, in_map_iff in Hc as (k' & <- & _). done.
    + apply Forall_forall. intros c Hc x Hx.
      apply list_elem_of_In, in_map_iff in Hc as (k' & <- & _). done.
    + unfold siblings_apart. rewrite map_map. simpl.
      induction (e_kernels e) as [|k' ks IHk]; simpl; [done|]. split; [|done].
      apply Forall_forall. intros Y HY.
      apply list_elem_of_In, in_map_iff in HY as (? & <- & _). done.
    + apply Forall_forall. intros c Hc.
      apply list_elem_of_In, in_map_iff in Hc as (k' & <- & _). done.
  - destruct H as (done & name & gs & ge & children & -> & -> & Hcl & Hbg & Hsib
                   & Hap & Hlox & Hs & Hk & Hsub).
    destruct (IH (e_cpu_start x) (prefix ++ [length done]) children Hs Hsub)
      as (idxs & Hlast & Hspine).
    exists (length done :: idxs).
    assert (Hlook : (done ++ [Nvtx name gs ge children]) !! length done
                    = Some (Nvtx name gs ge children))
      by (by rewrite list_lookup_middle).
    split.
    + unfold last_path in *. rewrite <- app_assoc in Hlast. simpl in Hlast.
      destruct rest as [|y rest']; [done|]. rewrite last_cons_cons.
      destruct (last (y :: rest')) as [[? ?]|] eqn:E; [done|].
      by apply last_None in E.
    + cbn [children_at append_at]. rewrite Hlook.
      replace (length done) with (length done + 0)%nat at 3 by lia.
      rewrite alter_app_r. cbn [alter list_alter].
      exists done, name, gs, ge, (append_at idxs (node_of e) children).
      repeat split; try done.
      * intros k Hin. apply Hk. by eapply kernel_in_append_at.
      * rewrite <- !app_assoc in Hspine. simpl in Hspine. exact Hspine.
Qed.

(** The pops of one turn of the loop. *)
Lemma pop_ended_spine (stack : list (Entry * list nat)) :
  forall lo s s' forest,
    s <= s' ->
    spine lo s (reverse stack) [] forest ->
    spine lo s' (reverse (pop_ended stack s')) [] forest.
Proof.
  induction stack as [|[top path] below IH]; intros lo s s' forest Hle H.
  - by eapply spine_mono.
  - cbn [pop_ended]. destruct (Z.leb_spec (e_cpu_end top) s').
    + apply (IH lo s' s'); [lia|]. rewrite reverse_cons in H.
      by apply (spine_pop _ top path lo s s' [] forest).
    + by eapply spine_mono.
Qed.

(** One turn of the loop keeps the invariant. *)
Lemma nest_step_spine (lo s : Z) (roots : list Node)
      (stack : list (Entry * list nat)) (e : Entry) :
  entry_ok kmap rt_rows e -> lo <= s -> s <= e_cpu_start e ->
  spine lo s (reverse stack) [] roots ->
  let (roots', stack') := nest_step (roots, stack) e in
  spine lo (e_cpu_start e) (reverse stack') [] roots'.
Proof.
  intros Hok Hlo Hs H. cbn [nest_step].
  pose proof (pop_ended_spine stack lo s (e_cpu_start e) roots Hs H) as Hpop.
  set (stack1 := pop_ended stack (e_cpu_start e)) in *.
  destruct (spine_push e (reverse stack1) Hok lo [] roots ltac:(lia) Hpop)
    as (idxs & Hlast & Hpush).
  unfold last_path in Hlast. rewrite last_reverse in Hlast. simpl in Hlast.
  assert (Hparent : match stack1 with (_, path) :: _ => path | [] => [] end = idxs).
  { destruct stack1 as [|[? ?] ?]; simpl in Hlast; done. }
  rewrite Hparent. rewrite reverse_cons. exact Hpush.
Qed.

Lemma nest_fold_spine (entries : list Entry) :
  forall lo s roots stack,
    lo <= s ->
    spine lo s (reverse stack) [] roots ->
    key_sorted e_cpu_start entries ->
    Forall (fun e => s <= e_cpu_start e) entries ->
    Forall (entry_ok kmap rt_rows) entries ->
    let roots' := (fold_left nest_step entries (roots, stack)).1 in
    siblings_apart roots' /\ Forall apart roots'.
Proof.
  induction entries as [|e rest IH]; intros lo s roots stack Hlo H Hsorted Hge Hok.
  - simpl. by destruct (spine_summary _ _ _ _ _ H) as (_ & ? & ?).
  - destruct Hsorted as [Hfirst Hsorted].
    inversion Hge as [|? ? Hse Hge']; inversion Hok as [|? ? Hoke Hok']; subst.
    cbn [fold_left].
    pose proof (nest_step_spine lo s roots stack e Hoke Hlo Hse H) as Hstep.
    destruct (nest_step (roots, stack) e) as [roots1 stack1].
    apply (IH lo (e_cpu_start e) roots1 stack1); (done || lia).
Qed.

(** The nested forest keeps sibling subtrees apart. *)
Lemma nest_apart (entries : list Entry) :
  key_sorted e_cpu_start entries ->
  Forall (entry_ok kmap rt_rows) entries ->
  siblings_apart (nest entries) /\ Forall apart (nest entries).
Proof.
  intros Hsorted Hok. unfold nest.
  destruct entries as [|e rest]; [by repeat split|].
  apply (nest_fold_spine (e :: rest) (e_cpu_start e) (e_cpu_start e) [] []);
    [ lia | by repeat split | done | | done ].
  destruct Hsorted as [Hfirst _]. constructor; [lia | done].
Qed.

End Nesting.

(** ** The nesting loop keeps every entry with its kernels *)

Lemma outline_of_kernels (ks : list KernelInfo) :
  flat_map outline (map Kernel ks) = [].
Proof. by induction ks. Qed.

Lemma direct_kernels_of_kernels (ks : list KernelInfo) :
  direct_kernels (map Kernel ks) = ks.
Proof.
  unfold direct_kernels. induction ks as [|k r IH]; [done|]. simpl. f_equal. exact IH.
Qed.

Lemma direct_kernels_snoc_scope (l : list Node) (name : string) (start end_ : Z)
      (ch : list Node) :
  direct_kernels (l ++ [Nvtx name start end_ ch]) = direct_kernels l.
Proof. unfold direct_kernels. rewrite omap_app. simpl. by rewrite app_nil_r. Qed.

(** Appending a scope node at the end of the right edge adds it at the
    end of the preorder and changes the leaves of no scope. *)
Lemma outline_append_at (p : list nat) (name : string) (start end_ : Z)
      (ch : list Node) (forest : list Node) :
  rightmost p forest ->
  flat_map outline (append_at p (Nvtx name start end_ ch) forest)
  = flat_map outline forest ++ outline (Nvtx name start end_ ch) /\
  direct_kernels (append_at p (Nvtx name start end_ ch) forest)
  = direct_kernels forest.
Proof.
  revert forest. induction p as [|i p IH]; intros forest.
  - intros _. cbn [append_at]. split; [|apply direct_kernels_snoc_scope].
    rewrite flat_map_app. cbn [flat_map]. by rewrite app_nil_r.
  - cbn [rightmost append_at]. intros [Hlen H].
    destruct (forest !! i) as [[k|nm st en children]|] eqn:E; [done| |done].
    destruct (last_child_split forest i _ Hlen E) as (init & -> & Hinit).
    replace i with (length init + 0)%nat by lia.
    rewrite alter_app_r. cbn [alter list_alter].
    destruct (IH children H) as [IH1 IH2]. split.
    + rewrite !flat_map_app. cbn [flat_map outline]. rewrite IH1, IH2, !app_nil_r.
      by rewrite <- app_assoc.
    + by rewrite !direct_kernels_snoc_scope.
Qed.

Lemma nest_fold_outline (entries : list Entry) :
  forall roots stack,
    nested_paths stack ->
    match stack with (_, p) :: _ => rightmost p roots | [] => True end ->
    flat_map outline (fold_left nest_step entries (roots, stack)).1
    = flat_map outline roots ++ map entry_outline entries.
Proof.
  induction entries as [|e rest IH]; intros roots stack Hn Hr.
  - simpl. by rewrite app_nil_r.
  - cbn [fold_left nest_step].
    destruct (pop_ended_rightmost roots stack (e_cpu_start e) Hn Hr) as [Hn1 Hr1].
    cbv zeta in Hn1, Hr1. set (stack1 := pop_ended stack (e_cpu_start e)) in *.
    set (parent := match stack1 with (_, path) :: _ => path | [] => [] end).
    assert (Hparent : rightmost parent roots).
    { subst parent. by destruct stack1 as [|[? ?] ?]. }
    rewrite IH.
    + rewrite (proj1 (outline_append_at _ _ _ _ _ _ Hparent)). cbn [outline map].
      rewrite outline_of_kernels, direct_kernels_of_kernels, <- app_assoc. done.
    + cbn [nested_paths]. split; [|done]. subst parent.
      destruct stack1 as [|[? q] ?]; [done|]. by apply prefix_app_r.
    + by apply rightmost_append_at.
Qed.

(** Read in preorder, the scopes of the nested forest are the entries,
    each with the kernels of its entry as leaves. *)
Lemma nest_outline (entries : list Entry) :
  flat_map outline (nest entries) = map entry_outline entries.
Proof. unfold nest. by rewrite nest_fold_outline. Qed.

(** ** The tree builder *)

Lemma correlated_launched (kmap : gmap Z KernelInfo) (rt_rows : list RuntimeRow)
      (cpu_start cpu_end : Z) (k : KernelInfo) :
  k ∈ correlated kmap rt_rows cpu_start cpu_end ->
  exists r, r ∈ rt_rows /\ kmap !! r_correlationId r = Some k /\
            cpu_start <= r_start r /\ r_end r <= cpu_end.
Proof.
  induction rt_rows as [|rt rest IH]; intros Hk; [by apply elem_of_nil in Hk|].
  cbn [correlated] in Hk.
  destruct (cpu_end <? r_start rt); [by apply elem_of_nil in Hk|].
  assert (Hrest : k ∈ correlated kmap rest cpu_start cpu_end ->
                  exists r, r ∈ rt :: rest /\ kmap !! r_correlationId r = Some k /\
                            cpu_start <= r_start r /\ r_end r <= cpu_end).
  { intros H. destruct (IH H) as (r & Hr & ?). exists r. split; [by right | done]. }
  destruct ((cpu_start <=? r_start rt) && (r_end rt <=? cpu_end)) eqn:E; [|auto].
  destruct (kmap !! r_correlationId rt) as [k0|] eqn:Ek; [|auto].
  apply elem_of_cons in Hk as [->|Hk]; [|auto].
  apply andb_prop in E as [E1 E2]. exists rt.
  repeat split; [by left | done | lia | lia].
Qed.

Lemma entry_of_ok (kmap : gmap Z KernelInfo) (rt_rows : list RuntimeRow)
      (trim : Z * Z) (n : NvtxRow) (e : Entry) :
  entry_of kmap rt_rows trim n = Some e ->
  entry_ok kmap rt_rows e /\ e_cpu_start e = n_start n.
Proof.
  unfold entry_of. destruct (nonempty_text n) as [text|]; [|done].
  destruct (correlated kmap rt_rows (n_start n) (n_end n)) as [|k ks] eqn:E; [done|].
  destruct (_ || _); [done|]. intros [= <-]. split; [|done].
  unfold entry_ok. cbn [e_kernels]. apply Forall_forall. intros k' Hk'.
  rewrite <- E in Hk'. by apply correlated_launched in Hk'.
Qed.

Lemma entries_sorted (kmap : gmap Z KernelInfo) (rt_rows : list RuntimeRow)
      (trim : Z * Z) (rows : list NvtxRow) :
  key_sorted n_start rows ->
  key_sorted e_cpu_start (omap (entry_of kmap rt_rows trim) rows).
Proof.
  induction rows as [|n rest IH]; [done|]. intros [Hn Hrest]. cbn [omap list_omap].
  destruct (entry_of kmap rt_rows trim n) as [e|] eqn:E; [|by apply IH].
  split; [|by apply IH].
  apply Forall_forall. intros e' He'.
  apply list_elem_of_omap in He' as (n' & Hn' & E').
  apply entry_of_ok in E as [_ ->]. apply entry_of_ok in E' as [_ ->].
  by apply (proj1 (Forall_forall _ _) Hn).
Qed.

Lemma entries_ok (kmap : gmap Z KernelInfo) (rt_rows : list RuntimeRow)
      (trim : Z * Z) (rows : list NvtxRow) :
  Forall (entry_ok kmap rt_rows) (omap (entry_of kmap rt_rows trim) rows).
Proof.
  apply Forall_forall. intros e He.
  apply list_elem_of_omap in He as (n & _ & E). by apply entry_of_ok in E as [? _].
Qed.

(** Settles [launches_overlap] and the like on an example trace: the
    rows are enumerated and the kernels looked up. *)
Ltac by_rows Hr1 Hr2 Hk1 Hk2 :=
  vm_compute in Hr1, Hr2;
  repeat (apply elem_of_cons in Hr1 as [->|Hr1]); try (by apply elem_of_nil in Hr1);
  repeat (apply elem_of_cons in Hr2 as [->|Hr2]); try (by apply elem_of_nil in Hr2);
  vm_compute in Hk1, Hk2; injection Hk1 as <-;
  first [ discriminate Hk2 | vm_compute; reflexivity ].

Ltac by_scopes Ha Hb :=
  simpl in Ha, Hb;
  repeat (apply elem_of_cons in Ha as [->|Ha]);
  repeat (apply elem_of_cons in Hb as [->|Hb]);
  try (by apply elem_of_nil in Ha); try (by apply elem_of_nil in Hb);
  simpl; lia.

(** Counterexample to C3 as stated: the two scopes obey the stack
    discipline (they are disjoint), both claim the kernel of the
    instantaneous launch on their common boundary, neither is below the
    other, and the built tree lists the same kernel leaf under both. *)
Lemma boundary_launch_listed_twice :
  let top_launcher := fun (_ : Profile) (_ : Z) => Some (1, 1%nat) in
  let roots := build_nvtx_tree top_launcher boundary_profile 0 (0, 1000) 0 in
  let k := {| ki_start := 100; ki_end := 200; ki_stream := 7;
              ki_name := "gemm"; ki_demangled := "gemm" |} in
  ranking_answer boundary_profile 0 (top_launcher boundary_profile 0) /\
  stack_discipline (NVTX_EVENTS boundary_profile) /\
  roots = [ Nvtx "forward" 100 200 [Kernel k]; Nvtx "backward" 100 200 [Kernel k] ] /\
  scope_children_at [0%nat] roots = Some [Kernel k] /\
  scope_children_at [1%nat] roots = Some [Kernel k] /\
  ~ leaf_exclusive roots /\
  ~ leaf_unique roots.
Proof.
  cbv zeta.
  assert (Hroots : build_nvtx_tree (fun _ _ => Some (1, 1%nat)) boundary_profile 0
                                   (0, 1000) 0
                   = [ Nvtx "forward" 100 200
                         [Kernel {| ki_start := 100; ki_end := 200; ki_stream := 7;
                                    ki_name := "gemm"; ki_demangled := "gemm" |}];
                       Nvtx "backward" 100 200
                         [Kernel {| ki_start := 100; ki_end := 200; ki_stream := 7;
                                    ki_name := "gemm"; ki_demangled := "gemm" |}] ])
    by (vm_compute; reflexivity).
  split; [|split; [|split; [|split; [|split; [|split]]]]].
  - split; [|split]; [vm_compute; set_solver | reflexivity | repeat constructor].
  - intros a b Ha Hb _. by_scopes Ha Hb.
  - exact Hroots.
  - by rewrite Hroots.
  - by rewrite Hroots.
  - rewrite Hroots. intros H.
    eapply (H [0%nat] [1%nat]); [discriminate | reflexivity | reflexivity | | | reflexivity];
      apply list_elem_of_singleton; reflexivity.
  - rewrite Hroots. intros H.
    eapply (H [0%nat] [1%nat]); [discriminate | reflexivity | reflexivity | |];
      apply list_elem_of_singleton; reflexivity.
Qed.

(** The same with launch calls that take time: two calls, one in each of
    two scopes that follow one another, carry the correlation id of one
    kernel, and the built tree lists the kernel under both scopes. *)
Lemma relaunched_kernel_listed_twice :
  let top_launcher := ranking_query (fun tid => tid) in
  let roots := build_nvtx_tree top_launcher relaunch_profile 0 (0, 1000) 0 in
  let k := {| ki_start := 100; ki_end := 200; ki_stream := 7;
              ki_name := "gemm"; ki_demangled := "gemm" |} in
  _find_primary_thread top_launcher relaunch_profile 0 = 1 /\
  Forall (fun r => r_start r < r_end r)
         (runtime_rows relaunch_profile 1 (0, 1000 + 2000000000)) /\
  stack_discipline (NVTX_EVENTS relaunch_profile) /\
  roots = [ Nvtx "forward" 100 200 [Kernel k]; Nvtx "backward" 100 200 [Kernel k] ] /\
  ~ leaf_unique roots.
Proof.
  cbv zeta.
  assert (Hroots : build_nvtx_tree (ranking_query (fun tid => tid)) relaunch_profile 0
                                   (0, 1000) 0
                   = [ Nvtx "forward" 100 200
                         [Kernel {| ki_start := 100; ki_end := 200; ki_stream := 7;
                                    ki_name := "gemm"; ki_demangled := "gemm" |}];
                       Nvtx "backward" 100 200
                         [Kernel {| ki_start := 100; ki_end := 200; ki_stream := 7;
                                    ki_name := "gemm"; ki_demangled := "gemm" |}] ])
    by (vm_compute; reflexivity).
  split; [reflexivity|]. split; [|split; [|split]].
  - vm_compute. repeat constructor.
  - intros a b Ha Hb _. by_scopes Ha Hb.
  - exact Hroots.
  - rewrite Hroots. intros H.
    eapply (H [0%nat] [1%nat]); [discriminate | reflexivity | reflexivity | |];
      apply list_elem_of_singleton; reflexivity.
Qed.

(** The deduplication compares start times.  Here the outer scope
    launches one kernel itself and the scope nested in it another that
    starts at the same time: the pass takes the leaf of the first kernel
    for a copy of the second, and the built tree lists the first kernel
    under no scope. *)
Lemma same_start_kernel_dropped :
  let top_launcher := ranking_query (fun tid => tid) in
  let kmap := kernel_map twin_start_profile 0 in
  let rt_rows := runtime_rows twin_start_profile 1 (0, 1000 + 2000000000) in
  let entries :=
    omap (entry_of kmap rt_rows (0, 1000)) (nvtx_rows_of twin_start_profile 1 (0, 1000)) in
  let gemm := {| ki_start := 100; ki_end := 200; ki_stream := 7;
                 ki_name := "gemm"; ki_demangled := "gemm" |} in
  let relu := {| ki_start := 100; ki_end := 150; ki_stream := 8;
                 ki_name := "relu"; ki_demangled := "relu" |} in
  _find_primary_thread top_launcher twin_start_profile 0 = 1 /\
  launches_overlap kmap rt_rows /\
  stack_discipline (NVTX_EVENTS twin_start_profile) /\
  nest entries
  = [ Nvtx "step" 100 200 [Kernel gemm; Kernel relu; Nvtx "act" 100 150 [Kernel relu]] ] /\
  build_nvtx_tree top_launcher twin_start_profile 0 (0, 1000) 0
  = [ Nvtx "step" 100 200 [Nvtx "act" 100 150 [Kernel relu]] ] /\
  ~ nested_starts_distinct (nest entries) /\
  ~ listed_in (build_nvtx_tree top_launcher twin_start_profile 0 (0, 1000) 0) gemm.
Proof.
  cbv zeta.
  set (gemm := {| ki_start := 100; ki_end := 200; ki_stream := 7;
                  ki_name := "gemm"; ki_demangled := "gemm" |}).
  set (relu := {| ki_start := 100; ki_end := 150; ki_stream := 8;
                  ki_name := "relu"; ki_demangled := "relu" |}).
  set (entries := omap _ _).
  assert (Hnest : nest entries
                  = [ Nvtx "step" 100 200
                        [Kernel gemm; Kernel relu; Nvtx "act" 100 150 [Kernel relu]] ])
    by (vm_compute; reflexivity).
  assert (Htree : build_nvtx_tree (ranking_query (fun tid => tid)) twin_start_profile 0
                                  (0, 1000) 0
                  = [ Nvtx "step" 100 200 [Nvtx "act" 100 150 [Kernel relu]] ])
    by (vm_compute; reflexivity).
  split; [reflexivity|]. split; [|split; [|split; [|split; [|split]]]].
  - intros r1 r2 k Hr1 Hr2 Hk1 Hk2. by_rows Hr1 Hr2 Hk1 Hk2.
  - intros a b Ha Hb _. by_scopes Ha Hb.
  - exact Hnest.
  - exact Htree.
  - rewrite Hnest. intros H.
    assert (E : gemm = relu); [|discriminate E].
    apply (H [0%nat] [0%nat]
             (Nvtx "step" 100 200
                [Kernel gemm; Kernel relu; Nvtx "act" 100 150 [Kernel relu]])
             (Nvtx "act" 100 150 [Kernel relu]));
      [discriminate | reflexivity | reflexivity | | | reflexivity].
    + apply list_elem_of_here.
    + apply list_elem_of_here.
  - rewrite Htree, listed_in_below, elem_of_listed_below.
    intros (c & Hc & Hk). apply list_elem_of_singleton in Hc as ->.
    apply elem_of_kernels_below in Hk as [Hk|Hk].
    { apply list_elem_of_singleton in Hk. discriminate Hk. }
    apply elem_of_listed_below in Hk as (c & Hc & Hk).
    apply list_elem_of_singleton in Hc as ->.
    apply elem_of_kernels_below in Hk as [Hk|Hk].
    { apply list_elem_of_singleton in Hk. discriminate Hk. }
    apply elem_of_listed_below in Hk as (c & Hc & Hk).
    apply list_elem_of_singleton in Hc as ->. simpl in Hk. set_solver.
Qed.

(** C3 (amended).  The scopes of the forest the nesting loop builds are
    the entries, each listing the kernels it claims (those launched
    inside its CPU range), and the deduplication pass moves no scope.
    The pass keeps a kernel leaf under a scope exactly when no scope
    nested in it lists a kernel with the same start time.  When any two
    launch calls of the primary thread that resolve to the same kernel
    overlap in time (in particular every such call takes time), then
    after the pass, and in the tree finally returned, no kernel is listed
    by two distinct scope nodes, and the scope that lists a kernel is the
    most deeply nested scope that claims it: every scope that claims the
    kernel is that scope or one it is nested in.  When moreover kernels
    listed by a scope and by a scope nested in it start at different
    times unless they are the same kernel, every claimed kernel is
    listed after the pass.  The tree finally returned lists the kernels
    listed after the pass. *)
Theorem leaf_exclusivity (top_launcher : Profile -> Z -> option (Z * nat))
        (prof : Profile) (device : Z) (trim : Z * Z) (pad : Z) :
  let kmap := kernel_map prof device in
  let tid := _find_primary_thread top_launcher prof device in
  let rt_rows := runtime_rows prof tid (trim.1 - pad, trim.2 + 2000000000) in
  let entries :=
    omap (entry_of kmap rt_rows trim) (nvtx_rows_of prof tid (trim.1 - pad, trim.2)) in
  let nested := nest entries in
  let deduped := _deduplicate_kernels nested in
  let tree := build_nvtx_tree top_launcher prof device trim pad in
  launches_overlap kmap rt_rows ->
  flat_map outline nested = map entry_outline entries /\
  (forall p, scope_along p deduped = dedup_node <$> scope_along p nested) /\
  (forall p n k,
     scope_along p nested = Some n ->
     (lists (dedup_node n) k <->
      lists n k /\
      forall q m k', q <> [] -> descend q n = Some m -> lists m k' ->
                     ki_start k' <> ki_start k)) /\
  (forall q m k,
     scope_along q deduped = Some m -> lists m k ->
     exists n, scope_along q nested = Some n /\ lists n k /\
               forall p n', scope_along p nested = Some n' -> lists n' k ->
                            p `prefix_of` q) /\
  leaf_unique deduped /\
  leaf_unique tree /\
  (nested_starts_distinct nested ->
   forall p n k, scope_along p nested = Some n -> lists n k -> listed_in deduped k) /\
  (kmap <> ∅ -> tid <> 0 -> forall k, listed_in tree k <-> listed_in deduped k).
Proof.
  intros kmap tid rt_rows entries nested deduped tree Hov.
  destruct (nest_apart kmap rt_rows Hov entries) as [Hsib Hap].
  { apply entries_sorted. apply sorted_by_key_sorted. }
  { apply entries_ok. }
  fold nested in Hsib, Hap.
  destruct (dedup_forest_exclusive _ Hsib Hap) as [Hsib' Hex].
  fold deduped in Hsib', Hex.
  split; [apply nest_outline|].
  split; [intros p; apply scope_along_dedup|].
  split; [intros p n k _; apply dedup_keeps_leaf|].
  split; [|split; [|split; [|split]]].
  - intros q m k Hq Hm. subst deduped. rewrite scope_along_dedup in Hq.
    destruct (scope_along q nested) as [n|] eqn:E; [|done].
    injection Hq as <-. apply dedup_keeps_leaf in Hm as [Hn Hno].
    exists n. split; [done|]. split; [done|]. intros p n' Hp Hn'.
    destruct (apart_chain p nested q n' n k Hsib Hap Hp E Hn' Hn) as [H|[r ->]]; [done|].
    destruct r as [|i r]; [by rewrite app_nil_r|].
    rewrite (scope_along_app _ _ _ _ E) in Hp.
    by destruct (Hno (i :: r) n' k).
  - by apply exclusive_unique.
  - subst tree. unfold build_nvtx_tree. fold kmap tid.
    destruct (decide (kmap = ∅)); [by intros [|? ?]|].
    destruct (tid =? 0); [by intros [|? ?]|].
    fold rt_rows entries nested deduped.
    destruct (sort_forest_exclusive _ Hsib' Hex) as [Hsib'' Hex'].
    by apply exclusive_unique.
  - intros Hns p n k Hp Hn.
    assert (Hbelow : k ∈ kernels_below n) by (by apply (descend_lists_below [] n n k)).
    destruct (deepest_claimant n k Hbelow) as (q & m & Hq & Hm & Hdeep).
    exists (p ++ q), (dedup_node m). split.
    + subst deduped. by rewrite scope_along_dedup, (scope_along_app _ _ _ _ Hp), Hq.
    + apply dedup_keeps_leaf. split; [done|]. intros r m' k' Hr Hm' Hk' E.
      apply Hdeep. apply listed_below_descend. exists r, m'.
      split; [done|]. split; [done|].
      assert (k = k') as ->; [|done].
      apply (Hns (p ++ q) r m m' k k'); try done.
      by rewrite (scope_along_app _ _ _ _ Hp).
  - intros Hk Ht k. subst tree. unfold build_nvtx_tree. fold kmap tid.
    rewrite decide_False by done. destruct (Z.eqb_spec tid 0) as [|_]; [done|].
    fold rt_rows entries nested deduped. apply sort_listed_in.
Qed.

(** The tree of the nested scopes: the root and its sub-scopes claim the
    two kernels five times in all; after the pass each kernel is listed
    once, under the innermost scope that claims it. *)
Lemma leaf_exclusivity_witness :
  let top_launcher := fun (_ : Profile) (_ : Z) => Some (1, 2%nat) in
  let kmap := kernel_map nested_profile 0 in
  let rt_rows := runtime_rows nested_profile 1 (0, 1000 + 2000000000) in
  let entries :=
    omap (entry_of kmap rt_rows (0, 1000)) (nvtx_rows_of nested_profile 1 (0, 1000)) in
  let gemm := {| ki_start := 100; ki_end := 200; ki_stream := 7;
                 ki_name := "gemm"; ki_demangled := "gemm" |} in
  let gelu := {| ki_start := 250; ki_end := 300; ki_stream := 7;
                 ki_name := "gelu"; ki_demangled := "gelu" |} in
  launches_overlap kmap rt_rows /\
  (leaf_unique (_deduplicate_kernels (nest entries)) /\
   leaf_unique (build_nvtx_tree top_launcher nested_profile 0 (0, 1000) 0)) /\
  nest entries
  = [ Nvtx "step" 100 300
        [ Kernel gemm; Kernel gelu;
          Nvtx "attention" 100 200 [Kernel gemm; Nvtx "softmax" 100 200 [Kernel gemm]];
          Nvtx "mlp" 250 300 [Kernel gelu] ] ] /\
  build_nvtx_tree top_launcher nested_profile 0 (0, 1000) 0
  = [ Nvtx "step" 100 300
        [ Nvtx "attention" 100 200 [Nvtx "softmax" 100 200 [Kernel gemm]];
          Nvtx "mlp" 250 300 [Kernel gelu] ] ].
Proof.
  cbv zeta.
  assert (Hov : launches_overlap
                  (kernel_map nested_profile 0)
                  (runtime_rows nested_profile 1 (0, 1000 + 2000000000))).
  { intros r1 r2 k Hr1 Hr2 Hk1 Hk2. by_rows Hr1 Hr2 Hk1 Hk2. }
  split; [exact Hov|]. split; [|split; vm_compute; reflexivity].
  pose proof (leaf_exclusivity (fun _ _ => Some (1, 2%nat)) nested_profile 0
                               (0, 1000) 0 Hov)
    as (_ & _ & _ & _ & Hd & Ht & _).
  split; [exact Hd | exact Ht].
Defined.

(* ================================================================== *)
(** * Part III: further properties of the engine *)
(* ================================================================== *)

(** ** Interval helpers *)

Lemma covers_perm (l l' : list (Z * Z)) (x : Z) :
  Permutation l l' -> covers l x -> covers l' x.
Proof.
  intros Hp (iv & Hin & Hx). exists iv. split; [by rewrite <- Hp | done].
Qed.

Lemma merge_loop_covers (x : Z) (rest : list (Z * Z)) :
  forall cur,
    Forall (fun iv => cur.1 <= iv.1) rest -> start_sorted rest ->
    (covers (merge_loop cur rest) x <-> covers (cur :: rest) x).
Proof.
  induction rest as [|[s e] r IH]; intros cur Hge Hs; [done|].
  destruct Hs as [Hsr Hs]. inversion Hge as [|? ? Hcs Hge']; subst. simpl in *.
  destruct (Z.leb_spec s cur.2) as [Hle|Hgt].
  - rewrite IH; [|done|done]. split.
    + intros (iv & Hin & Hx). apply elem_of_cons in Hin as [->|Hin].
      * simpl in Hx. destruct (Z.le_gt_cases x cur.2).
        -- exists cur. split; [by left | lia].
        -- exists (s, e). split; [right; by left | simpl; lia].
      * exists iv. split; [by do 2 right | done].
    + intros (iv & Hin & Hx). apply elem_of_cons in Hin as [->|Hin].
      * exists (cur.1, Z.max cur.2 e). split; [by left | simpl; lia].
      * apply elem_of_cons in Hin as [->|Hin].
        -- exists (cur.1, Z.max cur.2 e). split; [by left | simpl in *; lia].
        -- exists iv. split; [by right | done].
  - split.
    + intros (iv & Hin & Hx). apply elem_of_cons in Hin as [->|Hin].
      * exists cur. split; [by left | done].
      * assert (Hc : covers (merge_loop (s, e) r) x) by (by exists iv).
        apply IH in Hc as (iv' & Hin' & Hx'); [|done|done].
        exists iv'. split; [by right | done].
    + intros (iv & Hin & Hx). apply elem_of_cons in Hin as [->|Hin].
      * exists cur. split; [by left | done].
      * assert (Hc : covers ((s, e) :: r) x) by (by exists iv).
        apply IH in Hc as (iv' & Hin' & Hx'); [|done|done].
        exists iv'. split; [by right | done].
Qed.

(** X1. Merging keeps the covered set: an instant lies in one of the
    merged runs exactly when it lies in one of the given intervals. *)
Theorem merge_intervals_covers (l : list (Z * Z)) (x : Z) :
  covers (_merge_intervals l) x <-> covers l x.
Proof.
  unfold _merge_intervals.
  pose proof (sorted_start_sorted l) as Hs.
  pose proof (sorted_perm interval_leb l) as Hp.
  destruct (Py.sorted interval_leb l) as [|first rest].
  - apply Permutation_nil in Hp as ->. done.
  - destruct Hs as [Hge Hs]. rewrite merge_loop_covers by done.
    split; apply covers_perm; [done | by symmetry].
Qed.

Lemma sorted_separated_id (l : list (Z * Z)) :
  separated l -> Py.sorted interval_leb l = l.
Proof.
  induction l as [|iv r IH]; [done|]. intros (Hwf & Hgap & Hsep).
  cbn [Py.sorted]. rewrite (IH Hsep). destruct r as [|iv' r']; [done|].
  cbn [Py.insert_sorted]. inversion Hgap as [|? ? Hlt _]; subst.
  unfold interval_leb, wf_iv in *.
  destruct (Z.ltb_spec iv.1 iv'.1); [done | lia].
Qed.

Lemma merge_loop_separated_id (cur : Z * Z) (rest : list (Z * Z)) :
  separated (cur :: rest) -> merge_loop cur rest = cur :: rest.
Proof.
  revert cur. induction rest as [|[s e] r IH]; intros cur H; [done|].
  destruct H as (Hwf & Hgap & Hsep). inversion Hgap as [|? ? Hlt _]; subst.
  simpl in *. destruct (Z.leb_spec s cur.2); [lia|]. by rewrite IH.
Qed.

(** X2. The merged runs are in canonical form (well-formed, in
    increasing order, with a gap between consecutive runs), a list in
    that form is left as it is, and so merging twice is merging once. *)
Theorem merge_intervals_canonical (l : list (Z * Z)) :
  Forall wf_iv l ->
  separated (_merge_intervals l) /\
  (forall m, separated m -> _merge_intervals m = m) /\
  _merge_intervals (_merge_intervals l) = _merge_intervals l.
Proof.
  intros Hwf.
  assert (Hid : forall m, separated m -> _merge_intervals m = m).
  { intros m Hm. unfold _merge_intervals. rewrite (sorted_separated_id m Hm).
    destruct m as [|first rest]; [done|]. by apply merge_loop_separated_id. }
  pose proof (merge_intervals_separated l Hwf) as Hsep.
  split; [done|]. split; [done|]. by apply Hid.
Qed.

(** Three kernels of which two overlap merge into two runs. *)
Lemma merge_intervals_canonical_witness :
  let l := [ (10, 20); (0, 12); (25, 30) ] in
  (separated (_merge_intervals l) /\
   (forall m, separated m -> _merge_intervals m = m) /\
   _merge_intervals (_merge_intervals l) = _merge_intervals l) /\
  _merge_intervals l = [ (0, 20); (25, 30) ].
Proof.
  split.
  - apply (merge_intervals_canonical [ (10, 20); (0, 12); (25, 30) ]).
    repeat constructor; unfold wf_iv; simpl; lia.
  - reflexivity.
Defined.

Lemma clip_comm (a b : Z * Z) : clip a.1 a.2 b = clip b.1 b.2 a.
Proof. unfold clip. lia. Qed.

Lemma cov_both_cons_r (a : list (Z * Z)) (iv : Z * Z) (b : list (Z * Z)) :
  cov_both a (iv :: b)
  = Py.sum (map (fun x => clip x.1 x.2 iv) a) + cov_both a b.
Proof.
  induction a as [|x r IH]; unfold cov_both in *; simpl; [done|].
  rewrite cov_cons, IH. lia.
Qed.

Lemma cov_both_comm (a b : list (Z * Z)) : cov_both a b = cov_both b a.
Proof.
  revert b. induction a as [|x r IH]; intros b.
  - by rewrite cov_both_nil_r.
  - rewrite cov_both_cons_r, <- IH. unfold cov_both at 1. simpl.
    fold (cov_both r b). unfold cov at 1.
    assert (Py.sum (map (clip x.1 x.2) b) = Py.sum (map (fun y => clip y.1 y.2 x) b)).
    { clear. induction b as [|y b IHb]; simpl; [done|].
      by rewrite IHb, clip_comm. }
    unfold cov. simpl. lia.
Qed.

(** X3. The doubly covered duration does not depend on which of the two
    merged sets drives the sweep. *)
Theorem intersection_coverage_symmetric (a b : list (Z * Z)) :
  separated a -> separated b ->
  _intersection_coverage a b = _intersection_coverage b a.
Proof.
  intros Ha Hb. rewrite !intersection_coverage_cov by done. apply cov_both_comm.
Qed.

Lemma intersection_coverage_symmetric_witness :
  _intersection_coverage [ (0, 20); (25, 30) ] [ (5, 15); (18, 27) ]
  = _intersection_coverage [ (5, 15); (18, 27) ] [ (0, 20); (25, 30) ] /\
  _intersection_coverage [ (0, 20); (25, 30) ] [ (5, 15); (18, 27) ] = 14.
Proof.
  split; [|reflexivity].
  apply (intersection_coverage_symmetric [ (0, 20); (25, 30) ] [ (5, 15); (18, 27) ]);
    simpl; unfold wf_iv; simpl; repeat split; repeat constructor; simpl; lia.
Defined.

Lemma cov_of_member (a : list (Z * Z)) (iv : Z * Z) :
  separated a -> iv ∈ a -> cov a iv.1 iv.2 = iv.2 - iv.1.
Proof.
  induction a as [|x r IH]; intros Hsep Hin; [by apply elem_of_nil in Hin|].
  destruct Hsep as (Hwf & Hgap & Hsep). rewrite cov_cons. unfold wf_iv in Hwf.
  apply elem_of_cons in Hin as [->|Hin].
  - rewrite cov_after; [unfold clip; lia|].
    eapply Forall_impl; [exact Hgap|]. simpl. intros; lia.
  - rewrite (IH Hsep Hin).
    pose proof (proj1 (Forall_forall _ _) Hgap iv Hin) as Hlt. simpl in Hlt.
    pose proof (proj1 (Forall_forall _ _) (separated_wf _ Hsep) iv Hin) as Hiv.
    unfold wf_iv in Hiv. unfold clip. lia.
Qed.

(** X4. A merged set overlaps itself on all of its covered duration, and
    overlaps the empty set on none. *)
Theorem intersection_coverage_self (a : list (Z * Z)) :
  separated a ->
  _intersection_coverage a a = _total_covered a /\
  _intersection_coverage a [] = 0 /\ _intersection_coverage [] a = 0.
Proof.
  intros Ha. split; [|split; [by destruct a | done]].
  rewrite intersection_coverage_cov by done.
  unfold cov_both, _total_covered. f_equal. apply map_ext_in.
  intros iv Hin. apply cov_of_member; [done | by apply list_elem_of_In].
Qed.

Lemma intersection_coverage_self_witness :
  _intersection_coverage [ (0, 20); (25, 30) ] [ (0, 20); (25, 30) ]
  = _total_covered [ (0, 20); (25, 30) ] /\
  _intersection_coverage [ (0, 20); (25, 30) ] [] = 0 /\
  _intersection_coverage [] [ (0, 20); (25, 30) ] = 0.
Proof.
  apply (intersection_coverage_self [ (0, 20); (25, 30) ]).
  simpl; unfold wf_iv; simpl; repeat split; repeat constructor; simpl; lia.
Defined.

(** ** Classification and the overlap report *)

Lemma first_nccl_label_tags (name label : string) :
  first_nccl_label NCCL_TYPES name = Some label ->
  label ∈ [ "allgather"; "reducescatter"; "allreduce"; "broadcast"; "sendrecv";
            "reduce" ]%string.
Proof.
  unfold NCCL_TYPES. cbn [first_nccl_label].
  repeat (destruct (Py.str_in _ (Py.lower name)); [intros [= <-]; set_solver|]).
  done.
Qed.

(** X5. [classify_kernel] answers one of eight tags, and the tag begins
    with "nccl_" exactly when the lower-cased name contains "nccl": the
    collective test of the overlap analysis and of the breakdown is the
    one iteration detection uses to count collective kernels. *)
Theorem classify_kernel_tags (name : string) :
  classify_kernel name ∈ classification_tags /\
  Py.startswith "nccl_" (classify_kernel name) = Py.str_in "nccl" (Py.lower name).
Proof.
  unfold classify_kernel. destruct (Py.str_in "nccl" (Py.lower name)).
  - destruct (first_nccl_label NCCL_TYPES name) as [label|] eqn:E.
    + apply first_nccl_label_tags in E. unfold classification_tags.
      repeat (apply elem_of_cons in E as [->|E]; [split; [set_solver | done]|]).
      by apply elem_of_nil in E.
    + split; [unfold classification_tags; set_solver | done].
  - split; [unfold classification_tags; set_solver | done].
Qed.

Lemma filter_partition_length {A : Type} (f : A -> bool) (l : list A) :
  (length (List.filter (fun x => negb (f x)) l) + length (List.filter f l)
   = length l)%nat.
Proof.
  induction l as [|x r IH]; [done|]. simpl. destruct (f x); simpl; lia.
Qed.

(** X6. The overlap analysis answers the error record exactly when the
    window holds no kernel of the device; otherwise every kernel of the
    window is counted once, as a compute or as a collective kernel. *)
Theorem overlap_analysis_counts (py_round : Q -> nat -> Q) (prof : Profile)
        (device : Z) (trim : option (Z * Z)) :
  (kernels prof device trim = [] <->
   overlap_analysis py_round prof device trim = OverlapError "no kernels") /\
  (forall report,
     overlap_analysis py_round prof device trim = OverlapOk report ->
     (compute_kernels report + nccl_kernels report
      = length (kernels prof device trim))%nat).
Proof.
  unfold overlap_analysis. destruct (kernels prof device trim) as [|k ks] eqn:E.
  - split; [done | discriminate].
  - remember (k :: ks) as l eqn:El.
    split; [split; [by rewrite El | discriminate]|]. intros report [= <-].
    cbn [compute_kernels nccl_kernels]. unfold overlap_quantities.
    cbn [compute_intervals nccl_intervals]. rewrite !length_map.
    apply filter_partition_length.
Qed.

(** ** Collective breakdown *)

Lemma by_type_append_counts (by_type : list (string * list Z)) (ctype : string)
      (dur : Z) :
  Py.sum (map (fun item => Z.of_nat (length item.2))
              (by_type_append by_type ctype dur))
  = Py.sum (map (fun item => Z.of_nat (length item.2)) by_type) + 1 /\
  by_type_append by_type ctype dur <> [] /\
  (Forall (fun item => item.2 <> []) by_type ->
   Forall (fun item : string * list Z => item.2 <> [])
          (by_type_append by_type ctype dur)).
Proof.
  induction by_type as [|[key durs] rest IH]; simpl.
  - repeat split; [done | by repeat constructor].
  - destruct IH as (IH1 & IH2 & IH3). destruct (String.eqb key ctype); simpl.
    + repeat split; [rewrite length_app; simpl; lia | done |].
      intros H. inversion H; subst. constructor; [by destruct durs | done].
    + repeat split; [lia | done |].
      intros H. inversion H; subst. constructor; [done | auto].
Qed.

Lemma by_type_fold_counts (ks : list KernelRow) :
  forall by_type,
    Forall (fun item : string * list Z => item.2 <> []) by_type ->
    let groups :=
      fold_left (fun by_type k =>
                   by_type_append by_type (classify_kernel (k_name k))
                                  (k_end k - k_start k)) ks by_type in
    Py.sum (map (fun item => Z.of_nat (length item.2)) groups)
    = Py.sum (map (fun item => Z.of_nat (length item.2)) by_type)
      + Z.of_nat (length ks) /\
    Forall (fun item : string * list Z => item.2 <> []) groups /\
    (ks <> [] -> groups <> []).
Proof.
  induction ks as [|k r IH]; intros by_type Hne; cbv zeta; cbn [fold_left length].
  - repeat split; [simpl; lia | done | done].
  - destruct (by_type_append_counts by_type (classify_kernel (k_name k))
                                    (k_end k - k_start k)) as (H1 & H2 & H3).
    destruct (IH _ (H3 Hne)) as (IH1 & IH2 & IH3). cbv zeta in IH1, IH2, IH3.
    repeat split; [rewrite IH1, H1; lia | done |].
    intros _. destruct r as [|k' r']; [exact H2 | by apply IH3].
Qed.

Lemma map_outcome_returns {A B : Type} (g : A -> outcome B) (f : A -> B)
      (l : list A) :
  (forall x, g x = Returns (f x)) -> map_outcome g l = Returns (map f l).
Proof.
  intros H. induction l as [|x r IH]; simpl; [done|]. by rewrite H, IH.
Qed.

Lemma map_outcome_raises {A B : Type} (g : A -> outcome B) (e : exn) (l : list A) :
  l <> [] -> (forall x, g x = Raises e) -> map_outcome g l = Raises e.
Proof. intros Hl H. destruct l as [|x r]; [done|]. simpl. by rewrite H. Qed.

Lemma sum_map_perm {A : Type} (f : A -> Z) (l l' : list A) :
  Permutation l l' -> Py.sum (map f l) = Py.sum (map f l').
Proof.
  induction 1 as [|x l l' _ IH|x y l|l l' l'' _ IH1 _ IH2]; simpl; lia.
Qed.

(** X7. The collective breakdown is empty when the window holds no
    collective kernel; it raises [ZeroDivisionError] when the collective
    kernels have a total duration of zero; otherwise it returns at least
    one row, every row counts at least one kernel, and the counts add up
    to the number of collective kernels. *)
Theorem nccl_breakdown_outcome (py_round : Q -> nat -> Q) (prof : Profile)
        (device : Z) (trim : option (Z * Z)) :
  let nccl_kernels := List.filter is_nccl (kernels prof device trim) in
  let total_nccl_ns := Py.sum (map (fun k => k_end k - k_start k) nccl_kernels) in
  (nccl_kernels = [] -> nccl_breakdown py_round prof device trim = Returns []) /\
  (nccl_kernels <> [] -> total_nccl_ns = 0 ->
   nccl_breakdown py_round prof device trim = Raises ZeroDivisionError) /\
  (nccl_kernels <> [] -> total_nccl_ns <> 0 ->
   exists rows,
     nccl_breakdown py_round prof device trim = Returns rows /\
     rows <> [] /\
     Forall (fun row => (1 <= nb_count row)%nat) rows /\
     Py.sum (map (fun row => Z.of_nat (nb_count row)) rows)
     = Z.of_nat (length nccl_kernels)).
Proof.
  intros nccl_kernels total_nccl_ns. unfold nccl_breakdown.
  fold nccl_kernels. fold total_nccl_ns.
  destruct (by_type_fold_counts nccl_kernels [] ltac:(constructor))
    as (Hsum & Hne & Hnil).
  cbv zeta in Hsum, Hne, Hnil.
  set (groups := fold_left _ nccl_kernels []) in *.
  pose proof (sorted_by_key_perm (fun item : string * list Z => - Py.sum item.2) groups)
    as Hperm.
  set (ordered := Py.sorted_by_key _ groups) in *.
  assert (Hord : nccl_kernels <> [] -> ordered <> []).
  { intros Hk H0. rewrite H0 in Hperm. apply Permutation_nil in Hperm.
    by apply Hnil. }
  split; [|split].
  - intros ->. done.
  - intros Hk Hz. destruct nccl_kernels as [|k ks] eqn:E; [done|].
    apply map_outcome_raises; [by apply Hord|].
    intros [ctype durs]. by rewrite Hz.
  - intros Hk Hnz. destruct nccl_kernels as [|k ks] eqn:E; [done|].
    set (row := fun item : string * list Z =>
           {| nb_type := Py.remove_all "nccl_" item.1;
              nb_count := length item.2;
              nb_total_ms := ns_to_ms py_round (Py.sum item.2) 2;
              nb_avg_ms :=
                py_round (inject_Z (Py.sum item.2)
                          / inject_Z (Z.of_nat (length item.2)) / 1000000)%Q 3%nat;
              nb_min_ms := ns_to_ms py_round (Py.min_of 0 item.2) 3;
              nb_max_ms := ns_to_ms py_round (Py.max_of 0 item.2) 3;
              nb_pct :=
                py_round (inject_Z (100 * Py.sum item.2) / inject_Z total_nccl_ns)%Q
                         1%nat |}).
    exists (map row ordered). split; [|split; [|split]].
    + apply map_outcome_returns. intros [ctype durs].
      destruct (Z.eqb_spec total_nccl_ns 0); [done|]. reflexivity.
    + intros H0. apply map_eq_nil in H0. by apply Hord.
    + rewrite Forall_map. rewrite Hperm.
      eapply Forall_impl; [exact Hne|]. intros [c d] Hd. simpl in *.
      destruct d; [done | simpl; lia].
    + rewrite map_map. cbn [nb_count row].
      rewrite (sum_map_perm _ _ _ Hperm), Hsum. simpl. lia.
Qed.

(** ** Iteration detection: markers and rows *)

Lemma Forall_of_sublist {A : Type} (P : A -> Prop) (k l : list A) :
  sublist k l -> Forall P l -> Forall P k.
Proof.
  induction 1 as [|x k l _ IH|x k l _ IH]; intros H; [done| |];
    inversion H; subst; [constructor|]; auto.
Qed.

Lemma starts_after_in_sequence (last_end : Z) (l : list NvtxRow) :
  starts_after last_end l -> Forall (fun n => n_start n < n_end n) l ->
  Forall (fun b => last_end <= n_start b) l /\ in_sequence l.
Proof.
  revert last_end. induction l as [|a r IH]; intros last_end Hchain Hpos;
    [by split|].
  destruct Hchain as [Ha Hr]. inversion Hpos as [|? ? Hpa Hpr]; subst.
  destruct (IH (n_end a) Hr Hpr) as [Hge Hseq]. split; [|by split].
  constructor; [done|]. eapply Forall_impl; [exact Hge|]. simpl. intros; lia.
Qed.

(** X8. The marker scopes iteration detection keeps are taken, in order,
    from the marker scopes of the primary thread, and no two of them
    overlap: each ends before every later one starts. *)
Theorem kept_markers_in_sequence (top_launcher : Profile -> Z -> option (Z * nat))
        (prof : Profile) (device : Z) (trim : option (Z * Z)) (marker : string) :
  let t := match trim with Some t => t | None => time_range prof end in
  let rows := marker_rows prof marker (_find_primary_thread top_launcher prof device)
                          (t.1 - 5000000000, t.2) in
  let kept := kept_markers top_launcher prof device trim marker in
  sublist kept rows /\ in_sequence kept /\
  Forall (fun n => n_start n < n_end n) kept.
Proof.
  intros t rows kept. subst kept. unfold kept_markers. fold t. fold rows.
  pose proof (keep_top_level_sublist 0 rows) as Hsub.
  assert (Hpos : Forall (fun n => n_start n < n_end n) (keep_top_level 0 rows)).
  { eapply Forall_of_sublist; [exact Hsub | apply marker_rows_positive]. }
  split; [done|]. split; [|done].
  by apply (starts_after_in_sequence 0 _ (keep_top_level_chain 0 rows)).
Qed.

Lemma iteration_row_some (py_round : Q -> nat -> Q) (kmap : gmap Z KernelInfo)
      (rt_all : list RuntimeRow) (i : nat) (it : NvtxRow) (row : IterationRow) :
  iteration_row py_round kmap rt_all i it = Some row ->
  it_iteration row = i /\
  it_kernel_count row = length (correlated kmap rt_all (n_start it) (n_end it)) /\
  (1 <= it_kernel_count row)%nat /\
  (it_nccl_count row <= it_kernel_count row)%nat.
Proof.
  unfold iteration_row.
  destruct (correlated kmap rt_all (n_start it) (n_end it)) as [|k ks]; [done|].
  remember (k :: ks) as l eqn:El. intros [= <-].
  cbn [it_iteration it_kernel_count it_nccl_count].
  split; [done|]. split; [done|]. split; [subst l; simpl; lia|].
  pose proof (filter_length_le (fun _ => true)
                (fun k => Py.str_in "nccl" (Py.lower (ki_name k))) l
                (fun _ _ _ => eq_refl)) as Hle.
  assert (Hall : List.filter (fun _ : KernelInfo => true) l = l).
  { clear. induction l as [|x l IHl]; simpl; congruence. }
  rewrite Hall in Hle. exact Hle.
Qed.

Lemma enumerate_from_rows (kmap : gmap Z KernelInfo) (rt_all : list RuntimeRow)
      (py_round : Q -> nat -> Q) (its : list NvtxRow) :
  forall i,
    let rows := omap (fun item : nat * NvtxRow =>
                        iteration_row py_round kmap rt_all item.1 item.2)
                     (enumerate_from i its) in
    Forall (fun row => (i <= it_iteration row < i + length its)%nat /\
                       (1 <= it_kernel_count row)%nat /\
                       (it_nccl_count row <= it_kernel_count row)%nat) rows /\
    increasing (map it_iteration rows) /\
    (length rows <= length its)%nat.
Proof.
  induction its as [|it r IH]; intros i; cbv zeta; [by repeat split|].
  cbn [enumerate_from omap list_omap]. destruct (IH (S i)) as (Hrows & Hinc & Hlen).
  cbv zeta in Hrows, Hinc, Hlen.
  set (rest := omap _ (enumerate_from (S i) r)) in *.
  assert (Hrest : Forall (fun row => (i < it_iteration row < i + length (it :: r))%nat /\
                                     (1 <= it_kernel_count row)%nat /\
                                     (it_nccl_count row <= it_kernel_count row)%nat) rest).
  { eapply Forall_impl; [exact Hrows|]. simpl. intros row (? & ? & ?). lia. }
  cbn [fst snd].
  destruct (iteration_row py_round kmap rt_all i it) as [row|] eqn:Er.
  - destruct (iteration_row_some _ _ _ _ _ _ Er) as (Hi & _ & Hk & Hn).
    cbn [map increasing]. split; [|split].
    + constructor; [simpl; lia|].
      eapply Forall_impl; [exact Hrest|]. simpl. intros row' (? & ? & ?). lia.
    + split; [|exact Hinc]. rewrite Forall_map.
      eapply Forall_impl; [exact Hrest|]. simpl. intros row' (? & ? & ?). lia.
    + simpl. lia.
  - split; [|split; [exact Hinc | simpl; lia]].
    eapply Forall_impl; [exact Hrest|]. simpl. intros row (? & ? & ?). lia.
Qed.

(** X9. Every iteration reported has at least one kernel and no more
    collective kernels than kernels; the iteration numbers are the
    positions of the kept markers, strictly increasing, with a gap where
    a marker without kernels was skipped. *)
Theorem detect_iterations_rows (py_round : Q -> nat -> Q)
        (top_launcher : Profile -> Z -> option (Z * nat))
        (prof : Profile) (device : Z) (trim : option (Z * Z)) (marker : string) :
  let rows := detect_iterations py_round top_launcher prof device trim marker in
  let kept := kept_markers top_launcher prof device trim marker in
  Forall (fun row => (it_iteration row < length kept)%nat /\
                     (1 <= it_kernel_count row)%nat /\
                     (it_nccl_count row <= it_kernel_count row)%nat) rows /\
  increasing (map it_iteration rows) /\
  (length rows <= length kept)%nat.
Proof.
  intros rows kept. subst rows. unfold detect_iterations.
  destruct (decide (kernel_map prof device = ∅)); [repeat split; simpl; (done || lia)|].
  fold kept. destruct kept as [|it its] eqn:E; [by repeat split|].
  rewrite <- E.
  match goal with
  | |- context [omap _ (enumerate_from 0 kept)] =>
      destruct (enumerate_from_rows (kernel_map prof device)
                  (Py.sorted_by_key r_start
                     (List.filter
                        (fun r => r_globalTid r =? _find_primary_thread top_launcher prof device)
                        (RUNTIME prof)))
                  py_round kept 0%nat) as (H1 & H2 & H3)
  end.
  cbv zeta in H1, H2, H3. split; [|by split].
  eapply Forall_impl; [exact H1|]. simpl. intros row (? & ? & ?). lia.
Qed.

(** ** The correlation loop *)

Lemma correlated_all_late (kmap : gmap Z KernelInfo) (rest : list RuntimeRow)
      (cpu_start cpu_end bound : Z) :
  cpu_end < bound ->
  Forall (fun y => bound <= r_start y) rest ->
  Forall (fun r => r_start r <= r_end r) rest ->
  correlated_all kmap rest cpu_start cpu_end = [].
Proof.
  intros Hlt. unfold correlated_all.
  induction rest as [|r rest IH]; intros Hge Hwf; [done|].
  inversion Hge as [|? ? Hr Hge']; inversion Hwf as [|? ? Hw Hwf']; subst.
  cbn [omap list_omap]. destruct (Z.leb_spec (r_end r) cpu_end); [lia|].
  rewrite andb_false_r. by apply IH.
Qed.

(** X10. On runtime calls sorted by start, each with [end >= start], the
    early [break] of the correlation loop drops nothing: the loop
    returns the kernel of every call inside the range. *)
Theorem correlated_break_harmless (kmap : gmap Z KernelInfo)
        (rt_rows : list RuntimeRow) (cpu_start cpu_end : Z) :
  key_sorted r_start rt_rows ->
  Forall (fun r => r_start r <= r_end r) rt_rows ->
  correlated kmap rt_rows cpu_start cpu_end
  = correlated_all kmap rt_rows cpu_start cpu_end.
Proof.
  induction rt_rows as [|rt rest IH]; intros Hsorted Hwf; [done|].
  destruct Hsorted as [Hge Hsorted]. inversion Hwf as [|? ? Hrt Hrest]; subst.
  cbn [correlated]. destruct (Z.ltb_spec cpu_end (r_start rt)) as [Hlt|Hle].
  - symmetry. apply (correlated_all_late kmap (rt :: rest) cpu_start cpu_end (r_start rt));
      [done | constructor; [lia | done] | done].
  - rewrite (IH Hsorted Hrest). unfold correlated_all. cbn [omap list_omap].
    destruct ((cpu_start <=? r_start rt) && (r_end rt <=? cpu_end)); [|done].
    by destruct (kmap !! r_correlationId rt).
Qed.

Lemma correlated_break_harmless_witness :
  let kmap := kernel_map nested_profile 0 in
  let rt_rows := runtime_rows nested_profile 1 (0, 1000) in
  correlated kmap rt_rows 10 40 = correlated_all kmap rt_rows 10 40 /\
  map ki_name (correlated kmap rt_rows 10 40) = [ "gemm"%string ].
Proof.
  cbv zeta. split.
  - apply (correlated_break_harmless (kernel_map nested_profile 0)
             (runtime_rows nested_profile 1 (0, 1000)) 10 40).
    + apply sorted_by_key_sorted.
    + vm_compute. repeat constructor; discriminate.
  - vm_compute. reflexivity.
Defined.

(** ** The marker pattern *)

Lemma sql_like_percent (p text : string) :
  sql_like (String "%" p) text
  = sql_like p text ||
    match text with
    | EmptyString => false
    | String _ t => sql_like (String "%" p) t
    end.
Proof. by destruct text. Qed.

Lemma sql_like_literal_prefix (m text : string) :
  wildcard_free m ->
  sql_like (m ++ "%") text = Py.startswith (Py.lower m) (Py.lower text).
Proof.
  revert text. induction m as [|c m IH]; intros text Hm.
  - simpl. induction text as [|d t IHt]; [done|].
    change (sql_like "%" (String d t)) with (sql_like "" (String d t) || sql_like "%" t).
    by rewrite IHt.
  - destruct Hm as (Hp & Hu & Hm).
    change (String c m +:+ "%") with (String c (m +:+ "%")). cbn [sql_like].
    destruct (Ascii.eqb_spec c "%"); [done|].
    destruct (Ascii.eqb_spec c "_"); [done|].
    destruct text as [|d t]; [reflexivity|]. cbn [Py.lower Py.startswith].
    rewrite (IH t Hm). by destruct (Ascii.eqb (Py.lower_char c) (Py.lower_char d)).
Qed.

(** X11. For a marker without the pattern characters [%] and [_], the
    marker query keeps exactly the texts that contain the marker,
    letters compared without case.  The underscore of the default
    marker "sample_0" is a pattern character: it also finds "sampleX0". *)
Theorem marker_pattern_contains (marker text : string) :
  (wildcard_free marker ->
   sql_like ("%" ++ marker ++ "%") text
   = Py.str_in (Py.lower marker) (Py.lower text)) /\
  sql_like ("%" ++ "sample_0" ++ "%") "sampleX0" = true /\
  Py.str_in (Py.lower "sample_0") (Py.lower "sampleX0") = false.
Proof.
  split; [|split; reflexivity]. intros Hm.
  change ("%" ++ marker ++ "%")%string with (String "%" (marker ++ "%")).
  induction text as [|d t IH].
  - rewrite sql_like_percent, sql_like_literal_prefix by done. simpl.
    by destruct (Py.startswith (Py.lower marker) "").
  - rewrite sql_like_percent, sql_like_literal_prefix, IH by done.
    cbn [Py.lower Py.str_in].
    by destruct (Py.startswith (Py.lower marker) _).
Qed.

(** ** Projection: depths and the output window *)

Lemma project_loop_open_counts (kmap : gmap Z KernelInfo)
      (rt_idx : gmap Z (list RuntimeRow)) (trim : Z * Z) (nvtx : list NvtxRow) :
  forall stacks h s0,
    represents stacks h s0 ->
    key_sorted n_start nvtx ->
    Forall (fun n => s0 <= n_start n) nvtx ->
    let trace := project_loop kmap rt_idx trim stacks nvtx in
    map (fun item : NvtxRow * nat * option ProjectedRow => item.1.2) trace
    = open_counts h (map scope_of trace).
Proof.
  induction nvtx as [|n rest IH]; intros stacks h s0 Hrep Hsorted Hs0; [done|].
  destruct Hsorted as [Hge Hsorted]. inversion Hs0 as [|? ? Hn Hrest]; subst.
  cbn [project_loop]. destruct (nonempty_text n) as [text|].
  - pose proof (project_scope_depth kmap rt_idx trim stacks text n) as Hscope.
    destruct (project_scope kmap rt_idx trim stacks text n) as [[stacks' depth] row].
    destruct Hscope as [Hcd _].
    pose proof (compute_depth_represents stacks h s0 n Hrep Hn) as Hstep.
    rewrite <- Hcd in Hstep. destruct Hstep as [Hdepth Hrep'].
    cbv zeta. cbn [map open_counts]. change (scope_of (n, depth, row)) with n.
    cbn [fst snd]. rewrite Hdepth. f_equal.
    by apply (IH stacks' (h ++ [n]) (n_start n)).
  - by apply (IH stacks h s0).
Qed.

(** X12. The depth [project_nvtx] computes for a scope is the number of
    scopes of the same thread processed before it whose end lies after
    its start; a row it emits carries that depth. *)
Theorem projected_depth_counts_open (prof : Profile) (device : Z) (trim : Z * Z)
        (pad : Z) :
  let trace := project_trace prof device trim pad in
  map (fun item : NvtxRow * nat * option ProjectedRow => item.1.2) trace
  = open_counts [] (map scope_of trace) /\
  Forall (fun item : NvtxRow * nat * option ProjectedRow =>
            forall row, item.2 = Some row -> p_depth row = item.1.2) trace.
Proof.
  intros trace. split.
  - subst trace. unfold project_trace.
    apply (project_loop_open_counts _ _ _ _ ∅ [] (trim.1 - pad));
      [ apply represents_empty
      | apply sorted_by_key_sorted
      | apply (nvtx_events_from prof _ (trim.1 - pad, trim.2)) ].
  - apply Forall_forall. intros item Hin.
    apply list_elem_of_split in Hin as (l1 & l2 & E).
    subst trace. unfold project_trace in E.
    eapply (project_loop_depths _ _ _
              (nvtx_events prof (gpu_threads prof device) (trim.1 - pad, trim.2))
              ∅ [] (trim.1 - pad));
      [ apply represents_empty
      | apply sorted_by_key_sorted
      | apply (nvtx_events_from prof _ (trim.1 - pad, trim.2))
      | exact E ].
Qed.

Lemma fold_min_in (l : list Z) (x : Z) : fold_left Z.min l x ∈ x :: l.
Proof.
  revert x. induction l as [|y r IH]; intros x; simpl; [by left|].
  specialize (IH (Z.min x y)). apply elem_of_cons in IH as [->|IH].
  - destruct (Z.min_spec x y) as [[_ ->]|[_ ->]]; [by left | right; by left].
  - right. by right.
Qed.

Lemma fold_max_in (l : list Z) (x : Z) : fold_left Z.max l x ∈ x :: l.
Proof.
  revert x. induction l as [|y r IH]; intros x; simpl; [by left|].
  specialize (IH (Z.max x y)). apply elem_of_cons in IH as [->|IH].
  - destruct (Z.max_spec x y) as [[_ ->]|[_ ->]]; [right; by left | by left].
  - right. by right.
Qed.

Lemma nonempty_text_some (n : NvtxRow) (text : string) :
  nonempty_text n = Some text -> n_text n = Some text /\ text <> ""%string.
Proof.
  unfold nonempty_text. destruct (n_text n) as [[|c t]|]; [done| |done].
  by intros [= <-].
Qed.

(** What a row emitted for the scope [n] holds. *)
Lemma project_scope_row (kmap : gmap Z KernelInfo) (rt_idx : gmap Z (list RuntimeRow))
      (trim : Z * Z) (stacks : gmap Z (list Z)) (text : string) (n : NvtxRow)
      (row : ProjectedRow) :
  (project_scope kmap rt_idx trim stacks text n).2 = Some row ->
  p_name row = text /\
  trim.1 <= p_end row /\ p_start row <= trim.2 /\
  (p_projected row = false -> p_start row = n_start n /\ p_end row = n_end n) /\
  (p_projected row = true ->
   exists r r' k k',
     kmap !! r_correlationId r = Some k /\ kmap !! r_correlationId r' = Some k' /\
     n_start n <= r_start r /\ r_end r <= n_end n /\
     n_start n <= r_start r' /\ r_end r' <= n_end n /\
     p_start row = ki_start k /\ p_end row = ki_end k').
Proof.
  unfold project_scope.
  destruct (_compute_depth stacks (n_globalTid n) (n_start n) (n_end n)) as [stacks' depth].
  destruct (correlated kmap _ _ _) as [|k0 ks] eqn:E.
  - cbn [snd]. destruct (Z.leb_spec trim.1 (n_end n)); [|done].
    destruct (Z.leb_spec (n_start n) trim.2); [|done]. cbn [andb].
    intros [= <-]. cbn [p_name p_start p_end p_projected]. by repeat split.
  - remember (k0 :: ks) as l eqn:El. cbn [snd].
    destruct (Z.leb_spec trim.1 (Py.max_of 0 (map ki_end l))); [|done].
    destruct (Z.leb_spec (Py.min_of 0 (map ki_start l)) trim.2); [|done]. cbn [andb].
    intros [= <-]. cbn [p_name p_start p_end p_projected].
    split; [done|]. split; [done|]. split; [done|]. split; [done|]. intros _.
    assert (Hmin : Py.min_of 0 (map ki_start l) ∈ map ki_start l).
    { subst l. cbn [map Py.min_of]. apply fold_min_in. }
    assert (Hmax : Py.max_of 0 (map ki_end l) ∈ map ki_end l).
    { subst l. cbn [map Py.max_of]. apply fold_max_in. }
    apply list_elem_of_In, in_map_iff in Hmin as (k & Hk & Hin).
    apply list_elem_of_In, in_map_iff in Hmax as (k' & Hk' & Hin').
    rewrite <- E in Hin, Hin'.
    apply list_elem_of_In, correlated_launched in Hin as (r & _ & Hr & ? & ?).
    apply list_elem_of_In, correlated_launched in Hin' as (r' & _ & Hr' & ? & ?).
    exists r, r', k, k'. by repeat split.
Qed.

Lemma omap_length_le {A B : Type} (f : A -> option B) (l : list A) :
  (length (omap f l) <= length l)%nat.
Proof.
  induction l as [|x r IH]; [done|]. cbn [omap list_omap].
  destruct (f x); simpl; lia.
Qed.

Lemma project_loop_rows (kmap : gmap Z KernelInfo) (rt_idx : gmap Z (list RuntimeRow))
      (trim : Z * Z) (P : NvtxRow -> ProjectedRow -> Prop) (nvtx : list NvtxRow) :
  (forall stacks text n row,
      n ∈ nvtx -> nonempty_text n = Some text ->
      (project_scope kmap rt_idx trim stacks text n).2 = Some row -> P n row) ->
  forall stacks,
    let trace := project_loop kmap rt_idx trim stacks nvtx in
    Forall (fun item : NvtxRow * nat * option ProjectedRow =>
              forall row, item.2 = Some row -> P (scope_of item) row) trace /\
    (length trace <= length nvtx)%nat.
Proof.
  induction nvtx as [|n rest IH]; intros HP stacks; cbv zeta; [by split|].
  assert (HP' : forall stacks text n' row,
             n' ∈ rest -> nonempty_text n' = Some text ->
             (project_scope kmap rt_idx trim stacks text n').2 = Some row -> P n' row).
  { intros st text n' row Hn'. apply HP. by right. }
  cbn [project_loop]. destruct (nonempty_text n) as [text|] eqn:Et.
  - specialize (HP stacks text n).
    destruct (project_scope kmap rt_idx trim stacks text n) as [[stacks' depth] row0].
    destruct (IH HP' stacks') as [Hrows Hlen]. split; [|simpl; lia].
    constructor; [|done]. intros row Hrow. apply HP; [by left | done | done].
  - destruct (IH HP' stacks) as [Hrows Hlen]. split; [done | simpl; lia].
Qed.

(** X13. Every row [project_nvtx] emits has a non-empty name and meets
    the output window.  A row that is not projected keeps the CPU range
    of its scope, which is not empty; the bounds of a projected row are
    the start and the end of kernels of the device launched by calls
    inside the scope.  No scope gives more than one row. *)
Theorem projected_rows_in_window (prof : Profile) (device : Z) (trim : Z * Z)
        (pad : Z) :
  let kmap := kernel_map prof device in
  let nvtx := nvtx_events prof (gpu_threads prof device) (trim.1 - pad, trim.2) in
  let rows := project_nvtx prof device trim pad in
  Forall (fun row =>
            p_name row <> ""%string /\
            trim.1 <= p_end row /\ p_start row <= trim.2 /\
            (p_projected row = false ->
             p_start row < p_end row /\
             exists n, n ∈ nvtx /\ n_text n = Some (p_name row) /\
                       p_start row = n_start n /\ p_end row = n_end n) /\
            (p_projected row = true ->
             exists c c' k k',
               kmap !! c = Some k /\ kmap !! c' = Some k' /\
               p_start row = ki_start k /\ p_end row = ki_end k')) rows /\
  (length rows <= length nvtx)%nat.
Proof.
  intros kmap nvtx rows. subst rows. unfold project_nvtx. fold kmap.
  destruct (decide (kmap = ∅)) as [|Hsome]; [split; [constructor | simpl; lia]|].
  fold nvtx.
  set (rt_idx := runtime_index prof (gpu_threads prof device)
                   (trim.1 - pad, trim.2 + 2000000000)).
  destruct (project_loop_rows kmap rt_idx trim
              (fun n row =>
                 n ∈ nvtx /\ n_text n = Some (p_name row) /\ p_name row <> ""%string /\
                 trim.1 <= p_end row /\ p_start row <= trim.2 /\
                 (p_projected row = false ->
                  p_start row = n_start n /\ p_end row = n_end n) /\
                 (p_projected row = true ->
                  exists c c' k k',
                    kmap !! c = Some k /\ kmap !! c' = Some k' /\
                    p_start row = ki_start k /\ p_end row = ki_end k'))
              nvtx) with (stacks := (∅ : gmap Z (list Z))) as [Hrows Hlen].
  { intros stacks text n row Hn Ht Hrow.
    apply nonempty_text_some in Ht as [Ht Hne].
    apply project_scope_row in Hrow as (Hname & H1 & H2 & Hcpu & Hgpu).
    rewrite Hname. do 6 (split; [done|]).
    intros Hp. destruct (Hgpu Hp) as (r & r' & k & k' & ? & ? & _ & _ & _ & _ & ? & ?).
    by exists (r_correlationId r), (r_correlationId r'), k, k'. }
  cbv zeta in Hrows, Hlen. split.
  - apply Forall_forall. intros row Hrow.
    apply list_elem_of_omap in Hrow as (item & Hitem & Hemit).
    pose proof (proj1 (Forall_forall _ _) Hrows item Hitem row Hemit)
      as (Hn & Ht & Hne & H1 & H2 & Hcpu & Hgpu).
    do 3 (split; [done|]). split; [|done].
    intros Hp. destruct (Hcpu Hp) as [Hs He]. split.
    + rewrite Hs, He.
      subst nvtx. unfold nvtx_events, Py.sorted_by_key in Hn.
      rewrite sorted_perm in Hn. apply list_elem_of_In, filter_In in Hn as [_ Hn].
      repeat (apply andb_prop in Hn as [Hn ?]). lia.
    + by exists (scope_of item).
  - etrans; [|exact Hlen]. apply omap_length_le.
Qed.

(** ** The tree: deduplication and ordering, once more *)

Lemma keeps_dedup (claimed : gset Z) (c : Node) :
  keeps claimed (dedup_node c) = keeps claimed c.
Proof. destruct c; [done|]. by rewrite dedup_node_unfold. Qed.

Lemma claimed_dedup_children (claimed : gset Z) (children : list Node) :
  Forall (fun c => collect_kernel_starts (dedup_node c) = collect_kernel_starts c)
         children ->
  claimed_by_children (dedup_children claimed children)
  = claimed_by_children children.
Proof.
  intros IH. apply set_eq. intros x. rewrite !elem_of_claimed. split.
  - intros (c' & Hc' & Hx).
    apply elem_of_dedup_children in Hc' as (c & Hc & _ & ->).
    exists c. split; [done|].
    by rewrite <- (proj1 (Forall_forall _ _) IH c Hc).
  - intros (c & Hc & Hx). destruct c as [k|name start end_ ch].
    { simpl in Hx. set_solver. }
    exists (dedup_node (Nvtx name start end_ ch)). split.
    + unfold dedup_children. apply list_elem_of_In, in_map, filter_In.
      split; [by apply list_elem_of_In | done].
    + by rewrite (proj1 (Forall_forall _ _) IH _ Hc).
Qed.

(** A start time removed from the leaves of a scope stays below it. *)
Lemma dedup_collect (n : Node) :
  collect_kernel_starts (dedup_node n) = collect_kernel_starts n.
Proof.
  induction n as [k|name start end_ children IH] using Node_forest_ind; [done|].
  rewrite dedup_node_unfold. apply set_eq. intros x. rewrite !elem_of_collect.
  rewrite (claimed_dedup_children _ _ IH). rewrite !elem_of_direct_starts. split.
  - intros [(k & Hk & <-)|Hc]; [|by right]. left. exists k. split; [|done].
    apply elem_of_dedup_children in Hk as (c & Hc & _ & E).
    symmetry in E. apply dedup_node_kernel in E as ->. done.
  - intros [(k & Hk & <-)|Hc]; [|by right].
    destruct (decide (ki_start k ∈ claimed_by_children children)) as [Hin|Hout];
      [by right|].
    left. exists k. split; [|done].
    unfold dedup_children. apply list_elem_of_In, in_map_iff. exists (Kernel k).
    split; [done|]. apply filter_In. split; [by apply list_elem_of_In|].
    simpl. by apply bool_decide_eq_true.
Qed.

Lemma filter_filter_same {A : Type} (f : A -> bool) (l : list A) :
  List.filter f (List.filter f l) = List.filter f l.
Proof.
  induction l as [|x r IH]; [done|]. simpl. destruct (f x) eqn:E; [|done].
  simpl. by rewrite E, IH.
Qed.

Lemma filter_map_commute {A : Type} (f : A -> bool) (g : A -> A) (l : list A) :
  (forall x, f (g x) = f x) ->
  List.filter f (map g l) = map g (List.filter f l).
Proof.
  intros H. induction l as [|x r IH]; [done|]. simpl. rewrite H.
  destruct (f x); simpl; by rewrite IH.
Qed.

Lemma dedup_node_idempotent (n : Node) : dedup_node (dedup_node n) = dedup_node n.
Proof.
  induction n as [k|name start end_ children IH] using Node_forest_ind; [done|].
  rewrite !dedup_node_unfold. f_equal.
  rewrite claimed_dedup_children
    by (apply Forall_forall; intros c _; apply dedup_collect).
  set (claimed := claimed_by_children children).
  unfold dedup_children.
  rewrite (filter_map_commute _ _ _ (keeps_dedup claimed)), filter_filter_same.
  rewrite map_map. apply map_ext_in. intros c Hc.
  apply filter_In in Hc as [Hc _].
  by apply (proj1 (Forall_forall _ _) IH c), list_elem_of_In.
Qed.

Lemma dedup_node_scopes (n : Node) : scopes (dedup_node n) = scopes n.
Proof.
  induction n as [k|name start end_ children IH] using Node_forest_ind; [done|].
  rewrite dedup_node_unfold. cbn [scopes]. f_equal.
  unfold dedup_children. generalize (claimed_by_children children) as claimed.
  intros claimed. induction IH as [|c r Hc _ IHr]; [done|].
  cbn [List.filter]. destruct c as [k|nm st en ch].
  - simpl. destruct (bool_decide _); [simpl|]; exact IHr.
  - cbn [keeps map flat_map]. by rewrite Hc, IHr.
Qed.

(** X14. Deduplication loses no kernel start: under every root the set
    of start times is the one it was.  Running it a second time changes
    nothing. *)
Theorem deduplicate_kernels_idempotent (roots : list Node) :
  map collect_kernel_starts (_deduplicate_kernels roots)
  = map collect_kernel_starts roots /\
  map scopes (_deduplicate_kernels roots) = map scopes roots /\
  _deduplicate_kernels (_deduplicate_kernels roots) = _deduplicate_kernels roots.
Proof.
  unfold _deduplicate_kernels. rewrite !map_map. split; [|split].
  - apply map_ext. intros n. apply dedup_collect.
  - apply map_ext. intros n. apply dedup_node_scopes.
  - apply map_ext. intros n. apply dedup_node_idempotent.
Qed.

Lemma sorted_by_key_fixed {A : Type} (key : A -> Z) (l : list A) :
  key_sorted key l -> Py.sorted_by_key key l = l.
Proof.
  unfold Py.sorted_by_key. induction l as [|x r IH]; [done|].
  intros [Hx Hr]. cbn [Py.sorted]. rewrite (IH Hr).
  destruct r as [|y r']; [done|]. cbn [Py.insert_sorted].
  inversion Hx as [|? ? Hy _]; subst.
  by destruct (Z.leb_spec (key x) (key y)); [|lia].
Qed.

Lemma sort_node_sorted (n : Node) : children_sorted (sort_node n).
Proof.
  induction n as [k|name start end_ children IH] using Node_forest_ind; [done|].
  cbn [sort_node children_sorted]. split; [apply sorted_by_key_sorted|].
  apply fold_right_and_Forall. rewrite sorted_by_key_perm.
  apply Forall_forall. intros c' Hc'.
  apply list_elem_of_In, in_map_iff in Hc' as (c & <- & Hc).
  by apply (proj1 (Forall_forall _ _) IH c), list_elem_of_In.
Qed.

Lemma sort_node_fixed (n : Node) : children_sorted n -> sort_node n = n.
Proof.
  induction n as [k|name start end_ children IH] using Node_forest_ind; [done|].
  intros [Hs Hch]. apply fold_right_and_Forall in Hch. cbn [sort_node]. f_equal.
  replace (map sort_node children) with children; [by apply sorted_by_key_fixed|].
  symmetry. rewrite <- (map_id children) at 2. apply map_ext_in. intros c Hc.
  apply list_elem_of_In in Hc.
  by apply (proj1 (Forall_forall _ _) IH c Hc), (proj1 (Forall_forall _ _) Hch c Hc).
Qed.

Lemma sort_node_scopes (n : Node) : Permutation (scopes (sort_node n)) (scopes n).
Proof.
  induction n as [k|name start end_ children IH] using Node_forest_ind; [done|].
  cbn [sort_node scopes]. constructor.
  rewrite (Permutation_flat_map scopes (sorted_by_key_perm node_start _)).
  clear name start end_. induction IH as [|c r Hc _ IHr]; [done|].
  cbn [map flat_map]. by apply Permutation_app.
Qed.

(** X15. After [_sort_children] the children of every scope are in start
    order, each scope keeps its sub-scopes and its kernels, the order of
    the roots is untouched, and a tree already in order is returned as
    it is. *)
Theorem sort_children_ordered (roots : list Node) :
  Forall children_sorted (_sort_children roots) /\
  map node_start (_sort_children roots) = map node_start roots /\
  map collect_kernel_starts (_sort_children roots) = map collect_kernel_starts roots /\
  Forall2 (fun n' n => Permutation (scopes n') (scopes n)) (_sort_children roots) roots /\
  (Forall children_sorted roots -> _sort_children roots = roots) /\
  _sort_children (_sort_children roots) = _sort_children roots.
Proof.
  unfold _sort_children. rewrite !map_map.
  assert (Hsorted : Forall children_sorted (map sort_node roots)).
  { apply Forall_forall. intros n' Hn'.
    apply list_elem_of_In, in_map_iff in Hn' as (n & <- & _). apply sort_node_sorted. }
  assert (Hfixed : forall l, Forall children_sorted l -> map sort_node l = l).
  { intros l Hl. rewrite <- (map_id l) at 2. apply map_ext_in. intros c Hc.
    by apply sort_node_fixed, (proj1 (Forall_forall _ _) Hl c), list_elem_of_In. }
  split; [done|]. split; [apply map_ext, sort_node_start|].
  split; [apply map_ext, sort_collect|]. split; [|split].
  - induction roots as [|n r IH]; constructor; [apply sort_node_scopes|].
    apply IH. by inversion Hsorted.
  - apply Hfixed.
  - rewrite <- map_map. by apply Hfixed.
Qed.

(** ** The tree: nesting keeps every entry, in order *)

Lemma nest_fold_scopes (entries : list Entry) :
  forall roots stack,
    nested_paths stack ->
    match stack with (_, p) :: _ => rightmost p roots | [] => True end ->
    flat_map scopes (fold_left nest_step entries (roots, stack)).1
    = flat_map scopes roots ++ map entry_scope entries.
Proof.
  induction entries as [|e rest IH]; intros roots stack Hn Hr.
  - simpl. by rewrite app_nil_r.
  - cbn [fold_left nest_step].
    destruct (pop_ended_rightmost roots stack (e_cpu_start e) Hn Hr) as [Hn1 Hr1].
    cbv zeta in Hn1, Hr1. set (stack1 := pop_ended stack (e_cpu_start e)) in *.
    set (parent := match stack1 with (_, path) :: _ => path | [] => [] end).
    assert (Hparent : rightmost parent roots).
    { subst parent. by destruct stack1 as [|[? ?] ?]. }
    rewrite IH.
    + rewrite (scopes_append_at _ _ _ Hparent). cbn [scopes map].
      rewrite scopes_of_kernels, <- app_assoc. done.
    + cbn [nested_paths]. split; [|done]. subst parent.
      destruct stack1 as [|[? q] ?]; [done|]. by apply prefix_app_r.
    + by apply rightmost_append_at.
Qed.

Lemma nest_fold_roots (entries : list Entry) :
  forall roots stack,
    Forall (fun n => is_nvtx n = true) roots ->
    Forall (fun n => is_nvtx n = true) (fold_left nest_step entries (roots, stack)).1.
Proof.
  induction entries as [|e rest IH]; intros roots stack Hroots; [done|].
  cbn [fold_left nest_step]. apply IH.
  destruct (pop_ended stack (e_cpu_start e)) as [|[? [|i p]] ?].
  - cbn [append_at]. apply Forall_app. by split; [|repeat constructor].
  - cbn [append_at]. apply Forall_app. by split; [|repeat constructor].
  - cbn [append_at]. apply Forall_forall. intros n Hn.
    apply list_elem_of_lookup in Hn as [j Hj].
    destruct (decide (i = j)) as [->|Hne].
    + rewrite list_lookup_alter, decide_True in Hj by done.
      destruct (roots !! j) as [x|] eqn:Ex; simpl in Hj; [|done].
      injection Hj as <-.
      pose proof (proj1 (Forall_forall _ _) Hroots x
                    (list_elem_of_lookup_2 _ _ _ Ex)) as Hx.
      by destruct x.
    + rewrite list_lookup_alter, decide_False in Hj by done.
      by apply (proj1 (Forall_forall _ _) Hroots n), (list_elem_of_lookup_2 _ j).
Qed.

Lemma nest_scopes (entries : list Entry) :
  flat_map scopes (nest entries) = map entry_scope entries.
Proof. unfold nest. by rewrite nest_fold_scopes. Qed.

(** X16. Nesting loses and invents nothing: read in preorder, the scopes
    of the forest are the entries, one node each, in the order of the
    entries; a node is appended under the last scope on its way down the
    right edge of the forest. *)
Theorem nest_preorder (entries : list Entry) :
  flat_map scopes (nest entries) = map entry_scope entries /\
  Forall (fun n => is_nvtx n = true) (nest entries) /\
  (length (nest entries) <= length entries)%nat.
Proof.
  pose proof (nest_scopes entries) as Hscopes.
  pose proof (nest_fold_roots entries [] [] ltac:(constructor)) as Hroots.
  fold (nest entries) in Hroots.
  split; [done|]. split; [done|].
  rewrite <- (length_map entry_scope entries), <- Hscopes. clear Hscopes.
  induction Hroots as [|n r Hn _ IH]; [done|].
  destruct n as [k|name start end_ ch]; [done|]. simpl. rewrite length_app. lia.
Qed.

(** X17. The tree [build_nvtx_tree] returns is empty when the device has
    no kernels or no primary thread is found.  Otherwise it has one
    scope node for every scope of the primary thread that has a
    non-empty text and kernels meeting the window, and no other scope
    node; all roots are scopes, and the children of every scope are in
    start order. *)
Theorem build_nvtx_tree_scopes (top_launcher : Profile -> Z -> option (Z * nat))
        (prof : Profile) (device : Z) (trim : Z * Z) (pad : Z) :
  let kmap := kernel_map prof device in
  let tid := _find_primary_thread top_launcher prof device in
  let rt_rows := runtime_rows prof tid (trim.1 - pad, trim.2 + 2000000000) in
  let entries :=
    omap (entry_of kmap rt_rows trim) (nvtx_rows_of prof tid (trim.1 - pad, trim.2)) in
  let tree := build_nvtx_tree top_launcher prof device trim pad in
  (kmap = ∅ \/ tid = 0 -> tree = []) /\
  (kmap <> ∅ -> tid <> 0 ->
   Permutation (flat_map scopes tree) (map entry_scope entries)) /\
  Forall (fun n => is_nvtx n = true) tree /\
  Forall children_sorted tree.
Proof.
  intros kmap tid rt_rows entries tree.
  assert (Hshape : tree = [] \/
                   (kmap <> ∅ /\ tid <> 0 /\
                    tree = _sort_children (_deduplicate_kernels (nest entries)))).
  { subst tree. unfold build_nvtx_tree. fold kmap tid.
    destruct (decide (kmap = ∅)); [by left|].
    destruct (Z.eqb_spec tid 0); [by left|]. by right. }
  split; [|split; [|split]].
  - intros Hempty. destruct Hshape as [?|(? & ? & _)]; [done|]. by destruct Hempty.
  - intros Hk Ht. subst tree. unfold build_nvtx_tree. fold kmap tid.
    rewrite decide_False by done. destruct (Z.eqb_spec tid 0) as [|_]; [done|].
    fold rt_rows entries. rewrite <- nest_scopes.
    unfold _sort_children, _deduplicate_kernels. clear Hshape.
    induction (nest entries) as [|n r IH]; [done|]. cbn [map flat_map].
    apply Permutation_app; [|exact IH].
    by rewrite sort_node_scopes, dedup_node_scopes.
  - destruct Hshape as [->|(_ & _ & ->)]; [constructor|].
    pose proof (nest_fold_roots entries [] [] ltac:(constructor)) as Hroots.
    fold (nest entries) in Hroots. unfold _sort_children, _deduplicate_kernels.
    rewrite map_map. apply Forall_forall. intros n' Hn'.
    apply list_elem_of_In, in_map_iff in Hn' as (n & <- & Hn).
    apply list_elem_of_In in Hn.
    pose proof (proj1 (Forall_forall _ _) Hroots n Hn) as Hnv.
    destruct n; [done|]. by rewrite dedup_node_unfold.
  - destruct Hshape as [->|(_ & _ & ->)]; [constructor|].
    unfold _sort_children. apply Forall_forall. intros n' Hn'.
    apply list_elem_of_In, in_map_iff in Hn' as (n & <- & _). apply sort_node_sorted.
Qed.

(** ** The analyzer: the report and the targets agree *)

Lemma tally_refl (s : Stats) : tally [] s s.
Proof. unfold tally. simpl. repeat split; (lia || constructor). Qed.

Lemma sum_list_append (l l' : list nat) :
  sum_list (l ++ l') = (sum_list l + sum_list l')%nat.
Proof. induction l as [|x r IH]; simpl; lia. Qed.

Lemma tally_trans (t1 t2 : list Target) (s s1 s2 : Stats) :
  tally t1 s s1 -> tally t2 s1 s2 -> tally (t1 ++ t2) s s2.
Proof.
  unfold tally. cbv zeta. rewrite List.filter_app, length_app, map_app, sum_list_append.
  intros (? & ? & ? & ? & ? & ? & ?) (? & ? & ? & ? & ? & ? & ?).
  repeat split; try lia; try congruence. by apply Forall_app.
Qed.

Lemma convergence_fold_tally (depth : nat) (children : list JNode) :
  Forall (fun n => forall d s, tally (walk_node 1 d n) s (convergence_node n s))
         children ->
  forall s, tally (flat_map (walk_node 1 depth) children) s
                  (fold_left (fun stats child => convergence_node child stats)
                             children s).
Proof.
  induction 1 as [|c r Hc _ IH]; intros s; [apply tally_refl|].
  cbn [flat_map fold_left]. eapply tally_trans; [apply Hc | apply IH].
Qed.

Lemma convergence_node_tally (n : JNode) :
  forall d s, tally (walk_node 1 d n) s (convergence_node n s).
Proof.
  induction n as [name dur|name dur children IH] using JNode_forest_ind;
    intros d s; [apply tally_refl|].
  cbn [walk_node convergence_node]. rewrite app_assoc.
  eapply tally_trans; [|by apply convergence_fold_tally].
  destruct (List.filter j_is_nvtx children) as [|c0 cs].
  - rewrite app_nil_r.
    destruct (Nat.eqb_spec (length (List.filter j_is_kernel children)) 1) as [E|E].
    + rewrite E. unfold tally. simpl. repeat split; (lia || constructor).
    + destruct (Nat.ltb_spec 1 (length (List.filter j_is_kernel children))).
      * unfold tally. simpl. repeat split; try lia. by repeat constructor.
      * unfold tally. simpl. repeat split; (lia || constructor).
  - cbn [app]. destruct (1 <? length (List.filter j_is_kernel children))%nat;
      unfold tally; simpl; repeat split; (lia || constructor).
Qed.

Lemma filter_perm {A : Type} (f : A -> bool) (l l' : list A) :
  Permutation l l' -> Permutation (List.filter f l) (List.filter f l').
Proof.
  induction 1 as [|x l l' _ IH|x y l|l1 l2 l3 _ IH1 _ IH2]; simpl.
  - done.
  - destruct (f x); [by constructor | done].
  - destruct (f x), (f y); (done || by constructor).
  - by etrans.
Qed.

Lemma sum_list_perm (l l' : list nat) :
  Permutation l l' -> sum_list l = sum_list l'.
Proof.
  induction 1 as [|x l l' _ IH|x y l|l1 l2 l3 _ IH1 _ IH2]; simpl; lia.
Qed.

(** X18. The convergence report and the refinement targets found with
    [max_kernels = 1] agree: the unconverged scopes are the targets
    without a note, and the unmapped kernels are the kernels of those
    targets.  Every converged scope maps one kernel, an unconverged one
    leaves at least two unmapped, and [total_kernels] counts the kernels
    of scopes without sub-scopes only. *)
Theorem convergence_report_consistent (py_round : Q -> nat -> Q)
        (tree_roots : list JNode) :
  let report := convergence_report py_round tree_roots in
  let leaves := List.filter leaf_target (find_refinement_targets tree_roots 1) in
  unconverged_nvtx report = length leaves /\
  unmapped_kernels report = sum_list (map t_kernel_count leaves) /\
  mapped_kernels report = converged_nvtx report /\
  total_kernels report = (converged_nvtx report + unmapped_kernels report)%nat /\
  (converged_nvtx report + unconverged_nvtx report <= total_nvtx report)%nat /\
  (2 * unconverged_nvtx report <= unmapped_kernels report)%nat.
Proof.
  intros report leaves.
  set (zero := {| st_total_nvtx := 0; st_total_kernels := 0; st_converged := 0;
                  st_unconverged := 0; st_mapped_kernels := 0;
                  st_unmapped_kernels := 0 |}).
  assert (Htally : tally (_walk tree_roots 1 0) zero (_convergence_walk tree_roots zero)).
  { unfold _walk, _convergence_walk. apply convergence_fold_tally.
    apply Forall_forall. intros n _. apply convergence_node_tally. }
  assert (Hperm : Permutation leaves (List.filter leaf_target (_walk tree_roots 1 0))).
  { apply filter_perm, sorted_by_key_perm. }
  destruct Htally as (Hu & Hun & Hm & _ & _ & Ht & Hge).
  rewrite <- Hperm in Hu, Hun, Ht, Hge.
  subst report. unfold convergence_report. fold zero.
  cbn [unconverged_nvtx unmapped_kernels mapped_kernels total_kernels
       converged_nvtx total_nvtx].
  simpl in Hu, Hun, Hm, Ht.
  assert (Hsum : (2 * length leaves <= sum_list (map t_kernel_count leaves))%nat).
  { clear -Hge. induction Hge as [|t r Ht _ IH]; simpl; lia. }
  repeat split; lia.
Qed.

(** ** The event store: the kernel map and the launching threads *)

Lemma kernel_map_fold (l : list KernelRow) (m : gmap Z KernelInfo) (c : Z) :
  fold_left (fun m k => <[k_correlationId k := kernel_info k]> m) l m !! c
  = match last (List.filter (fun k => k_correlationId k =? c) l) with
    | Some k => Some (kernel_info k)
    | None => m !! c
    end.
Proof.
  revert m. induction l as [|k r IH]; intros m; [done|].
  cbn [fold_left List.filter]. rewrite IH.
  destruct (Z.eqb_spec (k_correlationId k) c) as [<-|Hne].
  - destruct (List.filter _ r) as [|k' r'] eqn:E.
    + change (<[k_correlationId k:=kernel_info k]> m !! k_correlationId k
              = Some (kernel_info k)).
      by rewrite lookup_insert_eq.
    + rewrite last_cons_cons.
      destruct (last (k' :: r')) as [z|] eqn:El; [done|]. by apply last_None in El.
  - by rewrite lookup_insert_ne.
Qed.

Lemma key_sorted_filter {A : Type} (key : A -> Z) (f : A -> bool) (l : list A) :
  key_sorted key l -> key_sorted key (List.filter f l).
Proof.
  induction l as [|x r IH]; [done|]. intros [Hx Hr]. simpl.
  destruct (f x); [|by apply IH]. split; [|by apply IH].
  apply Forall_forall. intros y Hy. apply list_elem_of_In, filter_In in Hy as [Hy _].
  by apply (proj1 (Forall_forall _ _) Hx), list_elem_of_In.
Qed.

Lemma key_sorted_last {A : Type} (key : A -> Z) (l : list A) (z : A) :
  key_sorted key l -> last l = Some z -> Forall (fun x => key x <= key z) l.
Proof.
  induction l as [|x r IH]; [done|]. intros [Hx Hr] Hlast.
  destruct r as [|y r'].
  - injection Hlast as <-. by repeat constructor.
  - rewrite last_cons_cons in Hlast. constructor; [|by apply IH].
    apply (proj1 (Forall_forall _ _) Hx). by apply last_Some_elem_of.
Qed.

(** X19. The kernel map holds exactly the correlation ids of the
    kernels of the device; the entry of an id is taken from a kernel row
    of the device with that id, and among several rows with one id from
    one that starts last.  The map is empty exactly when the device has
    no kernel. *)
Theorem kernel_map_lookup (prof : Profile) (device : Z) :
  let kmap := kernel_map prof device in
  (forall c ki,
      kmap !! c = Some ki ->
      exists k, k ∈ KERNEL prof /\ k_deviceId k = device /\
                k_correlationId k = c /\ kernel_info k = ki /\
                forall k', k' ∈ KERNEL prof -> k_deviceId k' = device ->
                           k_correlationId k' = c -> k_start k' <= k_start k) /\
  (forall k, k ∈ KERNEL prof -> k_deviceId k = device ->
             is_Some (kmap !! k_correlationId k)) /\
  (kmap = ∅ <-> no_kernels_on prof device).
Proof.
  intros kmap. subst kmap. unfold kernel_map.
  set (rows := Py.sorted_by_key k_start
                 (List.filter (fun k => k_deviceId k =? device) (KERNEL prof))).
  assert (Hrows : forall k, k ∈ rows <-> k ∈ KERNEL prof /\ k_deviceId k = device).
  { intros k. subst rows. rewrite sorted_by_key_perm.
    rewrite !list_elem_of_In, filter_In, Z.eqb_eq. done. }
  assert (Hcomplete : forall k, k ∈ KERNEL prof -> k_deviceId k = device ->
                                is_Some (fold_left
                                           (fun m k => <[k_correlationId k := kernel_info k]> m)
                                           rows (∅ : gmap Z KernelInfo)
                                         !! k_correlationId k)).
  { intros k Hk Hd. rewrite kernel_map_fold.
    destruct (last (List.filter _ rows)) as [z|] eqn:E; [done|].
    apply last_None in E.
    assert (Hin : In k (List.filter (fun k' => k_correlationId k' =? k_correlationId k) rows)).
    { apply filter_In. split; [apply list_elem_of_In, Hrows; done | apply Z.eqb_refl]. }
    by rewrite E in Hin. }
  split; [|split].
  - intros c ki. rewrite kernel_map_fold.
    destruct (last (List.filter _ rows)) as [z|] eqn:E; [|done]. intros [= <-].
    pose proof (last_Some_elem_of _ _ E) as Hz.
    apply list_elem_of_In, filter_In in Hz as [Hz Hc].
    apply list_elem_of_In, Hrows in Hz as [Hz Hd]. apply Z.eqb_eq in Hc.
    exists z. do 4 (split; [done|]). intros k' Hk' Hd' Hc'.
    pose proof (key_sorted_last k_start _ z
                  (key_sorted_filter _ _ _ (sorted_by_key_sorted k_start _)) E) as Hmax.
    apply (proj1 (Forall_forall _ _) Hmax k').
    apply list_elem_of_In, filter_In. split; [|by apply Z.eqb_eq].
    by apply list_elem_of_In, Hrows.
  - exact Hcomplete.
  - split.
    + intros Hempty. apply Forall_forall. intros k Hk Hd.
      destruct (Hcomplete k Hk Hd) as [ki Hki]. by rewrite Hempty in Hki.
    + apply kernel_map_none.
Qed.

(** X20. A thread is among the launching threads of a device exactly
    when one of its runtime calls carries the correlation id of a kernel
    of the device; the runtime index has an entry for each of the
    threads asked for, and for no other: its calls inside the window,
    in start order. *)
Theorem gpu_threads_runtime_index (prof : Profile) (device : Z)
        (threads : gset Z) (window : Z * Z) (tid : Z) :
  (tid ∈ gpu_threads prof device <->
   exists r k, r ∈ RUNTIME prof /\ k ∈ KERNEL prof /\ r_globalTid r = tid /\
               r_correlationId r = k_correlationId k /\ k_deviceId k = device) /\
  runtime_index prof threads window !! tid
  = (if decide (tid ∈ threads) then Some (runtime_rows prof tid window) else None) /\
  key_sorted r_start (runtime_rows prof tid window) /\
  Forall (fun r => r_globalTid r = tid /\ window.1 <= r_start r /\ r_end r <= window.2)
         (runtime_rows prof tid window).
Proof.
  split; [|split; [|split]].
  - unfold gpu_threads, launches_on. rewrite elem_of_list_to_set.
    rewrite list_elem_of_In, in_map_iff. split.
    + intros (r & <- & Hr). apply in_flat_map in Hr as (r0 & Hr0 & Hr).
      apply in_map_iff in Hr as (k & -> & Hk). apply filter_In in Hk as [Hk Hc].
      apply andb_prop in Hc as [Hc Hd]. apply Z.eqb_eq in Hc, Hd.
      exists r, k. by rewrite !list_elem_of_In.
    + intros (r & k & Hr & Hk & <- & Hc & Hd). exists r. split; [done|].
      apply in_flat_map. exists r. split; [by apply list_elem_of_In|].
      apply in_map_iff. exists k. split; [done|]. apply filter_In.
      split; [by apply list_elem_of_In|]. rewrite Hc, Hd, !Z.eqb_refl. done.
  - unfold runtime_index. destruct (decide (tid ∈ threads)) as [Hin|Hout].
    + apply elem_of_list_to_map_1.
      * rewrite map_map. simpl. rewrite map_id. apply NoDup_elements.
      * apply list_elem_of_In, in_map_iff. exists tid.
        split; [done|]. by apply list_elem_of_In, elem_of_elements.
    + apply not_elem_of_list_to_map_1. rewrite <- list_fmap_compose.
      intros H. apply list_elem_of_fmap in H as (t & -> & Ht).
      by apply elem_of_elements in Ht.
  - apply sorted_by_key_sorted.
  - unfold runtime_rows, Py.sorted_by_key. apply sorted_Forall.
    apply Forall_forall. intros r Hr. apply list_elem_of_In, filter_In in Hr as [_ Hr].
    repeat (apply andb_prop in Hr as [Hr ?]). lia.
Qed.

(** ** The searches *)

Lemma collect_until_take {A R : Type} (hit : A -> option R) (limit : Z)
      (items : list A) :
  let cap := Z.to_nat (Z.max 1 limit) in
  forall results,
    (length results < cap)%nat ->
    collect_until hit limit items results
    = (take cap (results ++ omap hit items),
       bool_decide (cap <= length (results ++ omap hit items))%nat).
Proof.
  intros cap. induction items as [|x rest IH]; intros results Hlen.
  - cbn [collect_until omap list_omap]. rewrite app_nil_r, take_ge by lia.
    by rewrite bool_decide_eq_false_2 by lia.
  - cbn [collect_until omap list_omap]. destruct (hit x) as [row|]; [|by apply IH].
    cbv zeta. rewrite length_app. cbn [length].
    destruct (Z.leb_spec limit (Z.of_nat (length results + 1))) as [Hfull|Hmore].
    + assert (Hcap : cap = (length results + 1)%nat) by lia.
      replace (results ++ row :: omap hit rest)
        with ((results ++ [row]) ++ omap hit rest) by (by rewrite <- app_assoc).
      rewrite take_app_le by (rewrite length_app; simpl; lia).
      rewrite take_ge by (rewrite length_app; simpl; lia).
      rewrite bool_decide_eq_true_2; [done|]. rewrite !length_app. simpl. lia.
    + rewrite IH by (rewrite length_app; simpl; lia).
      by rewrite <- app_assoc.
Qed.

Lemma for_devices_take {R : Type} (body : Z -> list R -> list R * bool)
      (hits : Z -> list R) (cap : nat) :
  (forall dev results,
      (length results < cap)%nat ->
      body dev results
      = (take cap (results ++ hits dev),
         bool_decide (cap <= length (results ++ hits dev))%nat)) ->
  forall devices results,
    (length results < cap)%nat ->
    for_devices body devices results = take cap (results ++ flat_map hits devices).
Proof.
  intros Hbody. induction devices as [|dev rest IH]; intros results Hlen.
  - simpl. rewrite app_nil_r. by rewrite take_ge by lia.
  - cbn [for_devices flat_map]. rewrite (Hbody dev results Hlen).
    rewrite app_assoc. destruct (bool_decide_reflect (cap <= length (results ++ hits dev))%nat).
    + symmetry. by apply take_app_le.
    + rewrite take_ge by lia. apply IH. lia.
Qed.

(** X21. [search_kernels] returns the first [max(1, limit)] matches, in
    the order of the devices and, within a device, of kernel starts; a
    match is a kernel whose lowered name contains the lowered query,
    whatever [str.lower()] does to the two texts.  The test for the
    limit comes after an append: with a limit of zero or less the
    search still returns its first match. *)
Theorem search_kernels_limit (py_round : Q -> nat -> Q)
        (str_lower : string -> string) (prof : Profile)
        (query : string) (device : option Z) (trim : option (Z * Z)) (limit : Z) :
  let devices := match device with Some d => [d] | None => meta_devices prof end in
  let matches :=
    flat_map (fun dev => omap (kernel_hit py_round str_lower (str_lower query) dev)
                              (kernels prof dev trim)) devices in
  let found := search_kernels py_round str_lower prof query device trim limit in
  found = take (Z.to_nat (Z.max 1 limit)) matches /\
  (matches <> [] -> found <> []) /\
  Forall (fun h => Py.str_in (str_lower query) (str_lower (kh_name h)) = true) found.
Proof.
  intros devices matches found.
  assert (E : found = take (Z.to_nat (Z.max 1 limit)) matches).
  { subst found matches. unfold search_kernels. fold devices.
    rewrite (for_devices_take _
               (fun dev => omap (kernel_hit py_round str_lower (str_lower query) dev)
                                (kernels prof dev trim))
               (Z.to_nat (Z.max 1 limit))); [done| |simpl; lia].
    intros dev results Hlen. by apply collect_until_take. }
  split; [done|]. split.
  - rewrite E. destruct matches as [|m ms]; [done|]. intros _.
    destruct (Z.to_nat (Z.max 1 limit)) as [|n] eqn:En; [lia | done].
  - rewrite E. apply Forall_take. subst matches.
    apply Forall_forall. intros h Hh.
    apply list_elem_of_In, in_flat_map in Hh as (dev & _ & Hh).
    apply list_elem_of_In, list_elem_of_omap in Hh as (k & _ & Hk).
    unfold kernel_hit in Hk. destruct (Py.str_in _ _) eqn:Ek; [|done].
    by injection Hk as <-.
Qed.

Lemma nvtx_events_no_threads (prof : Profile) (window : Z * Z) :
  nvtx_events prof ∅ window = [].
Proof.
  unfold nvtx_events. rewrite filter_none; [done|].
  apply Forall_forall. intros n _. rewrite andb_false_iff. right.
  apply bool_decide_eq_false_2. set_solver.
Qed.

(** X22. [search_nvtx] returns the first [max(1, limit)] scopes whose
    non-empty text, lowered, contains the lowered query, whatever
    [str.lower()] does to the two texts, device by device; a device
    without launching threads adds nothing. *)
Theorem search_nvtx_limit (py_round : Q -> nat -> Q)
        (str_lower : string -> string) (prof : Profile)
        (query : string) (device : option Z) (trim : option (Z * Z)) (limit : Z) :
  let devices := match device with Some d => [d] | None => meta_devices prof end in
  let window := match trim with Some t => t | None => time_range prof end in
  let matches :=
    flat_map (fun dev => omap (nvtx_hit py_round str_lower (str_lower query))
                              (nvtx_events prof (gpu_threads prof dev) window))
             devices in
  let found := search_nvtx py_round str_lower prof query device trim limit in
  found = take (Z.to_nat (Z.max 1 limit)) matches /\
  Forall (fun h => nh_text h <> ""%string /\ nh_start h < nh_end h /\
                   Py.str_in (str_lower query) (str_lower (nh_text h)) = true) found.
Proof.
  intros devices window matches found.
  assert (E : found = take (Z.to_nat (Z.max 1 limit)) matches).
  { subst found matches. unfold search_nvtx. fold devices window.
    rewrite (for_devices_take _
               (fun dev => omap (nvtx_hit py_round str_lower (str_lower query))
                                (nvtx_events prof (gpu_threads prof dev) window))
               (Z.to_nat (Z.max 1 limit))); [done| |simpl; lia].
    intros dev results Hlen. destruct (decide (gpu_threads prof dev = ∅)) as [->|_].
    - rewrite nvtx_events_no_threads. cbn [omap list_omap].
      rewrite app_nil_r, take_ge by lia. by rewrite bool_decide_eq_false_2 by lia.
    - by apply collect_until_take. }
  split; [done|]. rewrite E. apply Forall_take. subst matches.
  apply Forall_forall. intros h Hh.
  apply list_elem_of_In, in_flat_map in Hh as (dev & _ & Hh).
  apply list_elem_of_In, list_elem_of_omap in Hh as (n & Hn & Hhit).
  unfold nvtx_hit in Hhit. destruct (nonempty_text n) as [text|] eqn:Et; [|done].
  destruct (Py.str_in _ _) eqn:Ek; [|done]. injection Hhit as <-.
  apply nonempty_text_some in Et as [_ Hne]. cbn [nh_text nh_start nh_end].
  split; [done|]. split; [|done].
  unfold nvtx_events, Py.sorted_by_key in Hn. rewrite sorted_perm in Hn.
  apply list_elem_of_In, filter_In in Hn as [_ Hn].
  repeat (apply andb_prop in Hn as [Hn ?]). lia.
Qed.

Lemma omap_flat_map {A B C : Type} (f : B -> option C) (g : A -> list B)
      (l : list A) :
  omap f (flat_map g l) = flat_map (fun x => omap f (g x)) l.
Proof.
  induction l as [|x r IH]; [done|]. cbn [flat_map]. by rewrite omap_app, IH.
Qed.

Lemma walk_hierarchy_node_leaves (py_round : Q -> nat -> Q)
      (str_lower : string -> string) (parent_pat child_pat : string) (node : Node) :
  forall path,
    walk_hierarchy_node py_round str_lower parent_pat child_pat path node
    = omap (hierarchy_hit py_round str_lower parent_pat child_pat) (leaves_under path node).
Proof.
  induction node as [k|name start end_ children IH] using Node_forest_ind;
    intros path.
  - cbn [walk_hierarchy_node leaves_under omap list_omap]. unfold hierarchy_hit.
    cbn [fst snd]. rewrite existsb_app. cbn [existsb]. rewrite orb_false_r.
    by destruct (_ && _).
  - cbn [walk_hierarchy_node leaves_under]. rewrite omap_flat_map.
    induction IH as [|c r Hc _ IHr]; [done|]. cbn [flat_map]. by rewrite Hc, IHr.
Qed.

(** X23. [search_hierarchy] visits the kernel leaves of the tree in
    preorder and returns those whose name contains the child pattern
    and for which the parent pattern occurs in the name of a scope
    above the kernel or in the name of the kernel itself; the path
    reported is the path of the scopes above.  Patterns and names are
    compared after [str.lower()], of which nothing is assumed. *)
Theorem search_hierarchy_leaves (py_round : Q -> nat -> Q)
        (top_launcher : Profile -> Z -> option (Z * nat))
        (str_lower : string -> string) (prof : Profile)
        (parent_pattern child_pattern : string) (device : Z) (trim : Z * Z) :
  let roots := build_nvtx_tree top_launcher prof device trim 5000000000 in
  let found :=
    search_hierarchy py_round top_launcher str_lower prof parent_pattern child_pattern
                     device trim in
  found
  = omap (hierarchy_hit py_round str_lower (str_lower parent_pattern)
                        (str_lower child_pattern))
         (flat_map (leaves_under []) roots) /\
  Forall (fun h => Py.str_in (str_lower child_pattern) (str_lower (hh_name h)) = true)
         found /\
  (length found <= length (flat_map (leaves_under []) roots))%nat.
Proof.
  intros roots found.
  assert (E : found
              = omap (hierarchy_hit py_round str_lower (str_lower parent_pattern)
                                    (str_lower child_pattern))
                     (flat_map (leaves_under []) roots)).
  { subst found. unfold search_hierarchy, _walk_hierarchy. fold roots.
    rewrite omap_flat_map. apply flat_map_ext. intros n.
    apply walk_hierarchy_node_leaves. }
  split; [done|]. rewrite E. split; [|apply omap_length_le].
  apply Forall_forall. intros h Hh.
  apply list_elem_of_omap in Hh as ([p k] & _ & Hhit).
  unfold hierarchy_hit in Hhit. cbn [fst snd] in Hhit.
  destruct (Py.str_in (str_lower child_pattern) _) eqn:Ek;
    [|by rewrite andb_false_r in Hhit].
  destruct (_ && _); [|done]. by injection Hhit as <-.
Qed.

(** ** The flat export *)

Lemma last_app_cases {A : Type} (l1 l2 : list A) :
  last (l1 ++ l2) = match last l2 with Some x => Some x | None => last l1 end.
Proof.
  destruct (last l2) as [x|] eqn:E.
  - destruct l2 as [|y l2] using rev_ind; [done|].
    rewrite last_snoc in E. injection E as ->. by rewrite app_assoc, last_snoc.
  - apply last_None in E as ->. by rewrite app_nil_r.
Qed.

Lemma path_of_start_app (l1 l2 : list (list string * KernelInfo)) (s : Z) :
  path_of_start (l1 ++ l2) s
  = match path_of_start l2 s with Some p => Some p | None => path_of_start l1 s end.
Proof.
  unfold path_of_start. rewrite List.filter_app, last_app_cases.
  by destruct (last (List.filter _ l2)).
Qed.

Lemma collect_paths_fold (path : list string) (children : list Node) (s : Z) :
  Forall (fun c => forall path result,
              collect_paths_node path c result !! s
              = match path_of_start (leaves_under path c) s with
                | Some p => Some p
                | None => result !! s
                end) children ->
  forall result,
    fold_left (fun result child => collect_paths_node path child result)
              children result !! s
    = match path_of_start (flat_map (leaves_under path) children) s with
      | Some p => Some p
      | None => result !! s
      end.
Proof.
  induction 1 as [|c r Hc _ IH]; intros result; [done|].
  cbn [fold_left flat_map]. rewrite IH, path_of_start_app, Hc.
  by destruct (path_of_start (flat_map (leaves_under path) r) s).
Qed.

Lemma collect_paths_node_lookup (node : Node) (s : Z) :
  forall path result,
    collect_paths_node path node result !! s
    = match path_of_start (leaves_under path node) s with
      | Some p => Some p
      | None => result !! s
      end.
Proof.
  induction node as [k|name start end_ children IH] using Node_forest_ind;
    intros path result.
  - cbn [collect_paths_node leaves_under]. unfold path_of_start.
    cbn [List.filter snd fst]. destruct (Z.eqb_spec (ki_start k) s) as [<-|Hne].
    + by rewrite lookup_insert_eq.
    + by rewrite lookup_insert_ne.
  - cbn [collect_paths_node leaves_under]. by apply collect_paths_fold.
Qed.

(** X24. The flat export has one row for every kernel of the device in
    the window, in start order.  Without a window, or when paths are
    not asked for, every path is empty.  Otherwise the path of a row is
    looked up by the start time of its kernel: it is the path of the
    last kernel leaf of the tree, in preorder, with that start time, and
    empty when the tree has none. *)
Theorem kernel_rows_paths (py_round : Q -> nat -> Q)
        (top_launcher : Profile -> Z -> option (Z * nat)) (prof : Profile)
        (device : Z) (trim : option (Z * Z)) (include_nvtx_path : bool) :
  let rows := _kernel_rows py_round top_launcher prof device trim include_nvtx_path in
  map (fun r => (fr_name r, fr_start_ns r, fr_end_ns r, fr_stream r, fr_device r)) rows
  = map (fun k => (k_name k, k_start k, k_end k, k_streamId k, device))
        (kernels prof device trim) /\
  (trim = None \/ include_nvtx_path = false ->
   Forall (fun r => fr_nvtx_path r = ""%string) rows) /\
  (forall t, trim = Some t -> include_nvtx_path = true ->
     let leaves :=
       flat_map (leaves_under [])
                (build_nvtx_tree top_launcher prof device t 5000000000) in
     Forall (fun r => fr_nvtx_path r
                      = default ""%string (path_of_start leaves (fr_start_ns r)))
            rows).
Proof.
  intros rows. subst rows. unfold _kernel_rows. split; [|split].
  - rewrite map_map. done.
  - intros Hno. apply Forall_forall. intros r Hr.
    apply list_elem_of_In, in_map_iff in Hr as (k & <- & _). cbn [fr_nvtx_path].
    destruct Hno as [->| ->]; [done|]. by destruct trim.
  - intros t -> ->. cbv zeta. apply Forall_forall. intros r Hr.
    apply list_elem_of_In, in_map_iff in Hr as (k & <- & _).
    cbn [fr_nvtx_path fr_start_ns]. f_equal. unfold _collect_paths.
    rewrite collect_paths_fold.
    + rewrite lookup_empty. by destruct (path_of_start _ _).
    + apply Forall_forall. intros c _. apply collect_paths_node_lookup.
Qed.

(** ** The summary *)

Lemma idle_sweep_fold (rest : list KernelRow) :
  Forall wf_kernel rest ->
  forall idle max_end,
    let st := fold_left idle_sweep rest (idle, max_end) in
    idle <= st.1 /\ max_end <= st.2 /\
    st.2 = fold_left Z.max (map k_end rest) max_end /\
    st.1 - idle <= st.2 - max_end /\
    st.2 - max_end
    <= st.1 - idle + Py.sum (map (fun k => k_end k - k_start k) rest).
Proof.
  induction 1 as [|k r Hk _ IH]; intros idle max_end; cbv zeta.
  - simpl. lia.
  - cbn [fold_left map]. unfold Py.sum in *. cbn [fold_right].
    change (idle_sweep (idle, max_end) k)
      with (if max_end <? k_start k then idle + (k_start k - max_end) else idle,
            Z.max max_end (k_end k)).
    unfold wf_kernel in Hk.
    destruct (Z.ltb_spec max_end (k_start k)).
    + destruct (IH (idle + (k_start k - max_end)) (Z.max max_end (k_end k)))
        as (H1 & H2 & H3 & H4 & H5).
      split; [|split; [|split; [exact H3|split]]]; lia.
    + destruct (IH idle (Z.max max_end (k_end k))) as (H1 & H2 & H3 & H4 & H5).
      split; [|split; [|split; [exact H3|split]]]; lia.
Qed.

Lemma max_of_in (d : Z) (l : list Z) : l <> [] -> Py.max_of d l ∈ l.
Proof. destruct l as [|x r]; [done|]. intros _. apply fold_max_in. Qed.

Lemma min_of_in (d : Z) (l : list Z) : l <> [] -> Py.min_of d l ∈ l.
Proof. destruct l as [|x r]; [done|]. intros _. apply fold_min_in. Qed.

Lemma max_of_perm (d : Z) (l l' : list Z) :
  Permutation l l' -> l <> [] -> Py.max_of d l = Py.max_of d l'.
Proof.
  intros Hperm Hne.
  assert (Hne' : l' <> []).
  { intros ->. by apply Permutation_nil_r in Hperm. }
  pose proof (max_of_in d l Hne) as Hin. pose proof (max_of_in d l' Hne') as Hin'.
  apply (perm_elem_of _ _ _ Hperm) in Hin.
  apply (perm_elem_of _ _ _ (Permutation_sym Hperm)) in Hin'.
  pose proof (proj1 (Forall_forall _ _) (max_of_ge d l) _ Hin') as H1.
  pose proof (proj1 (Forall_forall _ _) (max_of_ge d l') _ Hin) as H2.
  cbn beta in H1, H2. lia.
Qed.

(** X25. For kernels with [end >= start], the idle time the summary
    sweeps up is not negative and not more than the span, and the span
    is at most the idle time plus the summed kernel durations: kernels
    that run side by side are summed twice, which is how the compute
    time, and with it the utilisation, can exceed the span. *)
Theorem summary_timing_bounds (kernels : list KernelRow) :
  Forall wf_kernel kernels ->
  let q := summary_quantities kernels in
  0 <= sn_idle_ns q <= sn_span_ns q /\
  sn_span_ns q <= sn_idle_ns q + sn_total_compute_ns q.
Proof.
  intros Hwf q. subst q. unfold summary_quantities.
  cbn [sn_idle_ns sn_span_ns sn_total_compute_ns].
  pose proof (sorted_by_key_perm k_start kernels) as Hperm.
  pose proof (sorted_by_key_sorted k_start kernels) as Hsorted.
  rewrite <- (sum_map_perm _ _ _ Hperm).
  destruct kernels as [|k0 ks0]; [simpl; lia|].
  rewrite <- (max_of_perm 0 _ _ (Permutation_map k_end Hperm))
    by (intros E; apply map_eq_nil in E;
        rewrite E in Hperm; by apply Permutation_nil_l in Hperm).
  assert (Hmin : Py.min_of 0 (map k_start (k0 :: ks0))
                 = Py.min_of 0 (map k_start (Py.sorted_by_key k_start (k0 :: ks0)))).
  { pose proof (min_of_in 0 (map k_start (k0 :: ks0)) ltac:(done)) as Hin.
    assert (Hne : map k_start (Py.sorted_by_key k_start (k0 :: ks0)) <> []).
    { intros E. apply map_eq_nil in E. rewrite E in Hperm.
      by apply Permutation_nil_l in Hperm. }
    pose proof (min_of_in 0 _ Hne) as Hin'.
    apply (perm_elem_of _ _ _ (Permutation_sym (Permutation_map k_start Hperm))) in Hin.
    apply (perm_elem_of _ _ _ (Permutation_map k_start Hperm)) in Hin'.
    pose proof (proj1 (Forall_forall _ _) (min_of_le 0 (map k_start (k0 :: ks0))) _ Hin')
      as H1.
    pose proof (proj1 (Forall_forall _ _)
                  (min_of_le 0 (map k_start (Py.sorted_by_key k_start (k0 :: ks0)))) _ Hin)
      as H2.
    cbn beta in H1, H2. lia. }
  rewrite Hmin.
  assert (Hwf' : Forall wf_kernel (Py.sorted_by_key k_start (k0 :: ks0))).
  { by rewrite Hperm. }
  destruct (Py.sorted_by_key k_start (k0 :: ks0)) as [|first rest];
    [by apply Permutation_nil_l in Hperm|].
  destruct Hsorted as [Hfirst _]. inversion Hwf' as [|? ? Hw Hrest]; subst.
  destruct (idle_sweep_fold rest Hrest 0 (k_end first)) as (H1 & H2 & H3 & H4 & H5).
  cbv zeta in H1, H2, H3, H4, H5.
  assert (Hstart : Py.min_of 0 (map k_start (first :: rest)) = k_start first).
  { pose proof (min_of_in 0 (map k_start (first :: rest)) ltac:(done)) as Hin.
    pose proof (min_of_le 0 (map k_start (first :: rest))) as Hle.
    inversion Hle as [|? ? Hle0 _]; subst.
    apply list_elem_of_In, in_map_iff in Hin as (k & Hk & Hin).
    destruct Hin as [<-|Hin]; [done|].
    pose proof (proj1 (Forall_forall _ _) Hfirst k (proj2 (list_elem_of_In _ _) Hin))
      as H6.
    cbn beta in H6, Hle0. lia. }
  rewrite Hstart. cbn [map Py.max_of]. rewrite <- H3.
  unfold wf_kernel in Hw. unfold Py.sum in *. cbn [map fold_right]. lia.
Qed.

(** Four kernels on two streams: 35 ns of kernel time in a span of 30. *)
Lemma summary_timing_bounds_witness :
  let q := summary_quantities scenario_kernels in
  (0 <= sn_idle_ns q <= sn_span_ns q /\
   sn_span_ns q <= sn_idle_ns q + sn_total_compute_ns q) /\
  (sn_span_ns q, sn_total_compute_ns q, sn_idle_ns q) = (30, 35, 5).
Proof.
  split.
  - apply (summary_timing_bounds scenario_kernels).
    repeat constructor; unfold wf_kernel; simpl; lia.
  - vm_compute. reflexivity.
Defined.

Section DictAppend.
Context {K : Type} (eqb : K -> K -> bool).
Hypothesis eqb_spec : forall a b, eqb a b = true <-> a = b.

Lemma dict_append_counts (d : list (K * list Z)) (key : K) (value : Z) :
  sum_list (map (fun item => length item.2) (dict_append eqb d key value))
  = S (sum_list (map (fun item : K * list Z => length item.2) d)) /\
  dict_append eqb d key value <> [] /\
  (Forall (fun item => item.2 <> []) d ->
   Forall (fun item : K * list Z => item.2 <> []) (dict_append eqb d key value)) /\
  (NoDup (map fst d) -> NoDup (map fst (dict_append eqb d key value))) /\
  (forall k, k ∈ map fst (dict_append eqb d key value) -> k = key \/ k ∈ map fst d).
Proof.
  induction d as [|[key' values] rest IH]; cbn [dict_append].
  - split; [done|]. split; [done|]. split; [by repeat constructor|].
    split; [intros _; simpl; apply NoDup_singleton|].
    simpl. intros k Hk. apply list_elem_of_singleton in Hk. by left.
  - destruct IH as (IH1 & IH2 & IH3 & IH4 & IH5).
    destruct (eqb key' key) eqn:E.
    + split; [simpl; rewrite length_app; simpl; lia|]. split; [done|].
      split; [|split; [done|]].
      * intros H. inversion H; subst. constructor; [by destruct values | done].
      * intros k Hk. by right.
    + split; [simpl in *; lia|]. split; [done|]. split; [|split].
      * intros H. inversion H; subst. constructor; [done | auto].
      * cbn [map fst]. intros H. apply NoDup_cons in H as [Hnew Hrest].
        apply NoDup_cons. split; [|auto].
        intros Hin. apply IH5 in Hin as [->|Hin]; [|done].
        rewrite (proj2 (eqb_spec key key) eq_refl) in E. done.
      * cbn [map fst]. intros k Hk. apply elem_of_cons in Hk as [->|Hk].
        -- right. by left.
        -- destruct (IH5 k Hk) as [?|?]; [by left | right; by right].
Qed.

Lemma dict_fold_counts {A : Type} (key_of : A -> K) (value_of : A -> Z) (l : list A) :
  forall d,
    Forall (fun item : K * list Z => item.2 <> []) d ->
    NoDup (map fst d) ->
    let d' := fold_left (fun d x => dict_append eqb d (key_of x) (value_of x)) l d in
    sum_list (map (fun item : K * list Z => length item.2) d')
    = (sum_list (map (fun item : K * list Z => length item.2) d) + length l)%nat /\
    Forall (fun item : K * list Z => item.2 <> []) d' /\
    NoDup (map fst d') /\
    (l <> [] -> d' <> []).
Proof.
  induction l as [|x r IH]; intros d Hne Hnd; cbv zeta; cbn [fold_left length].
  - split; [lia|]. by repeat split.
  - destruct (dict_append_counts d (key_of x) (value_of x)) as (H1 & H2 & H3 & H4 & _).
    destruct (IH _ (H3 Hne) (H4 Hnd)) as (IH1 & IH2 & IH3 & IH4).
    cbv zeta in IH1, IH2, IH3, IH4.
    split; [rewrite IH1, H1; lia|]. split; [done|]. split; [done|].
    intros _. destruct r as [|x' r']; [exact H2 | by apply IH4].
Qed.

End DictAppend.

Lemma key_sorted_map {A B : Type} (key : B -> Z) (f : A -> B) (l : list A) :
  key_sorted (fun x => key (f x)) l -> key_sorted key (map f l).
Proof.
  induction l as [|x r IH]; [done|]. intros [Hx Hr]. cbn [map key_sorted].
  split; [by rewrite Forall_map | by apply IH].
Qed.

(** X26. [gpu_summary] answers the error record when the window holds
    no kernel of the device, and raises [ZeroDivisionError] when it
    holds kernels whose durations add up to zero (the share [pct] of the
    first top kernel divides by the total).  Otherwise it reports the
    number of kernels, between one and ten top kernels, each with at
    least one launch, and the streams in ascending order, each once,
    their kernel counts adding up to the number of kernels. *)
Theorem gpu_summary_outcome (py_round : Q -> nat -> Q) (py_fsum : list Z -> Q)
        (prof : Profile) (device : Z) (trim : option (Z * Z)) :
  let ks := kernels prof device trim in
  let total := Py.sum (map (fun k => k_end k - k_start k) ks) in
  let result := gpu_summary py_round py_fsum prof device trim in
  (ks = [] <-> result = Returns (SummaryError device "no kernels found")) /\
  (ks <> [] -> total = 0 -> result = Raises ZeroDivisionError) /\
  (ks <> [] -> total <> 0 ->
   exists s,
     result = Returns (SummaryOk s) /\
     s_device s = device /\
     s_kernel_count s = length ks /\
     (1 <= length (s_top_kernels s) <= 10)%nat /\
     Forall (fun t => (1 <= tk_count t)%nat) (s_top_kernels s) /\
     sum_list (map sr_kernels (s_streams s)) = length ks /\
     key_sorted sr_stream (s_streams s) /\
     NoDup (map sr_stream (s_streams s))).
Proof.
  intros ks total result. subst result. unfold gpu_summary. fold ks.
  change (sn_total_compute_ns (summary_quantities ks)) with total.
  destruct ks as [|k ks'] eqn:Eks.
  { split; [done|]. split; by intros []. }
  remember (k :: ks') as l eqn:El.
  assert (Hl : l <> []) by (by subst l).
  destruct (dict_fold_counts String.eqb String.eqb_eq k_name
              (fun k => k_end k - k_start k) l [] ltac:(constructor) ltac:(constructor))
    as (_ & Hnames & _ & Hnonempty).
  destruct (dict_fold_counts Z.eqb Z.eqb_eq k_streamId
              (fun k => k_end k - k_start k) l [] ltac:(constructor) ltac:(constructor))
    as (Hcount & _ & Hnodup & _).
  cbv zeta in Hnames, Hnonempty, Hcount, Hnodup.
  set (by_name := fold_left (fun d k => dict_append String.eqb d (k_name k)
                                                    (k_end k - k_start k)) l []) in *.
  set (by_stream := fold_left (fun d k => dict_append Z.eqb d (k_streamId k)
                                                      (k_end k - k_start k)) l []) in *.
  set (top := take 10 (Py.sorted (fun a b : string * list Z =>
                                    Qle_bool (- py_fsum a.2) (- py_fsum b.2)) by_name)).
  assert (Hsorted_perm :
            Permutation (Py.sorted (fun a b : string * list Z =>
                                      Qle_bool (- py_fsum a.2) (- py_fsum b.2)) by_name)
                        by_name) by apply sorted_perm.
  assert (Htop : top <> []).
  { subst top. specialize (Hnonempty Hl).
    destruct (Py.sorted _ by_name) as [|x r] eqn:E; [|done].
    by apply Permutation_nil_l in Hsorted_perm. }
  replace (match l with
           | [] => Returns (SummaryError device "no kernels found")
           | _ :: _ => _
           end) with
    (bind
       (map_outcome
          (fun item : string * list Z =>
             if total =? 0 then Raises ZeroDivisionError
             else
               Returns
                 {| tk_name := item.1;
                    tk_total_ms := py_round (py_fsum item.2) 3%nat;
                    tk_count := length item.2;
                    tk_pct := py_round (100 * py_fsum item.2
                                        / (inject_Z total / 1000000))%Q 1%nat |})
          top)
       (fun top_kernels =>
          Returns
            (SummaryOk
               {| s_device := device;
                  s_span_ms := ns_to_ms py_round (sn_span_ns (summary_quantities l)) 2%nat;
                  s_compute_ms := ns_to_ms py_round total 2%nat;
                  s_idle_ms := ns_to_ms py_round (sn_idle_ns (summary_quantities l)) 2%nat;
                  s_utilization_pct :=
                    if sn_span_ns (summary_quantities l) =? 0 then 0%Q
                    else py_round (inject_Z (100 * total)
                                   / inject_Z (sn_span_ns (summary_quantities l)))%Q
                                  1%nat;
                  s_kernel_count := length l;
                  s_top_kernels := top_kernels;
                  s_streams :=
                    map (fun item : Z * list Z =>
                           {| sr_stream := item.1; sr_kernels := length item.2;
                              sr_total_ms := py_round (py_fsum item.2) 2%nat |})
                        (Py.sorted_by_key fst by_stream) |})))
    by (by destruct l).
  split; [|split].
  - split; [done|]. destruct (Z.eqb_spec total 0) as [Hz|Hnz]; intros H; exfalso.
    + rewrite (map_outcome_raises _ ZeroDivisionError) in H; [done | done | done].
    + by rewrite (map_outcome_returns _
                    (fun item : string * list Z =>
                       {| tk_name := item.1;
                          tk_total_ms := py_round (py_fsum item.2) 3%nat;
                          tk_count := length item.2;
                          tk_pct := py_round (100 * py_fsum item.2
                                              / (inject_Z total / 1000000))%Q 1%nat |}))
        in H.
  - intros _ Hz. destruct (Z.eqb_spec total 0) as [_|]; [|done].
    by rewrite (map_outcome_raises _ ZeroDivisionError).
  - intros _ Hnz. destruct (Z.eqb_spec total 0) as [|_]; [done|].
    rewrite (map_outcome_returns _
               (fun item : string * list Z =>
                  {| tk_name := item.1;
                     tk_total_ms := py_round (py_fsum item.2) 3%nat;
                     tk_count := length item.2;
                     tk_pct := py_round (100 * py_fsum item.2
                                         / (inject_Z total / 1000000))%Q 1%nat |}))
      by done.
    cbn [bind]. eexists. split; [reflexivity|].
    cbn [s_device s_kernel_count s_top_kernels s_streams].
    split; [done|]. split; [done|]. split; [|split; [|split; [|split]]].
    + rewrite length_map. split.
      * destruct top; [done | simpl; lia].
      * subst top. rewrite length_take. lia.
    + rewrite Forall_map. apply Forall_forall. intros item Hitem. cbn [tk_count].
      subst top. apply elem_of_take in Hitem as (i & Hitem & _).
      apply list_elem_of_lookup_2 in Hitem.
      apply (perm_elem_of _ _ _ Hsorted_perm) in Hitem.
      pose proof (proj1 (Forall_forall _ _) Hnames item Hitem) as Hne.
      destruct item as [name [|d durs]]; [done | simpl; lia].
    + rewrite map_map. cbn [sr_kernels].
      rewrite (sum_list_perm _ (map (fun item : Z * list Z => length item.2) by_stream)).
      * rewrite Hcount. simpl. lia.
      * apply Permutation_map, sorted_by_key_perm.
    + apply key_sorted_map. cbn [sr_stream]. apply sorted_by_key_sorted.
    + rewrite map_map. cbn [sr_stream].
      rewrite (Permutation_map fst (sorted_by_key_perm fst by_stream)). exact Hnodup.
Qed.

(** ** The tree: depth in the forest and open scopes *)

Lemma depths_of_kernels (d : nat) (ks : list KernelInfo) :
  flat_map (scopes_at_depth d) (map Kernel ks) = [].
Proof. by induction ks. Qed.

Lemma depths_append_at (p : list nat) (node : Node) :
  forall d forest,
    rightmost p forest ->
    flat_map (scopes_at_depth d) (append_at p node forest)
    = flat_map (scopes_at_depth d) forest ++ scopes_at_depth (d + length p) node.
Proof.
  induction p as [|i p IH]; intros d forest.
  - intros _. cbn [append_at length]. rewrite flat_map_app, Nat.add_0_r. simpl.
    by rewrite app_nil_r.
  - cbn [rightmost append_at]. intros [Hlen H].
    destruct (forest !! i) as [[k|name start end_ children]|] eqn:E; [done| |done].
    destruct (last_child_split forest i _ Hlen E) as (init & -> & Hinit).
    replace i with (length init + 0)%nat by lia.
    rewrite alter_app_r. cbn [alter list_alter]. rewrite !flat_map_app.
    cbn [flat_map scopes_at_depth]. rewrite (IH (S d) children H), !app_nil_r.
    cbn [length]. replace (S d + length p)%nat with (d + S (length p))%nat by lia.
    by rewrite <- app_assoc.
Qed.

Lemma filter_keeps_all {A : Type} (f : A -> bool) (l : list A) :
  Forall (fun x => f x = true) l -> List.filter f l = l.
Proof. induction 1 as [|x r Hx _ IH]; simpl; [done|]. by rewrite Hx, IH. Qed.

Lemma filter_reverse {A : Type} (f : A -> bool) (l : list A) :
  List.filter f (reverse l) = reverse (List.filter f l).
Proof.
  induction l as [|x r IH]; [done|]. rewrite reverse_cons, List.filter_app, IH.
  simpl. destruct (f x); [by rewrite reverse_cons | by rewrite app_nil_r].
Qed.

Lemma filter_narrow {A : Type} (f g : A -> bool) (l : list A) :
  (forall x, f x = true -> g x = true) ->
  List.filter f (List.filter g l) = List.filter f l.
Proof.
  intros H. induction l as [|x r IH]; [done|]. simpl.
  destruct (g x) eqn:Eg; simpl.
  - by rewrite IH.
  - destruct (f x) eqn:Ef; [|done]. by rewrite (H x Ef) in Eg.
Qed.

(** On a stack whose ends ascend from the top, popping the ended tops
    leaves the entries that are still open. *)
Lemma pop_ended_open (stack : list (Entry * list nat)) (s : Z) :
  ends_ascending (map fst stack) ->
  map fst (pop_ended stack s)
  = List.filter (fun a => s <? e_cpu_end a) (map fst stack) /\
  ends_ascending (map fst (pop_ended stack s)) /\
  (path_lengths stack -> path_lengths (pop_ended stack s)).
Proof.
  induction stack as [|[top path] below IH]; [done|].
  cbn [map fst pop_ended ends_ascending List.filter]. intros [Htop Hbelow].
  destruct (Z.leb_spec (e_cpu_end top) s) as [Hended|Hopen].
  - destruct (Z.ltb_spec s (e_cpu_end top)); [lia|].
    destruct (IH Hbelow) as (H1 & H2 & H3). split; [done|]. split; [done|].
    intros [_ Hp]. by apply H3.
  - destruct (Z.ltb_spec s (e_cpu_end top)); [|lia].
    split; [|by split]. cbn [map fst]. f_equal. symmetry.
    apply filter_keeps_all. eapply Forall_impl; [exact Htop|].
    simpl. intros b Hb. apply Z.ltb_lt. lia.
Qed.

Lemma entries_outer_first_app (h : list Entry) (e : Entry) (rest : list Entry) :
  entries_outer_first (h ++ e :: rest) ->
  Forall (fun b => e_cpu_end b <= e_cpu_start e \/ e_cpu_end e <= e_cpu_end b) h.
Proof.
  induction h as [|a h IH]; [constructor|]. cbn [app entries_outer_first].
  intros [Ha Hh]. constructor; [|by apply IH].
  apply Forall_app in Ha as [_ Ha]. by inversion Ha.
Qed.

Lemma nest_fold_depths (entries : list Entry) :
  forall roots stack h s0,
    nested_paths stack ->
    match stack with (_, p) :: _ => rightmost p roots | [] => True end ->
    path_lengths stack ->
    ends_ascending (map fst stack) ->
    map fst stack = reverse (List.filter (fun a => s0 <? e_cpu_end a) h) ->
    key_sorted e_cpu_start entries ->
    Forall (fun e => s0 <= e_cpu_start e) entries ->
    Forall (fun e => e_cpu_start e < e_cpu_end e) entries ->
    entries_outer_first (h ++ entries) ->
    flat_map (scopes_at_depth 0) (fold_left nest_step entries (roots, stack)).1
    = flat_map (scopes_at_depth 0) roots ++ entry_depths h entries.
Proof.
  induction entries as [|e rest IH];
    intros roots stack h s0 Hn Hr Hpl Hasc Hstack Hsorted Hge Hpos Hof.
  - simpl. by rewrite app_nil_r.
  - destruct Hsorted as [Hfirst Hsorted].
    inversion Hge as [|? ? Hs0 Hge']; inversion Hpos as [|? ? Hpe Hpos']; subst.
    cbn [fold_left nest_step entry_depths].
    destruct (pop_ended_rightmost roots stack (e_cpu_start e) Hn Hr) as [Hn1 Hr1].
    destruct (pop_ended_open stack (e_cpu_start e) Hasc) as (Hopen & Hasc1 & Hpl1).
    specialize (Hpl1 Hpl). cbv zeta in Hn1, Hr1.
    set (stack1 := pop_ended stack (e_cpu_start e)) in *.
    assert (Hstack1 : map fst stack1
                      = reverse (List.filter (fun a => e_cpu_start e <? e_cpu_end a) h)).
    { rewrite Hopen, Hstack, filter_reverse. f_equal. apply filter_narrow.
      intros a Ha. apply Z.ltb_lt in Ha. apply Z.ltb_lt. lia. }
    set (parent := match stack1 with (_, path) :: _ => path | [] => [] end).
    assert (Hparent : rightmost parent roots).
    { subst parent. by destruct stack1 as [|[? ?] ?]. }
    assert (Hdepth : length parent
                     = length (List.filter (fun a => e_cpu_start e <? e_cpu_end a) h)).
    { rewrite <- (length_reverse (List.filter _ h)), <- Hstack1, length_map.
      subst parent. destruct stack1 as [|[? q] ?]; [done|]. by destruct Hpl1. }
    rewrite (IH _ _ (h ++ [e]) (e_cpu_start e)).
    + rewrite (depths_append_at _ _ 0 _ Hparent). cbn [scopes_at_depth Nat.add].
      rewrite depths_of_kernels, Hdepth, <- app_assoc. done.
    + cbn [nested_paths]. split; [|done]. subst parent.
      destruct stack1 as [|[? q] ?]; [done|]. by apply prefix_app_r.
    + by apply rightmost_append_at.
    + cbn [path_lengths]. split; [|done]. rewrite length_app. simpl.
      subst parent. destruct stack1 as [|[? q] ?]; [done|].
      destruct Hpl1 as [-> _]. simpl. lia.
    + cbn [map fst ends_ascending]. split; [|done]. rewrite Hstack1.
      apply Forall_forall. intros b Hb. rewrite elem_of_reverse in Hb.
      apply list_elem_of_In, filter_In in Hb as [Hb Hopen_b]. apply Z.ltb_lt in Hopen_b.
      pose proof (entries_outer_first_app h e rest Hof) as Hbefore.
      pose proof (proj1 (Forall_forall _ _) Hbefore b (proj2 (list_elem_of_In _ _) Hb))
        as Hcase.
      cbn beta in Hcase. lia.
    + cbn [map fst]. rewrite Hstack1, List.filter_app. cbn [List.filter].
      rewrite (proj2 (Z.ltb_lt _ _) Hpe). by rewrite reverse_app.
    + done.
    + exact Hfirst.
    + done.
    + by rewrite <- app_assoc.
Qed.

(** X27. For entries in start order with non-empty CPU ranges, ordered
    so that a scope comes before the scopes it contains, the nesting
    loop puts the node of every entry at the depth given by the number
    of earlier entries whose CPU range is still open when the entry
    starts: nesting in the forest is containment of CPU ranges. *)
Theorem nest_depths (entries : list Entry) :
  key_sorted e_cpu_start entries ->
  Forall (fun e => e_cpu_start e < e_cpu_end e) entries ->
  entries_outer_first entries ->
  flat_map (scopes_at_depth 0) (nest entries) = entry_depths [] entries.
Proof.
  intros Hsorted Hpos Hof. unfold nest.
  destruct entries as [|e rest]; [done|].
  rewrite (nest_fold_depths (e :: rest) [] [] [] (e_cpu_start e));
    try done.
  destruct Hsorted as [Hfirst _]. constructor; [lia | done].
Qed.

(** The entries of the nested scopes: depths 0, 1, 2, 1. *)
Lemma nest_depths_witness :
  let kmap := kernel_map nested_profile 0 in
  let rt_rows := runtime_rows nested_profile 1 (0, 1000 + 2000000000) in
  let entries :=
    omap (entry_of kmap rt_rows (0, 1000)) (nvtx_rows_of nested_profile 1 (0, 1000)) in
  flat_map (scopes_at_depth 0) (nest entries) = entry_depths [] entries /\
  map snd (flat_map (scopes_at_depth 0) (nest entries)) = [0; 1; 2; 1]%nat.
Proof.
  cbv zeta. split.
  - apply (nest_depths
             (omap (entry_of (kernel_map nested_profile 0)
                             (runtime_rows nested_profile 1 (0, 1000 + 2000000000))
                             (0, 1000))
                   (nvtx_rows_of nested_profile 1 (0, 1000)))).
    + apply entries_sorted. apply sorted_by_key_sorted.
    + vm_compute. repeat constructor.
    + vm_compute.
      repeat match goal with
             | |- True => exact I
             | |- _ /\ _ => split
             | |- Forall _ _ => constructor
             | |- _ \/ _ =>
                 first [ left; intros H; discriminate H
                       | right; intros H; discriminate H ]
             end.
  - vm_compute. reflexivity.
Defined.

(** ** The Perfetto trace *)

Lemma fold_max_nat_ge (l : list nat) (x : nat) :
  (x <= fold_left Nat.max l x)%nat /\
  Forall (fun y => (y <= fold_left Nat.max l x)%nat) l.
Proof.
  revert x. induction l as [|y r IH]; intros x; simpl; [split; [lia | constructor]|].
  destruct (IH (Nat.max x y)) as [H1 H2]. split; [lia|].
  constructor; [lia | done].
Qed.

Lemma projected_row_start (prof : Profile) (device : Z) (trim : Z * Z) (pad : Z)
      (row : ProjectedRow) :
  row ∈ project_nvtx prof device trim pad ->
  p_projected row = true ->
  exists c k, kernel_map prof device !! c = Some k /\ p_start row = ki_start k.
Proof.
  unfold project_nvtx. destruct (decide (kernel_map prof device = ∅)) as [|_];
    [by intros H%elem_of_nil|].
  intros Hrow Hp. apply list_elem_of_omap in Hrow as (item & Hitem & Hemit).
  destruct (project_loop_rows (kernel_map prof device)
              (runtime_index prof (gpu_threads prof device)
                             (trim.1 - pad, trim.2 + 2000000000)) trim
              (fun _ row => p_projected row = true ->
                            exists c k, kernel_map prof device !! c = Some k /\
                                        p_start row = ki_start k)
              (nvtx_events prof (gpu_threads prof device) (trim.1 - pad, trim.2)))
    with (stacks := (∅ : gmap Z (list Z))) as [Hrows _].
  { intros stacks text n r _ _ Hr Hpr.
    apply project_scope_row in Hr as (_ & _ & _ & _ & Hgpu).
    destruct (Hgpu Hpr) as (rt & _ & k & _ & Hk & _ & _ & _ & _ & _ & Hs & _).
    by exists (r_correlationId rt), k. }
  cbv zeta in Hrows.
  by apply (proj1 (Forall_forall _ _) Hrows item Hitem row Hemit).
Qed.

(** X28. [gpu_trace] returns no event for a device without kernels.
    Otherwise it has one [gpu_kernel] slice per kernel of the window and
    one [nvtx_projected] slice per projected row; every slice belongs to
    the process of the GPU and runs on a thread that a [thread_name]
    event of the trace names; and no projected slice starts before the
    time origin, the earliest start in the kernel map. *)
Theorem gpu_trace_events (prof : Profile) (gpu : Z) (trim : Z * Z) :
  let events := gpu_trace prof gpu trim in
  let projected := project_nvtx prof gpu trim 5000000000 in
  (kernel_map prof gpu = ∅ -> events = []) /\
  (kernel_map prof gpu <> ∅ ->
   length (List.filter (fun ev => bool_decide (event_cat ev = Some "gpu_kernel"%string))
                       events)
   = length (kernels prof gpu (Some trim)) /\
   length (List.filter (fun ev => bool_decide (event_cat ev = Some "nvtx_projected"%string))
                       events)
   = length (List.filter p_projected projected)) /\
  Forall (fun ev =>
            match ev with
            | Slice _ cat ts _ pid tid _ =>
                pid = gpu /\ thread_named events gpu tid /\
                (cat = "nvtx_projected"%string -> (0 <= ts)%Q)
            | _ => True
            end) events.
Proof.
  intros events projected. subst events. unfold gpu_trace. fold projected.
  destruct (decide (kernel_map prof gpu = ∅)) as [Hempty|Hsome].
  { split; [done|]. split; [done | constructor]. }
  set (kmap := kernel_map prof gpu) in *.
  set (min_ts := Py.min_of 0 (map (fun item : Z * KernelInfo => ki_start item.2)
                                  (map_to_list kmap))).
  set (ks := kernels prof gpu (Some trim)).
  set (max_depth := fold_left Nat.max (map p_depth projected) 0%nat).
  set (kernel_events := map _ ks).
  set (nvtx_events := omap _ projected).
  set (levels := flat_map _ (seq 0 (S max_depth))).
  set (stream_meta := flat_map _ (Py.sorted Z.leb _)).
  split; [done|]. split.
  { intros _. rewrite !List.filter_app, !length_app.
    assert (Hk1 : List.filter (fun ev => bool_decide (event_cat ev = Some "gpu_kernel"%string))
                              kernel_events = kernel_events).
    { apply filter_keeps_all. subst kernel_events. by rewrite Forall_map, Forall_forall. }
    assert (Hk2 : List.filter (fun ev => bool_decide (event_cat ev = Some "nvtx_projected"%string))
                              kernel_events = []).
    { apply filter_none. subst kernel_events. by rewrite Forall_map, Forall_forall. }
    assert (Hn1 : List.filter (fun ev => bool_decide (event_cat ev = Some "gpu_kernel"%string))
                              nvtx_events = []).
    { apply filter_none. subst nvtx_events. apply Forall_forall. intros ev Hev.
      apply list_elem_of_omap in Hev as (p & _ & Hp).
      destruct (p_projected p); [|done]. by injection Hp as <-. }
    assert (Hn2 : length (List.filter
                            (fun ev => bool_decide (event_cat ev = Some "nvtx_projected"%string))
                            nvtx_events)
                  = length (List.filter p_projected projected)).
    { subst nvtx_events. clear. induction projected as [|p r IH]; [done|].
      cbn [omap list_omap List.filter]. destruct (p_projected p); simpl; [|done].
      by rewrite IH. }
    assert (Hmeta : forall c l,
               Forall (fun ev => event_cat ev = None) l ->
               List.filter (fun ev => bool_decide (event_cat ev = Some c)) l = []).
    { intros c l Hl. apply filter_none. eapply Forall_impl; [exact Hl|].
      simpl. intros ev ->. done. }
    assert (Hlv : Forall (fun ev => event_cat ev = None) levels).
    { apply Forall_forall. intros ev Hev.
      apply list_elem_of_In, in_flat_map in Hev as (x & _ & Hev).
      simpl in Hev. by destruct Hev as [<-|[<-|[]]]. }
    assert (Hsm : Forall (fun ev => event_cat ev = None) stream_meta).
    { apply Forall_forall. intros ev Hev.
      apply list_elem_of_In, in_flat_map in Hev as (x & _ & Hev).
      simpl in Hev. by destruct Hev as [<-|[<-|[]]]. }
    rewrite !(Hmeta _ levels Hlv), !(Hmeta _ stream_meta Hsm), Hk1, Hk2, Hn1, Hn2.
    subst kernel_events. rewrite length_map. simpl. split; lia. }
  assert (Hlevel : forall d, (d <= max_depth)%nat ->
                             thread_named (kernel_events ++ nvtx_events
                                           ++ [ProcessName gpu ("GPU " ++ py_str gpu)]
                                           ++ levels ++ stream_meta)
                                          gpu (10 + Z.of_nat d)).
  { intros d Hd. eexists. rewrite !elem_of_app. do 3 right. left.
    subst levels. apply list_elem_of_In, in_flat_map. exists d.
    split; [apply in_seq; lia | by left]. }
  assert (Hstream : forall k, k ∈ ks ->
                              thread_named (kernel_events ++ nvtx_events
                                            ++ [ProcessName gpu ("GPU " ++ py_str gpu)]
                                            ++ levels ++ stream_meta)
                                           gpu (k_streamId k)).
  { intros k Hk. eexists. rewrite !elem_of_app. do 4 right.
    subst stream_meta. apply list_elem_of_In, in_flat_map. exists (k_streamId k).
    split; [|by left]. apply list_elem_of_In. rewrite sorted_perm.
    apply elem_of_elements, elem_of_list_to_set, list_elem_of_In, in_map.
    by apply list_elem_of_In. }
  rewrite !Forall_app. split; [|split; [|split; [|split]]].
  - subst kernel_events. rewrite Forall_map. apply Forall_forall. intros k Hk.
    split; [done|]. split; [by apply Hstream | done].
  - subst nvtx_events. apply Forall_forall. intros ev Hev.
    apply list_elem_of_omap in Hev as (p & Hp & Hev).
    destruct (p_projected p) eqn:Eproj; [|done]. injection Hev as <-.
    split; [done|]. split.
    + apply Hlevel. subst max_depth.
      destruct (fold_max_nat_ge (map p_depth projected) 0) as [_ Hall].
      apply (proj1 (Forall_forall _ _) Hall), list_elem_of_In, in_map.
      by apply list_elem_of_In.
    + intros _. destruct (projected_row_start prof gpu trim _ p Hp Eproj) as (c & k & Hk & ->).
      assert (Hmin : min_ts <= ki_start k).
      { subst min_ts.
        apply (proj1 (Forall_forall _ _) (min_of_le 0 _)).
        apply list_elem_of_In, in_map_iff. exists (c, k). split; [done|].
        by apply list_elem_of_In, elem_of_map_to_list. }
      apply Qle_shift_div_l; [reflexivity|]. rewrite Qmult_0_l.
      change 0%Q with (inject_Z 0). rewrite <- Zle_Qle. lia.
  - by repeat constructor.
  - apply Forall_forall. intros ev Hev. subst levels.
    apply list_elem_of_In, in_flat_map in Hev as (x & _ & Hev).
    simpl in Hev. by destruct Hev as [<-|[<-|[]]].
  - apply Forall_forall. intros ev Hev. subst stream_meta.
    apply list_elem_of_In, in_flat_map in Hev as (x & _ & Hev).
    simpl in Hev. by destruct Hev as [<-|[<-|[]]].
Qed.

(** ** The JSON form of the tree *)

Lemma guarded_quotient (d : Z) (q r : Q) :
  (if 0 <? d then if d =? 0 then Raises ZeroDivisionError else Returns q
   else Returns r)
  = Returns (if 0 <? d then q else r).
Proof.
  destruct (Z.ltb_spec 0 d); [|done]. by destruct (Z.eqb_spec d 0); [lia|].
Qed.

Lemma map_outcome_all {A B : Type} (f : A -> outcome B) (P : A -> B -> Prop)
      (l : list A) :
  Forall (fun x => exists y, f x = Returns y /\ P x y) l ->
  exists ys, map_outcome f l = Returns ys /\ Forall2 P l ys.
Proof.
  induction 1 as [|x r (y & Hy & HP) _ (ys & Hys & HPs)].
  - by exists [].
  - exists (y :: ys). cbn [map_outcome]. rewrite Hy, Hys. by split; [|constructor].
Qed.

Lemma guard_off (d : Z) (q r : Q) : d <= 0 -> (if 0 <? d then q else r) = r.
Proof. intros H. by destruct (Z.ltb_spec 0 d); [lia|]. Qed.

Lemma to_json_node_returns (py_round : Q -> nat -> Q) (node : Node) :
  forall max_ns parent_ns path,
  exists j,
    to_json_node py_round max_ns parent_ns path node = Returns j /\
    as_jnode j = jnode_of py_round node /\
    (parent_ns <= 0 -> json_relative_pct j = 100%Q) /\
    (max_ns <= 0 -> json_heat j = 0%Q) /\
    json_path j = match path with
                  | EmptyString => node_name node
                  | _ => (path ++ " > " ++ node_name node)%string
                  end.
Proof.
  induction node as [k|name start end_ children IH] using Node_forest_ind;
    intros max_ns parent_ns path; cbn [to_json_node].
  - rewrite !guarded_quotient. cbn [bind]. eexists. split; [reflexivity|].
    cbn [as_jnode is_kernel json_relative_pct json_heat json_path node_name
         node_end node_start]. simpl String.eqb.
    split; [done|]. split; [apply guard_off|]. split; [apply guard_off | done].
  - rewrite !guarded_quotient. cbn [bind].
    destruct children as [|c cs].
    + cbn [bind]. eexists. split; [reflexivity|].
      cbn [as_jnode is_kernel json_relative_pct json_heat json_path]. simpl String.eqb.
      split; [done|]. split; [apply guard_off|]. split; [apply guard_off | done].
    + remember (c :: cs) as ch eqn:Ech.
      set (node_path := match path with
                        | EmptyString => node_name (Nvtx name start end_ ch)
                        | _ => (path ++ " > " ++ node_name (Nvtx name start end_ ch))%string
                        end).
      destruct (map_outcome_all
                  (to_json_node py_round
                     (Py.max_of 1000000 (map (fun c => node_end c - node_start c) ch))
                     (node_end (Nvtx name start end_ ch) - node_start (Nvtx name start end_ ch))
                     node_path)
                  (fun n j => as_jnode j = jnode_of py_round n) ch)
        as (js & Hjs & Hall).
      { eapply Forall_impl; [exact IH|]. simpl. intros n Hn.
        destruct (Hn (Py.max_of 1000000 (map (fun c => node_end c - node_start c) ch))
                     (end_ - start) node_path) as (j & Hj & Has & _).
        by exists j. }
      rewrite Hjs. cbn [bind]. eexists. split; [reflexivity|].
      cbn [as_jnode is_kernel json_relative_pct json_heat json_path]. simpl String.eqb.
      split; [|split; [apply guard_off | split; [apply guard_off | done]]].
      cbn [jnode_of node_name node_end node_start]. f_equal.
      clear -Hall. induction Hall as [|n j ns js' Hnj _ IHall]; [done|].
      cbn [map]. by rewrite Hnj, IHall.
Qed.

Lemma convergence_fold_total (py_round : Q -> nat -> Q) (children : list Node) :
  Forall (fun n => forall s,
              st_total_nvtx (convergence_node (jnode_of py_round n) s)
              = (st_total_nvtx s + length (scopes n))%nat) children ->
  forall s,
    st_total_nvtx (fold_left (fun stats child => convergence_node child stats)
                             (map (jnode_of py_round) children) s)
    = (st_total_nvtx s + length (flat_map scopes children))%nat.
Proof.
  induction 1 as [|c r Hc _ IH]; intros s; [simpl; lia|].
  cbn [map fold_left flat_map]. rewrite IH, Hc, length_app. lia.
Qed.

Lemma convergence_node_total (py_round : Q -> nat -> Q) (n : Node) :
  forall s,
    st_total_nvtx (convergence_node (jnode_of py_round n) s)
    = (st_total_nvtx s + length (scopes n))%nat.
Proof.
  induction n as [k|name start end_ children IH] using Node_forest_ind; intros s.
  - simpl. lia.
  - cbn [jnode_of convergence_node scopes length].
    rewrite (convergence_fold_total py_round children IH).
    destruct (List.filter j_is_nvtx (map (jnode_of py_round) children)) as [|c0 cs].
    + destruct (length (List.filter j_is_kernel (map (jnode_of py_round) children)) =? 1)%nat;
        [simpl; lia|].
      destruct (1 <? length (List.filter j_is_kernel (map (jnode_of py_round) children)))%nat;
        simpl; lia.
    + simpl. lia.
Qed.

(** X29. [to_json] never raises: its two quotients are taken only when
    the divisor is positive.  It returns one JSON node per root; the
    analyzer reads of it the name, the kind, the rounded duration and
    the children of the tree node; roots have [relative_pct] 100 and
    their own name as path; and the convergence report computed on the
    JSON form counts exactly the scope nodes of the tree. *)
Theorem to_json_returns (py_round : Q -> nat -> Q) (roots : list Node) :
  exists js,
    to_json py_round roots 0 "" = Returns js /\
    map as_jnode js = map (jnode_of py_round) roots /\
    Forall (fun j => json_relative_pct j = 100%Q) js /\
    map json_path js = map node_name roots /\
    total_nvtx (convergence_report py_round (map as_jnode js))
    = length (flat_map scopes roots).
Proof.
  unfold to_json.
  destruct (map_outcome_all
              (to_json_node py_round
                 (Py.max_of 1000000 (map (fun c => node_end c - node_start c) roots))
                 0 "")
              (fun n j => as_jnode j = jnode_of py_round n /\
                          json_relative_pct j = 100%Q /\
                          json_path j = node_name n) roots)
    as (js & Hjs & Hall).
  { apply Forall_forall. intros n _.
    destruct (to_json_node_returns py_round n
                (Py.max_of 1000000 (map (fun c => node_end c - node_start c) roots))
                0 "") as (j & Hj & Has & Hpct & _ & Hpath).
    exists j. split; [done|]. split; [done|]. split; [by apply Hpct | done]. }
  exists js. split; [done|].
  assert (Hmap : map as_jnode js = map (jnode_of py_round) roots).
  { clear -Hall. induction Hall as [|n j ns js' (Hnj & _) _ IH]; [done|].
    cbn [map]. by rewrite Hnj, IH. }
  split; [done|]. split; [|split].
  - clear -Hall. induction Hall as [|n j ns js' (_ & Hpct & _) _ IH]; by constructor.
  - clear -Hall. induction Hall as [|n j ns js' (_ & _ & Hp) _ IH]; [done|].
    cbn [map]. by rewrite Hp, IH.
  - rewrite Hmap. unfold convergence_report, _convergence_walk. cbn [total_nvtx].
    rewrite (convergence_fold_total py_round roots); [done|].
    apply Forall_forall. intros n _. apply convergence_node_total.
Qed.

(** ** Iteration detection: what is dropped *)

Lemma keep_top_level_dropped (rows : list NvtxRow) :
  forall last_end,
    key_sorted n_start rows ->
    Forall (fun n =>
              n ∈ keep_top_level last_end rows \/
              n_start n < last_end \/
              exists k, k ∈ keep_top_level last_end rows /\
                        n_start k <= n_start n < n_end k) rows.
Proof.
  induction rows as [|n r IH]; intros last_end Hsorted; [constructor|].
  destruct Hsorted as [Hfirst Hsorted]. cbn [keep_top_level].
  destruct (Z.leb_spec last_end (n_start n)) as [Hkeep|Hdrop].
  - constructor; [left; by left|].
    specialize (IH (n_end n) Hsorted). apply Forall_forall. intros m Hm.
    pose proof (proj1 (Forall_forall _ _) IH m Hm) as [Hin|[Hopen|(k & Hk & Hopen)]].
    + left. by right.
    + right. right. exists n. split; [by left|].
      pose proof (proj1 (Forall_forall _ _) Hfirst m Hm) as Hge. cbn beta in Hge. lia.
    + right. right. exists k. split; [by right | done].
  - constructor; [right; by left|]. by apply IH.
Qed.

(** X30. Iteration detection drops a marker scope of the primary thread
    only when it starts before the end of a marker kept before it (it
    lies inside that iteration or overlaps it), or when it starts at a
    negative time, before the initial [last_end = 0]. *)
Theorem kept_markers_maximal (top_launcher : Profile -> Z -> option (Z * nat))
        (prof : Profile) (device : Z) (trim : option (Z * Z)) (marker : string) :
  let t := match trim with Some t => t | None => time_range prof end in
  let rows := marker_rows prof marker (_find_primary_thread top_launcher prof device)
                          (t.1 - 5000000000, t.2) in
  let kept := kept_markers top_launcher prof device trim marker in
  Forall (fun n =>
            n ∈ kept \/ n_start n < 0 \/
            exists k, k ∈ kept /\ n_start k <= n_start n < n_end k) rows.
Proof.
  intros t rows kept. subst kept. unfold kept_markers. fold t. fold rows.
  apply keep_top_level_dropped. subst rows. unfold marker_rows.
  apply sorted_by_key_sorted.
Qed.

